(** * realtime-server: the PostgreSQL NOTIFY to Socket.IO bridge

    A shallow embedding of [src/realtime-server.ts] (class [RealtimeServer]):
    the notification handlers ([handlePgNotification] and the three
    [handleConversion*Change] methods), the listener installed by
    [setupPgNotifications], and the connection life cycle
    ([setupPgNotifications], [reconnectPg], [close]) as an event-driven
    state machine.  *)

From Stdlib Require Import String Ascii List ZArith Bool Arith Lia DecimalString.
Import ListNotations.
Open Scope string_scope.
Set Warnings "-register-all".

(** ** JavaScript values

    The payload of a notification is whatever [JSON.parse] returns, and the
    objects handed to Socket.IO are object literals built from it.  Numbers
    are IEEE doubles in JavaScript; the server only ever tests one for
    truthiness and renders one inside a template literal, so the number type
    is kept abstract behind these two operations. *)

Class JSNumber : Type := {
  number : Type;
  number_truthy : number -> bool;      (* false for 0, -0 and NaN *)
  number_toString : number -> string   (* Number.prototype.toString *)
}.

Section Values.
Context `{NUM : JSNumber}.

Inductive JSValue : Type :=
| JUndefined
| JNull
| JBool (b : bool)
| JNumber (n : number)
| JString (s : string)
| JArray (items : list JSValue)
| JObject (props : list (string * JSValue)).

(** Own properties of an object, in insertion order; the first binding of a
    key is the property. *)
Fixpoint own_property (key : string) (props : list (string * JSValue))
  : option JSValue :=
  match props with
  | [] => None
  | (k, v) :: rest => if String.eqb k key then Some v else own_property key rest
  end.

(** ToBoolean, as used by [if (x)] and [x || y]. *)
Definition truthy (v : JSValue) : bool :=
  match v with
  | JUndefined | JNull => false
  | JBool b => b
  | JNumber n => number_truthy n
  | JString s => negb (String.eqb s "")
  | JArray _ | JObject _ => true
  end.

(** [a || b] *)
Definition js_or (a b : JSValue) : JSValue := if truthy a then a else b.

(** [v === "lit"] for a string literal: true only for that very string. *)
Definition strict_eq_string (v : JSValue) (lit : string) : bool :=
  match v with
  | JString s => String.eqb s lit
  | _ => false
  end.

(** ToString, as applied by a template literal.  [None] is a TypeError: an
    object decoded from JSON whose own property [toString] shadows
    [Object.prototype.toString] with a value that cannot be called has no
    primitive rendering.  Arrays render through [Array.prototype.join]. *)
Fixpoint ToString (v : JSValue) : option string :=
  match v with
  | JUndefined => Some "undefined"
  | JNull => Some "null"
  | JBool true => Some "true"
  | JBool false => Some "false"
  | JNumber n => Some (number_toString n)
  | JString s => Some s
  | JArray items =>
      (fix join (l : list JSValue) : option string :=
         match l with
         | [] => Some ""
         | x :: rest =>
             let first :=
               match x with
               | JUndefined | JNull => Some ""
               | _ => ToString x
               end in
             match rest with
             | [] => first
             | _ :: _ =>
                 match first, join rest with
                 | Some a, Some b => Some (a ++ "," ++ b)
                 | _, _ => None
                 end
             end
         end) items
  | JObject props =>
      match own_property "toString" props with
      | Some _ => None
      | None => Some "[object Object]"
      end
  end.

End Values.

Arguments JSValue {NUM}.

(** ** Effects of the notification handlers

    The handlers talk to Socket.IO ([io.emit], [io.to(room).emit]) and to the
    console, and they can throw.  A computation is the list of effects it
    performed, in order, together with how it completed.  Console texts are
    given without the emoji they start with in the source. *)

Inductive Exn : Type :=
| SyntaxError      (* thrown by JSON.parse *)
| TypeError        (* property read on undefined or null, failed ToString *)
| HostError.       (* a rejection or error event coming from the pg client *)

Inductive Target : Type :=
| Everyone               (* io.emit(...) *)
| Room (name : string).  (* io.to(name).emit(...) *)

Inductive Completion (A : Type) : Type :=
| Normal (a : A)
| Throw (e : Exn).
Arguments Normal {A} a.
Arguments Throw {A} e.

Section Effects.
Context `{NUM : JSNumber}.

Inductive Effect : Type :=
| Emit (target : Target) (event : string) (body : JSValue)
| ConsoleLog (text : string) (args : list JSValue)
| ConsoleError (text : string) (error : Exn).

Definition Eff (A : Type) : Type := (list Effect * Completion A)%type.

Definition ret {A} (a : A) : Eff A := ([], Normal a).
Definition throw {A} (e : Exn) : Eff A := ([], Throw e).
Definition perform (e : Effect) : Eff unit := ([e], Normal tt).

Definition bind {A B} (m : Eff A) (f : A -> Eff B) : Eff B :=
  match m with
  | (t, Normal a) => let (t', r) := f a in ((t ++ t')%list, r)
  | (t, Throw e) => (t, Throw e)
  end.

(** [try { body } catch (error) { handler }] *)
Definition try_catch {A} (body : Eff A) (handler : Exn -> Eff A) : Eff A :=
  match body with
  | (t, Normal a) => (t, Normal a)
  | (t, Throw e) => let (t', r) := handler e in ((t ++ t')%list, r)
  end.

End Effects.

Declare Scope eff_scope.
Delimit Scope eff_scope with eff.
Notation "x <- m ;; k" := (bind m (fun x => k))
  (at level 61, m at next level, right associativity) : eff_scope.
Notation "m ;; k" := (bind m (fun _ => k))
  (at level 61, right associativity) : eff_scope.
Open Scope eff_scope.

(** ** The notification handlers *)

Section Handlers.
Context `{NUM : JSNumber}.

(** [JSON.parse] is the engine's decoder: [None] stands for the SyntaxError
    it throws on text that is not JSON. *)
Variable JSON_parse : string -> option JSValue.

Definition JSON_parse_or_throw (text : string) : Eff JSValue :=
  match JSON_parse text with
  | Some v => ret v
  | None => throw SyntaxError
  end.

(** [io.to(room).emit(event, body)] and [io.emit(event, body)] *)
Definition io_to_emit (room event : string) (body : JSValue) : Eff unit :=
  perform (Emit (Room room) event body).
Definition io_emit (event : string) (body : JSValue) : Eff unit :=
  perform (Emit Everyone event body).

Definition console_log (text : string) (args : list JSValue) : Eff unit :=
  perform (ConsoleLog text args).
Definition console_error (text : string) (error : Exn) : Eff unit :=
  perform (ConsoleError text error).

(** [v.key], for the keys this server reads ([operation], [table], [data],
    [conversionId]).  Reading a property of [undefined] or [null] throws;
    none of the four keys is a built-in property of a string, number,
    boolean or array or of [Object.prototype], so on anything but an object
    that owns the key the read yields [undefined]. *)
Definition get_property (v : JSValue) (key : string) : Eff JSValue :=
  match v with
  | JUndefined | JNull => throw TypeError
  | JObject props =>
      match own_property key props with
      | Some x => ret x
      | None => ret JUndefined
      end
  | _ => ret JUndefined
  end.

(** The template literal [`conversion-${v}`]. *)
Definition conversion_room (v : JSValue) : Eff string :=
  match ToString v with
  | Some s => ret ("conversion-" ++ s)
  | None => throw TypeError
  end.

Definition handleConversionMessageChange (operation data : JSValue) : Eff unit :=
  (* Emit to all clients subscribed to conversion messages *)
  io_to_emit "conversion-messages" "postgres_changes"
    (JObject [("event", operation);
              ("schema", JString "public");
              ("table", JString "ConversionMessage");
              ("new", if strict_eq_string operation "DELETE" then JNull else data);
              ("old", if strict_eq_string operation "INSERT" then JNull else data)]) ;;
  (* Also emit to specific conversion channel if available *)
  conversionId <- get_property data "conversionId" ;;
  if truthy conversionId then
    room <- conversion_room conversionId ;;
    io_to_emit room "postgres_changes"
      (JObject [("event", operation);
                ("schema", JString "public");
                ("table", JString "ConversionMessage");
                ("new", if strict_eq_string operation "DELETE" then JNull else data);
                ("old", if strict_eq_string operation "INSERT" then JNull else data)])
  else ret tt.

Definition handleConversionChange (operation data : JSValue) : Eff unit :=
  (* Emit to all clients subscribed to conversions *)
  io_to_emit "conversions" "postgres_changes"
    (JObject [("event", operation);
              ("schema", JString "public");
              ("table", JString "Conversion");
              ("new", if strict_eq_string operation "DELETE" then JNull else data);
              ("old", if strict_eq_string operation "INSERT" then JNull else data)]).

Definition handleConversionStepChange (operation data : JSValue) : Eff unit :=
  (* Emit to all clients subscribed to conversion steps *)
  io_to_emit "conversion-steps" "postgres_changes"
    (JObject [("event", operation);
              ("schema", JString "public");
              ("table", JString "ConversionStep");
              ("new", if strict_eq_string operation "DELETE" then JNull else data);
              ("old", if strict_eq_string operation "INSERT" then JNull else data)]) ;;
  (* Also emit to specific conversion channel *)
  conversionId <- get_property data "conversionId" ;;
  if truthy conversionId then
    room <- conversion_room conversionId ;;
    io_to_emit room "postgres_changes"
      (JObject [("event", operation);
                ("schema", JString "public");
                ("table", JString "ConversionStep");
                ("new", if strict_eq_string operation "DELETE" then JNull else data);
                ("old", if strict_eq_string operation "INSERT" then JNull else data)])
  else ret tt.

Definition handlePgNotification (channel : string) (payload : JSValue) : Eff unit :=
  (* const { operation, table, data } = payload; *)
  operation <- get_property payload "operation" ;;
  table <- get_property payload "table" ;;
  data <- get_property payload "data" ;;
  if String.eqb channel "conversion_message_changes" then
    handleConversionMessageChange operation data
  else if String.eqb channel "conversion_changes" then
    handleConversionChange operation data
  else if String.eqb channel "conversion_step_changes" then
    handleConversionStepChange operation data
  else if String.eqb channel "test_channel" then
    io_emit "test_notification" (JObject [("message", payload)])
  else
    console_log ("Unknown notification channel: " ++ channel) [] ;;
    (* Forward unknown channels as-is *)
    io_to_emit channel "postgres_changes"
      (JObject [("event", js_or operation (JString "UNKNOWN"));
                ("schema", JString "public");
                ("table", js_or table (JString "unknown"));
                ("new", data);
                ("old", JNull);
                ("channel", JString channel)]).

(** A message of the pg client's [notification] event; [payload] may be
    undefined. *)
Record Notification : Type := {
  channel : string;
  payload : option string
}.

(** [msg.payload || "{}"]: undefined and the empty string are falsy. *)
Definition payload_text (msg : Notification) : string :=
  match payload msg with
  | Some s => if String.eqb s "" then "{}" else s
  | None => "{}"
  end.

(** The listener installed by [this.pgClient.on("notification", ...)]. *)
Definition on_notification (msg : Notification) : Eff unit :=
  try_catch
    (let channel := channel msg in
     payload <- JSON_parse_or_throw (payload_text msg) ;;
     console_log ("Received notification on channel " ++ channel ++ ":") [payload] ;;
     (* Forward notification to appropriate Socket.IO rooms *)
     handlePgNotification channel payload)
    (fun error => console_error "Error processing notification:" error).

(** *** Observations on a run of the handlers *)

(** [undefined] and [null]: the values a property read throws on. *)
Definition nullish (v : JSValue) : bool :=
  match v with
  | JUndefined | JNull => true
  | _ => false
  end.

(** The value a successful read [v.key] yields. *)
Definition field (v : JSValue) (key : string) : JSValue :=
  match v with
  | JObject props =>
      match own_property key props with
      | Some x => x
      | None => JUndefined
      end
  | _ => JUndefined
  end.

(** What the clients can see of a computation: the Socket.IO emissions, in
    order, and whom they were addressed to. *)
Definition is_emission (e : Effect) : bool :=
  match e with
  | Emit _ _ _ => true
  | _ => false
  end.

Definition emissions (t : list Effect) : list Effect := filter is_emission t.

Fixpoint targets (t : list Effect) : list Target :=
  match t with
  | [] => []
  | Emit to _ _ :: rest => to :: targets rest
  | _ :: rest => targets rest
  end.

(** A property of the object an emission carries. *)
Definition carried (key : string) (e : Effect) : option JSValue :=
  match e with
  | Emit _ _ (JObject props) => own_property key props
  | _ => None
  end.

Definition event_name (e : Effect) : option string :=
  match e with
  | Emit _ name _ => Some name
  | _ => None
  end.

(** The room added by the second half of [handleConversionMessageChange] and
    [handleConversionStepChange]: the conversion's, when [data.conversionId]
    is truthy and renders. *)
Definition scoped (data : JSValue) : list Target :=
  if truthy (field data "conversionId") then
    match ToString (field data "conversionId") with
    | Some s => [Room ("conversion-" ++ s)]
    | None => []
    end
  else [].

(** The channels [handlePgNotification] has a case for. *)
Definition change_channels : list string :=
  ["conversion_message_changes"; "conversion_changes"; "conversion_step_changes"].


End Handlers.

(** ** The connection life cycle

    [setupPgNotifications], [reconnectPg] and [close] are async methods: each
    runs until its next [await], is suspended there, and is resumed when the
    awaited promise of the pg client settles.  Between two such moments other
    callbacks run: timers, and the [error] and [notification] events of any
    client that has listeners.  The server is therefore modelled as a state
    machine driven by the events of its environment (the pg library, the
    timer queue, the process), each event running one segment of code to its
    next suspension point.  What the pg library answers is up to the
    environment: any awaited call may resolve or reject. *)

(** The part of a pg [Client] the server depends on.  [connected] is set when
    a [connect()] promise resolves and [ended] when an [end()] promise
    resolves; [listening] collects the channels of the [LISTEN] queries that
    resolved on this client; the two counters are the listeners added with
    [on("notification", ...)] and [on("error", ...)]. *)
Record Client : Type := {
  connected : bool;
  ended : bool;
  listening : list string;
  notification_listeners : nat;
  error_listeners : nat
}.

(** [new Client({ connectionString })] *)
Definition new_Client : Client :=
  {| connected := false; ended := false; listening := [];
     notification_listeners := 0; error_listeners := 0 |}.

(** A client holds a live connection from the moment [connect()] resolved
    until [end()] resolved. *)
Definition live (c : Client) : bool := connected c && negb (ended c).

(** The client after a [connect()], a [LISTEN] query or an [end()] of its
    own has resolved. *)
Definition has_connected (cl : Client) : Client :=
  {| connected := true; ended := ended cl; listening := listening cl;
     notification_listeners := notification_listeners cl;
     error_listeners := error_listeners cl |}.
Definition has_listened (channel : string) (cl : Client) : Client :=
  {| connected := connected cl; ended := ended cl;
     listening := (listening cl ++ [channel])%list;
     notification_listeners := notification_listeners cl;
     error_listeners := error_listeners cl |}.
Definition has_ended (cl : Client) : Client :=
  {| connected := connected cl; ended := true; listening := listening cl;
     notification_listeners := notification_listeners cl;
     error_listeners := error_listeners cl |}.

(** Where a suspended async call waits.  The client is the one the awaited
    call was made on: [this.pgClient] is read when the call is made, and may
    have been replaced by the time the promise settles. *)
Inductive Await : Type :=
| SetupConnect (c : nat)
    (* setupPgNotifications at [await this.pgClient.connect()] *)
| SetupListen (c : nat) (channel : string) (rest : list string)
    (* setupPgNotifications at [await this.pgClient.query("LISTEN channel")],
       the LISTEN statements of [rest] still to come *)
| ReconnectEnd (c : nat)
    (* reconnectPg at [await this.pgClient.end()] *)
| CloseEnd (c : nat).
    (* close at [await this.pgClient.end()] *)

(** The two callbacks handed to [setTimeout]. *)
Inductive Callback : Type :=
| RetrySetup       (* () => this.setupPgNotifications() *)
| RetryReconnect.  (* () => this.reconnectPg() *)

(** The callback the catch block around an await hands to [setTimeout]: the
    awaits of setupPgNotifications and of reconnectPg sit in try blocks whose
    catch retries the method; the one of close does not. *)
Definition retry_after (a : Await) : option Callback :=
  match a with
  | SetupConnect _ | SetupListen _ _ _ => Some RetrySetup
  | ReconnectEnd _ => Some RetryReconnect
  | CloseEnd _ => None
  end.

(** The first await a callback reaches, on the client current at that time. *)
Definition first_await (cb : Callback) (pg : nat) : Await :=
  match cb with
  | RetrySetup => SetupConnect pg
  | RetryReconnect => ReconnectEnd pg
  end.

Record Timer : Type := {
  callback : Callback;
  set_at : Z;   (* the clock when setTimeout was called *)
  delay : Z     (* milliseconds *)
}.

Definition due (t : Timer) : Z := (set_at t + delay t)%Z.

Section Machine.
Context `{NUM : JSNumber}.
Variable JSON_parse : string -> option JSValue.

Record Server : Type := {
  clients : list Client;    (* every pg client constructed so far *)
  pgClient : nat;           (* this.pgClient, an index into [clients] *)
  pending : list Await;     (* suspended async calls *)
  timers : list Timer;      (* timers set and not yet fired *)
  now : Z;                  (* the clock, in milliseconds *)
  out : list Effect;        (* Socket.IO emissions and console output *)
  httpClosed : bool;        (* this.httpServer.close() was called *)
  uncaught : list Exn       (* exceptions that escaped to the event loop *)
}.

(** Computations over the server state that may throw. *)
Definition SM (A : Type) : Type := Server -> Server * Completion A.

Definition sm_ret {A} (a : A) : SM A := fun s => (s, Normal a).
Definition sm_throw {A} (e : Exn) : SM A := fun s => (s, Throw e).
Definition sm_bind {A B} (m : SM A) (f : A -> SM B) : SM B :=
  fun s =>
    match m s with
    | (s', Normal a) => f a s'
    | (s', Throw e) => (s', Throw e)
    end.
Definition sm_try_catch {A} (body : SM A) (handler : Exn -> SM A) : SM A :=
  fun s =>
    match body s with
    | (s', Normal a) => (s', Normal a)
    | (s', Throw e) => handler e s'
    end.

Definition set_out (t : list Effect) (s : Server) : Server :=
  {| clients := clients s; pgClient := pgClient s; pending := pending s;
     timers := timers s; now := now s; out := t; httpClosed := httpClosed s;
     uncaught := uncaught s |}.

(** Run a handler computation, appending what it did to [out]. *)
Definition lift {A} (m : Eff A) : SM A :=
  fun s => (set_out (out s ++ fst m)%list s, snd m).

Declare Scope sm_scope.
Delimit Scope sm_scope with sm.
Local Notation "x <- m ;; k" := (sm_bind m (fun x => k))
  (at level 61, m at next level, right associativity) : sm_scope.
Local Notation "m ;; k" := (sm_bind m (fun _ => k))
  (at level 61, right associativity) : sm_scope.

Definition set_clients (cs : list Client) (pg : nat) (s : Server) : Server :=
  {| clients := cs; pgClient := pg; pending := pending s; timers := timers s;
     now := now s; out := out s; httpClosed := httpClosed s;
     uncaught := uncaught s |}.
Definition set_pending (p : list Await) (s : Server) : Server :=
  {| clients := clients s; pgClient := pgClient s; pending := p;
     timers := timers s; now := now s; out := out s;
     httpClosed := httpClosed s; uncaught := uncaught s |}.
Definition set_timers (t : list Timer) (s : Server) : Server :=
  {| clients := clients s; pgClient := pgClient s; pending := pending s;
     timers := t; now := now s; out := out s; httpClosed := httpClosed s;
     uncaught := uncaught s |}.
Definition set_now (t : Z) (s : Server) : Server :=
  {| clients := clients s; pgClient := pgClient s; pending := pending s;
     timers := timers s; now := t; out := out s; httpClosed := httpClosed s;
     uncaught := uncaught s |}.
Definition set_httpClosed (b : bool) (s : Server) : Server :=
  {| clients := clients s; pgClient := pgClient s; pending := pending s;
     timers := timers s; now := now s; out := out s; httpClosed := b;
     uncaught := uncaught s |}.
Definition set_uncaught (u : list Exn) (s : Server) : Server :=
  {| clients := clients s; pgClient := pgClient s; pending := pending s;
     timers := timers s; now := now s; out := out s;
     httpClosed := httpClosed s; uncaught := u |}.

(** Replace the [i]-th element of a list, and drop it. *)
Fixpoint update_nth {A} (i : nat) (f : A -> A) (l : list A) : list A :=
  match l, i with
  | [], _ => []
  | x :: rest, O => f x :: rest
  | x :: rest, S j => x :: update_nth j f rest
  end.
Fixpoint remove_nth {A} (i : nat) (l : list A) : list A :=
  match l, i with
  | [], _ => []
  | _ :: rest, O => rest
  | x :: rest, S j => x :: remove_nth j rest
  end.

(** *** Primitive operations *)

(** [this.pgClient] *)
Definition this_pgClient : SM nat := fun s => (s, Normal (pgClient s)).

(** An [await] on a promise of client [c]: the call is parked until the
    promise settles. *)
Definition suspend (a : Await) : SM unit :=
  fun s => (set_pending (pending s ++ [a]) s, Normal tt).

(** What the awaiting code sees when the promise has settled. *)
Definition await (result : Completion unit) : SM unit :=
  match result with
  | Normal _ => sm_ret tt
  | Throw e => sm_throw e
  end.

(** [setTimeout(cb, ms)] *)
Definition setTimeout (cb : Callback) (ms : Z) : SM unit :=
  fun s =>
    (set_timers
       (timers s ++ [{| callback := cb; set_at := now s; delay := ms |}]) s,
     Normal tt).

(** [this.pgClient = new Client({ connectionString })] *)
Definition construct_pgClient : SM unit :=
  fun s =>
    (set_clients (clients s ++ [new_Client]) (length (clients s)) s, Normal tt).

Definition update_client (c : nat) (f : Client -> Client) : SM unit :=
  fun s => (set_clients (update_nth c f (clients s)) (pgClient s) s, Normal tt).

(** [client.on("notification", ...)] and [client.on("error", ...)] *)
Definition on_notification_listener (c : nat) : SM unit :=
  update_client c (fun cl =>
    {| connected := connected cl; ended := ended cl; listening := listening cl;
       notification_listeners := S (notification_listeners cl);
       error_listeners := error_listeners cl |}).
Definition on_error_listener (c : nat) : SM unit :=
  update_client c (fun cl =>
    {| connected := connected cl; ended := ended cl; listening := listening cl;
       notification_listeners := notification_listeners cl;
       error_listeners := S (error_listeners cl) |}).

(** [this.httpServer.close()] *)
Definition httpServer_close : SM unit :=
  fun s => (set_httpClosed true s, Normal tt).

(** Calling an async method without awaiting it: an exception in it rejects
    a promise nobody handles. *)
Definition detached (m : SM unit) : SM unit :=
  fun s =>
    match m s with
    | (s', Normal _) => (s', Normal tt)
    | (s', Throw e) => (set_uncaught (uncaught s' ++ [e]) s', Normal tt)
    end.

(** *** setupPgNotifications *)

Definition setup_catch (error : Exn) : SM unit :=
  (lift (console_error "Failed to setup PostgreSQL notifications:" error) ;;
   (* Retry connection after delay *)
   setTimeout RetrySetup 5000)%sm.

(** Entry, up to [await this.pgClient.connect()]. *)
Definition setupPgNotifications : SM unit :=
  sm_try_catch
    (c <- this_pgClient ;; suspend (SetupConnect c))%sm
    setup_catch.

(** The LISTEN statements still to run, then the two listeners. *)
Definition setup_listen (statements : list string) : SM unit :=
  match statements with
  | channel :: rest =>
      (c <- this_pgClient ;; suspend (SetupListen c channel rest))%sm
  | [] =>
      (* Handle notifications from PostgreSQL *)
      (c <- this_pgClient ;; on_notification_listener c ;;
      (* Handle PostgreSQL connection errors *)
       c' <- this_pgClient ;; on_error_listener c')%sm
  end.

(** From the settled [connect()] to the first LISTEN. *)
Definition setup_after_connect (result : Completion unit) : SM unit :=
  sm_try_catch
    (await result ;;
     lift (console_log "Connected to PostgreSQL for real-time notifications" []) ;;
     (* Listen to all our notification channels *)
     setup_listen ["conversion_message_changes"; "conversion_changes";
                   "conversion_step_changes"; "test_channel"])%sm
    setup_catch.

(** From a settled LISTEN to the next one, or to the end of the try block. *)
Definition setup_after_listen (rest : list string) (result : Completion unit)
  : SM unit :=
  sm_try_catch (await result ;; setup_listen rest)%sm setup_catch.

(** *** reconnectPg *)

Definition reconnect_catch (error : Exn) : SM unit :=
  (lift (console_error "Failed to reconnect to PostgreSQL:" error) ;;
   (* Retry after 5 seconds *)
   setTimeout RetryReconnect 5000)%sm.

(** Entry, up to [await this.pgClient.end()]. *)
Definition reconnectPg : SM unit :=
  sm_try_catch
    (lift (console_log "Attempting to reconnect to PostgreSQL..." []) ;;
     c <- this_pgClient ;; suspend (ReconnectEnd c))%sm
    reconnect_catch.

(** From the settled [end()] on: the new client, then
    [await this.setupPgNotifications()]. *)
Definition reconnect_after_end (result : Completion unit) : SM unit :=
  sm_try_catch
    (await result ;; construct_pgClient ;; setupPgNotifications)%sm
    reconnect_catch.

(** *** close *)

Definition close_catch (error : Exn) : SM unit :=
  lift (console_error "Error during shutdown:" error).

(** Entry, up to [await this.pgClient.end()]. *)
Definition close : SM unit :=
  (lift (console_log "Shutting down realtime server..." []) ;;
   sm_try_catch
     (c <- this_pgClient ;; suspend (CloseEnd c))
     close_catch)%sm.

Definition close_after_end (result : Completion unit) : SM unit :=
  sm_try_catch
    (await result ;;
     httpServer_close ;;
     lift (console_log "Realtime server shutdown complete" []))%sm
    close_catch.

(** *** The listeners and the timer callbacks *)

(** [this.pgClient.on("error", (err) => { ...; this.reconnectPg(); })] *)
Definition on_error (err : Exn) : SM unit :=
  (lift (console_error "PostgreSQL notification client error:" err) ;;
   (* Attempt to reconnect *)
   detached reconnectPg)%sm.

Definition run_callback (cb : Callback) : SM unit :=
  match cb with
  | RetrySetup => detached setupPgNotifications
  | RetryReconnect => detached reconnectPg
  end.

(** An event emitter calls its listeners in turn; one that throws ends the
    round. *)
Fixpoint each_listener (n : nat) (listener : SM unit) : SM unit :=
  match n with
  | O => sm_ret tt
  | S k => (listener ;; each_listener k listener)%sm
  end.

(** *** The event loop *)

(** What the environment can do next. *)
Inductive Event : Type :=
| Settle (i : nat) (result : Completion unit)
    (* the promise the [i]-th suspended call awaits resolves or rejects *)
| PgError (c : nat)
    (* client [c] emits [error] *)
| PgNotification (c : nat) (msg : Notification)
    (* client [c] emits [notification] *)
| TimerFires (i : nat)
    (* the [i]-th timer, being due, fires *)
| Advance (ms : Z)
    (* time passes *)
| CloseCalled.
    (* the process calls [server.close()] *)

(** What the pg library has done to its client when a promise resolves. *)
Definition settled (a : Await) (result : Completion unit) : SM unit :=
  match result with
  | Throw _ => sm_ret tt
  | Normal _ =>
      match a with
      | SetupConnect c => update_client c has_connected
      | SetupListen c channel _ => update_client c (has_listened channel)
      | ReconnectEnd c | CloseEnd c => update_client c has_ended
      end
  end.

(** The code that runs when a suspended call is resumed. *)
Definition resume (a : Await) (result : Completion unit) : SM unit :=
  match a with
  | SetupConnect _ => setup_after_connect result
  | SetupListen _ _ rest => setup_after_listen rest result
  | ReconnectEnd _ => reconnect_after_end result
  | CloseEnd _ => close_after_end result
  end.

(** One turn of the event loop: an exception that reaches it is uncaught. *)
Definition turn (m : SM unit) (s : Server) : Server :=
  match m s with
  | (s', Normal _) => s'
  | (s', Throw e) => set_uncaught (uncaught s' ++ [e]) s'
  end.

(** [None]: the event cannot happen in this state. *)
Definition step (s : Server) (ev : Event) : option Server :=
  match ev with
  | Settle i result =>
      match nth_error (pending s) i with
      | Some a =>
          Some (turn (settled a result ;; resume a result)%sm
                     (set_pending (remove_nth i (pending s)) s))
      | None => None
      end
  | PgError c =>
      match nth_error (clients s) c with
      | Some cl =>
          match error_listeners cl with
          | O => Some (turn (sm_throw HostError) s)
              (* an [error] event without a listener is thrown *)
          | n => Some (turn (each_listener n (on_error HostError)) s)
          end
      | None => None
      end
  | PgNotification c msg =>
      match nth_error (clients s) c with
      | Some cl =>
          Some (turn (each_listener (notification_listeners cl)
                        (lift (on_notification JSON_parse msg))) s)
      | None => None
      end
  | TimerFires i =>
      match nth_error (timers s) i with
      | Some t =>
          if (due t <=? now s)%Z
          then Some (turn (run_callback (callback t))
                          (set_timers (remove_nth i (timers s)) s))
          else None
      | None => None
      end
  | Advance ms =>
      if (0 <=? ms)%Z then Some (set_now (now s + ms)%Z s) else None
  | CloseCalled => Some (turn close s)
  end.

Fixpoint run (s : Server) (evs : list Event) : option Server :=
  match evs with
  | [] => Some s
  | ev :: rest =>
      match step s ev with
      | Some s' => run s' rest
      | None => None
      end
  end.

(** The state the constructor leaves: one client, and
    [this.setupPgNotifications()] called and suspended at its first await. *)
Definition constructed : Server :=
  turn (detached setupPgNotifications)
    {| clients := [new_Client]; pgClient := 0; pending := []; timers := [];
       now := 0; out := []; httpClosed := false; uncaught := [] |}.

(** *** Observations on the state *)

Definition live_connections (s : Server) : nat :=
  length (filter live (clients s)).

(** The suspended calls that belong to a start or reconnect attempt. *)
Definition attempt (a : Await) : bool :=
  match a with
  | CloseEnd _ => false
  | _ => true
  end.

(** The attempts in flight and the retries scheduled. *)
Definition outstanding (s : Server) : nat :=
  length (filter attempt (pending s)) + length (timers s).

(** An [error] event that comes while nothing is outstanding, on a client
    with a single listener, starts the only attempt there is; any other
    event is unconstrained.  (An [error] event on a client without a
    listener starts no attempt.) *)
Definition one_at_a_time (s : Server) (ev : Event) : bool :=
  match ev with
  | PgError c =>
      match nth_error (clients s) c with
      | Some cl =>
          match error_listeners cl with
          | 0 => true
          | 1 => (outstanding s =? 0)%nat
          | _ => false
          end
      | None => true
      end
  | _ => true
  end.

Fixpoint attempts_do_not_overlap (s : Server) (evs : list Event) : bool :=
  match evs with
  | [] => true
  | ev :: rest =>
      one_at_a_time s ev &&
      match step s ev with
      | Some s' => attempts_do_not_overlap s' rest
      | None => true
      end
  end.

(** What holds of the server as long as attempts do not overlap: the only
    client that can be live is the current one, at most one attempt or retry
    is outstanding, and it works on the current client. *)
Definition on_client (pg : nat) (a : Await) : Prop :=
  match a with
  | SetupConnect c | ReconnectEnd c => c = pg
  | SetupListen _ _ _ | CloseEnd _ => True
  end.

(** Every timer still to fire was set with a delay of 5000 ms. *)
Definition fixed_delay (s : Server) : Prop :=
  Forall (fun t => delay t = 5000%Z) (timers s).

Definition only_live (pg : nat) (cs : list Client) : Prop :=
  forall i cl, nth_error cs i = Some cl -> i <> pg -> live cl = false.

Definition single_attempt (s : Server) : Prop :=
  pgClient s < length (clients s) /\
  only_live (pgClient s) (clients s) /\
  outstanding s <= 1 /\
  Forall (on_client (pgClient s)) (pending s).

(** The notification listeners of a client, and what calls for a client
    that has none yet: a start in flight, or the retry of one. *)
Definition listeners_of (cs : list Client) (c : nat) : nat :=
  match nth_error cs c with
  | Some cl => notification_listeners cl
  | None => 0
  end.

Definition setting_up (a : Await) : bool :=
  match a with
  | SetupConnect _ | SetupListen _ _ _ => true
  | _ => false
  end.

Definition retries_setup (t : Timer) : bool :=
  match callback t with
  | RetrySetup => true
  | RetryReconnect => false
  end.

(** What holds besides as long as attempts do not overlap: no client has
    more than one notification listener, and a start only ever works on a
    client that has none. *)
Definition single_listener (s : Server) : Prop :=
  (forall i cl, nth_error (clients s) i = Some cl ->
                notification_listeners cl <= 1) /\
  (existsb setting_up (pending s) || existsb retries_setup (timers s) = true ->
   listeners_of (clients s) (pgClient s) = 0).

End Machine.

(** ** A concrete engine for the examples

    Integer-valued numbers, and [JSON.parse] on the payload texts the
    examples below feed to the server. *)

Definition Z_toString (z : Z) : string := NilZero.string_of_int (Z.to_int z).

#[export] Instance ZNumber : JSNumber :=
  {| number := Z;
     number_truthy := fun z => negb (z =? 0)%Z;
     number_toString := Z_toString |}.

Definition quoted (s : string) : string :=
  String (ascii_of_nat 34) s ++ String (ascii_of_nat 34) "".

(** [{"operation":"UPDATE","data":{"conversionId":"c1","id":"s1","status":"done"}}] *)
Definition step_update_text : string :=
  "{" ++ quoted "operation" ++ ":" ++ quoted "UPDATE" ++ "," ++
  quoted "data" ++ ":{" ++ quoted "conversionId" ++ ":" ++ quoted "c1" ++ "," ++
  quoted "id" ++ ":" ++ quoted "s1" ++ "," ++
  quoted "status" ++ ":" ++ quoted "done" ++ "}}".
Definition step_update_data : JSValue :=
  JObject [("conversionId", JString "c1"); ("id", JString "s1");
           ("status", JString "done")].
Definition step_update_value : JSValue :=
  JObject [("operation", JString "UPDATE"); ("data", step_update_data)].

(** [{"operation":"INSERT","data":{"conversionId":""}}] *)
Definition empty_id_text : string :=
  "{" ++ quoted "operation" ++ ":" ++ quoted "INSERT" ++ "," ++
  quoted "data" ++ ":{" ++ quoted "conversionId" ++ ":" ++ quoted "" ++ "}}".
Definition empty_id_value : JSValue :=
  JObject [("operation", JString "INSERT");
           ("data", JObject [("conversionId", JString "")])].

(** [{"operation":"INSERT","data":{"conversionId":0}}] *)
Definition zero_id_text : string :=
  "{" ++ quoted "operation" ++ ":" ++ quoted "INSERT" ++ "," ++
  quoted "data" ++ ":{" ++ quoted "conversionId" ++ ":0}}".
Definition zero_id_value : JSValue :=
  JObject [("operation", JString "INSERT");
           ("data", JObject [("conversionId", JNumber 0%Z)])].

(** [{"data":{}}] *)
Definition no_operation_text : string :=
  "{" ++ quoted "data" ++ ":{}}".
Definition no_operation_value : JSValue :=
  JObject [("data", JObject [])].

(** [JSON.parse] on the sample payloads; the examples give it no other JSON
    text, and every other text they give it is not JSON. *)
Definition sample_JSON_parse (text : string) : option JSValue :=
  if String.eqb text "{}" then Some (JObject [])
  else if String.eqb text "null" then Some JNull
  else if String.eqb text step_update_text then Some step_update_value
  else if String.eqb text empty_id_text then Some empty_id_value
  else if String.eqb text zero_id_text then Some zero_id_value
  else if String.eqb text no_operation_text then Some no_operation_value
  else None.

(** The environment's moves used in the examples. *)
Definition resolved : Completion unit := Normal tt.
Definition rejected : Completion unit := Throw HostError.

(** The connect and the four LISTEN statements of a start all succeed. *)
Definition start_succeeds : list Event :=
  [Settle 0 resolved; Settle 0 resolved; Settle 0 resolved; Settle 0 resolved;
   Settle 0 resolved].

Section Listening.
Context `{NUM : JSNumber}.

(** The server once its first start has succeeded. *)
Definition listening_server : Server :=
  {| clients :=
       [{| connected := true; ended := false;
           listening := ["conversion_message_changes"; "conversion_changes";
                         "conversion_step_changes"; "test_channel"];
           notification_listeners := 1; error_listeners := 1 |}];
     pgClient := 0; pending := []; timers := []; now := 0;
     out := [ConsoleLog "Connected to PostgreSQL for real-time notifications" []];
     httpClosed := false; uncaught := [] |}.

(** The server after a first [connect()] that failed: the retry is
    scheduled. *)
Definition retrying_server : Server :=
  {| clients := [new_Client]; pgClient := 0; pending := [];
     timers := [{| callback := RetrySetup; set_at := 0; delay := 5000 |}];
     now := 0;
     out := [ConsoleError "Failed to setup PostgreSQL notifications:" HostError];
     httpClosed := false; uncaught := [] |}.

End Listening.

(** The client emits [error] twice in a row (a fatal error message, then the
    socket closing), both [end()] calls resolve, and both new clients get to
    connect. *)
Definition two_errors_then_reconnects : list Event :=
  [PgError 0; PgError 0;
   Settle 0 resolved; Settle 0 resolved;    (* end(), twice *)
   Settle 0 resolved; Settle 0 resolved].   (* connect() of clients 1 and 2 *)

(** ... and then all eight LISTEN statements succeed. *)
Definition eight_listens : list Event :=
  [Settle 0 resolved; Settle 0 resolved; Settle 0 resolved; Settle 0 resolved;
   Settle 0 resolved; Settle 0 resolved; Settle 0 resolved; Settle 0 resolved].

(** The client emits [error] twice, both [end()] calls resolve, and the
    database being down both new clients fail to connect. *)
Definition two_errors_then_failures : list Event :=
  [PgError 0; PgError 0;
   Settle 0 resolved; Settle 0 resolved;
   Settle 0 rejected; Settle 0 rejected].

(** One failed attempt of the retry loop: the awaited call rejects, five
    seconds pass, the timer fires. *)
Definition failed_round : list Event :=
  [Settle 0 rejected; Advance 5000; TimerFires 0].

Fixpoint rounds (n : nat) : list Event :=
  match n with
  | O => []
  | S k => (failed_round ++ rounds k)%list
  end.

(** The spec's end-to-end example. *)
Definition step_update_msg : Notification :=
  {| channel := "conversion_step_changes"; payload := Some step_update_text |}.


Definition empty_id_msg : Notification :=
  {| channel := "conversion_message_changes"; payload := Some empty_id_text |}.
Definition zero_id_msg : Notification :=
  {| channel := "conversion_step_changes"; payload := Some zero_id_text |}.
Definition conversion_msg : Notification :=
  {| channel := "conversion_changes"; payload := Some step_update_text |}.
Definition no_operation_msg : Notification :=
  {| channel := "conversion_changes"; payload := Some no_operation_text |}.
Definition custom_update_msg : Notification :=
  {| channel := "custom_channel"; payload := Some step_update_text |}.
Definition custom_no_operation_msg : Notification :=
  {| channel := "custom_channel"; payload := Some no_operation_text |}.
Definition test_msg : Notification :=
  {| channel := "test_channel"; payload := Some step_update_text |}.

(** The very first [connect()] fails, the process asks for shutdown and the
    [end()] of [close] resolves. *)
Definition failed_start_then_close : list Event :=
  [Settle 0 rejected; CloseCalled; Settle 0 resolved].

(** An [error] event, then a shutdown request while the reconnect attempt is
    suspended at its [end()]; the [end()] of [close] resolves, then that of
    the attempt, then the [connect()] of the new client. *)
Definition close_during_reconnect : list Event :=
  [PgError 0; CloseCalled; Settle 1 resolved; Settle 0 resolved;
   Settle 0 resolved].

(** A single [error] event, after which the reconnect runs to its first
    LISTEN. *)
Definition one_error_then_reconnect : list Event :=
  [PgError 0; Settle 0 resolved; Settle 0 resolved].

(** ** Further observations on the bridge *)

Section Emissions.
Context `{NUM : JSNumber}.

(** A change event sent to a room, and the broadcast of the test channel. *)
Definition room_change (e : Effect) : Prop :=
  exists r props, e = Emit (Room r) "postgres_changes" (JObject props) /\
                  own_property "schema" props = Some (JString "public").
Definition test_broadcast (ch : string) (e : Effect) : Prop :=
  exists body, e = Emit Everyone "test_notification" body /\ ch = "test_channel".

End Emissions.

(** The channels of the four LISTEN statements, in their order. *)
Definition listen_channels : list string :=
  ["conversion_message_changes"; "conversion_changes";
   "conversion_step_changes"; "test_channel"].

Definition listening_of (cs : list Client) (c : nat) : list string :=
  match nth_error cs c with
  | Some cl => listening cl
  | None => []
  end.

(** A start that is suspended at a LISTEN runs on the current client and
    has the statements before it behind it. *)
Definition listens_in_order (cs : list Client) (pg : nat) (a : Await) : Prop :=
  match a with
  | SetupListen c ch rest =>
      c = pg /\
      exists done, listen_channels = (done ++ ch :: rest)%list /\
                   incl done (listening_of cs pg)
  | _ => True
  end.

Section Registration.
Context `{NUM : JSNumber}.
Variable JSON_parse : string -> option JSValue.

(** Along the run, every [error] event is emitted by a client that has a
    listener for it. *)
Fixpoint errors_are_heard (s : Server) (evs : list Event) : bool :=
  match evs with
  | [] => true
  | ev :: rest =>
      match ev with
      | PgError c =>
          match nth_error (clients s) c with
          | Some cl => negb (error_listeners cl =? 0)%nat
          | None => true
          end
      | _ => true
      end &&
      match step JSON_parse s ev with
      | Some s' => errors_are_heard s' rest
      | None => true
      end
  end.

(** A client with a notification listener has the four channels
    registered. *)
Definition fully_registered (s : Server) : Prop :=
  (forall i cl, nth_error (clients s) i = Some cl ->
                1 <= notification_listeners cl ->
                incl listen_channels (listening cl)) /\
  Forall (listens_in_order (clients s) (pgClient s)) (pending s).

End Registration.

(** ** The Socket.IO side

    [setupSocketHandlers] keeps [this.connectedClients], a Map from socket id
    to the client's data, and lets clients join and leave rooms; the three
    read-only methods [getStats], [getMetrics] and [getChannels] report on
    it.  A JavaScript Map or Set iterates in insertion order: it is a list
    here, without repeated keys or elements. *)

(** [Set.prototype.has], [add] and [delete] *)
Definition Set_has (x : string) (s : list string) : bool :=
  existsb (String.eqb x) s.
Definition Set_add (x : string) (s : list string) : list string :=
  if Set_has x s then s else (s ++ [x])%list.
Definition Set_delete (x : string) (s : list string) : list string :=
  filter (fun y => negb (String.eqb y x)) s.

(** [Map.prototype.get], [set] and [delete]: [set] keeps the place of a key
    that is there and puts a new key last. *)
Fixpoint Map_get {V : Type} (k : string) (m : list (string * V)) : option V :=
  match m with
  | [] => None
  | (k', v) :: rest => if String.eqb k' k then Some v else Map_get k rest
  end.
Fixpoint Map_set {V : Type} (k : string) (v : V) (m : list (string * V))
  : list (string * V) :=
  match m with
  | [] => [(k, v)]
  | (k', v') :: rest =>
      if String.eqb k' k then (k, v) :: rest else (k', v') :: Map_set k v rest
  end.
Definition Map_delete {V : Type} (k : string) (m : list (string * V))
  : list (string * V) :=
  filter (fun kv => negb (String.eqb (fst kv) k)) m.

(** The value stored for a client; the socket itself is the key. *)
Record ClientData : Type := {
  connectedAt : string;
  subscriptions : list string   (* new Set<string>() *)
}.

(** Socket.IO's in-memory adapter, [io.sockets.adapter.rooms]: a Map from
    room to the Set of the ids of the sockets in it.  Joining creates the
    room when it is not there; leaving deletes it when it becomes empty. *)
Definition members (room : string) (rms : list (string * list string))
  : list string :=
  match Map_get room rms with
  | Some ids => ids
  | None => []
  end.
Definition adapter_join (id room : string) (rms : list (string * list string))
  : list (string * list string) :=
  Map_set room (Set_add id (members room rms)) rms.
Definition adapter_leave (id room : string) (rms : list (string * list string))
  : list (string * list string) :=
  match Map_get room rms with
  | Some ids =>
      match Set_delete id ids with
      | [] => Map_delete room rms
      | remaining => Map_set room remaining rms
      end
  | None => rms
  end.
(** A socket that disconnects leaves every room it is in. *)
Definition adapter_leave_all (id : string) (rms : list (string * list string))
  : list (string * list string) :=
  fold_left (fun r room => adapter_leave id room r)
            (map fst (filter (fun kv => Set_has id (snd kv)) rms)) rms.

Section Hub.
Context `{NUM : JSNumber}.

(** What the socket handlers send and print: [socket.emit(event, body)] to
    the one socket, and [console.log]. *)
Inductive HubEffect : Type :=
| SocketEmit (id event : string) (body : JSValue)
| HubLog (text : string) (args : list JSValue).

Record Hub : Type := {
  connectedClients : list (string * ClientData);  (* this.connectedClients *)
  rooms : list (string * list string);            (* io.sockets.adapter.rooms *)
  sockets : list string;     (* the sockets of the namespace, now connected *)
  wire : list HubEffect
}.

Definition empty_hub : Hub :=
  {| connectedClients := []; rooms := []; sockets := []; wire := [] |}.

(** [channels] as handed to [console.log] and sent back. *)
Definition channel_array (channels : list string) : JSValue :=
  JArray (map JString channels).

(** [clientData.subscriptions.add(channel)] and [.delete(channel)], on the
    object the Map holds for [id]. *)
Definition update_subscriptions (id : string) (f : list string -> list string)
    (cc : list (string * ClientData)) : list (string * ClientData) :=
  match Map_get id cc with
  | Some cd =>
      Map_set id {| connectedAt := connectedAt cd;
                    subscriptions := f (subscriptions cd) |} cc
  | None => cc
  end.

(** [channels.forEach((channel) => { socket.join(channel); if (clientData)
    clientData.subscriptions.add(channel); })], [clientData] having been
    read before the loop. *)
Fixpoint subscribe_each (id : string) (clientData : bool)
    (channels : list string) (h : Hub) : Hub :=
  match channels with
  | [] => h
  | channel :: rest =>
      subscribe_each id clientData rest
        {| connectedClients :=
             if clientData
             then update_subscriptions id (Set_add channel) (connectedClients h)
             else connectedClients h;
           rooms := adapter_join id channel (rooms h);
           sockets := sockets h;
           wire := wire h |}
  end.

(** The same loop with [socket.leave] and [subscriptions.delete]. *)
Fixpoint unsubscribe_each (id : string) (clientData : bool)
    (channels : list string) (h : Hub) : Hub :=
  match channels with
  | [] => h
  | channel :: rest =>
      unsubscribe_each id clientData rest
        {| connectedClients :=
             if clientData
             then update_subscriptions id (Set_delete channel) (connectedClients h)
             else connectedClients h;
           rooms := adapter_leave id channel (rooms h);
           sockets := sockets h;
           wire := wire h |}
  end.

Definition has_clientData (id : string) (h : Hub) : bool :=
  match Map_get id (connectedClients h) with
  | Some _ => true
  | None => false
  end.

(** The subscriptions the server has on record for a socket. *)
Definition subs (id : string) (cc : list (string * ClientData)) : list string :=
  match Map_get id cc with
  | Some cd => subscriptions cd
  | None => []
  end.
Definition subscribed (id : string) (h : Hub) : list string :=
  subs id (connectedClients h).

Definition send (e : list HubEffect) (h : Hub) : Hub :=
  {| connectedClients := connectedClients h; rooms := rooms h;
     sockets := sockets h; wire := (wire h ++ e)%list |}.

(** [this.io.on("connection", (socket) => ...)].  Socket.IO has put the new
    socket into the room of its own id before the listener runs. *)
Definition on_connection (id connectedAt timestamp : string) (h : Hub) : Hub :=
  send [HubLog ("Client connected: " ++ id) [];
        SocketEmit id "connected"
          (JObject [("id", JString id);
                    ("timestamp", JString timestamp);
                    ("server", JString "realtime-server-v1.0.0")])]
    {| connectedClients :=
         (* Store client connection with metadata *)
         Map_set id {| connectedAt := connectedAt; subscriptions := [] |}
                 (connectedClients h);
       rooms := adapter_join id id (rooms h);
       sockets := (sockets h ++ [id])%list;
       wire := wire h |}.

(** [socket.on("subscribe", (channels: string[]) => ...)] *)
Definition on_subscribe (id : string) (channels : list string)
    (timestamp : string) (h : Hub) : Hub :=
  send [SocketEmit id "subscription_success"
          (JObject [("channels", channel_array channels);
                    ("timestamp", JString timestamp)])]
    (subscribe_each id (has_clientData id h) channels
       (send [HubLog ("Client " ++ id ++ " subscribing to:")
                     [channel_array channels]] h)).

(** [socket.on("unsubscribe", (channels: string[]) => ...)] *)
Definition on_unsubscribe (id : string) (channels : list string)
    (timestamp : string) (h : Hub) : Hub :=
  send [SocketEmit id "unsubscription_success"
          (JObject [("channels", channel_array channels);
                    ("timestamp", JString timestamp)])]
    (unsubscribe_each id (has_clientData id h) channels
       (send [HubLog ("Client " ++ id ++ " unsubscribing from:")
                     [channel_array channels]] h)).

(** [socket.on("ping", ...)] *)
Definition on_ping (id timestamp : string) (h : Hub) : Hub :=
  send [SocketEmit id "pong" (JObject [("timestamp", JString timestamp)])] h.

(** [socket.on("disconnect", (reason) => ...)].  Socket.IO has taken the
    socket out of all its rooms before the listener runs. *)
Definition on_disconnect (id reason : string) (h : Hub) : Hub :=
  send [HubLog ("Client disconnected: " ++ id ++ ", reason: " ++ reason) []]
    {| connectedClients := Map_delete id (connectedClients h);
       rooms := adapter_leave_all id (rooms h);
       sockets := Set_delete id (sockets h);
       wire := wire h |}.

(** What the clients do.  A socket gets an id no connected socket has, and
    only a connected socket sends events.  The argument of [subscribe] and
    [unsubscribe] is an array of strings, as the signature of the listener
    has it. *)
Inductive HubEvent : Type :=
| Connects (id connectedAt timestamp : string)
| Subscribes (id : string) (channels : list string) (timestamp : string)
| Unsubscribes (id : string) (channels : list string) (timestamp : string)
| Pings (id timestamp : string)
| Disconnects (id reason : string).

Definition hub_step (h : Hub) (ev : HubEvent) : option Hub :=
  match ev with
  | Connects id connectedAt timestamp =>
      if Set_has id (sockets h) then None
      else Some (on_connection id connectedAt timestamp h)
  | Subscribes id channels timestamp =>
      if Set_has id (sockets h) then Some (on_subscribe id channels timestamp h)
      else None
  | Unsubscribes id channels timestamp =>
      if Set_has id (sockets h) then Some (on_unsubscribe id channels timestamp h)
      else None
  | Pings id timestamp =>
      if Set_has id (sockets h) then Some (on_ping id timestamp h) else None
  | Disconnects id reason =>
      if Set_has id (sockets h) then Some (on_disconnect id reason h) else None
  end.

Fixpoint hub_run (h : Hub) (evs : list HubEvent) : option Hub :=
  match evs with
  | [] => Some h
  | ev :: rest =>
      match hub_step h ev with
      | Some h' => hub_run h' rest
      | None => None
      end
  end.

(** Whom a broadcast of the bridge reaches: [io.emit] every connected
    socket, [io.to(room).emit] the sockets in the room. *)
Definition recipients (h : Hub) (to : Target) : list string :=
  match to with
  | Everyone => sockets h
  | Room r => members r (rooms h)
  end.

Definition delivered_to (h : Hub) (id : string) (t : list Effect) : bool :=
  existsb (fun to => Set_has id (recipients h to)) (targets t).

(** *** getStats, getMetrics, getChannels

    [uptime], [timestamp], [memoryUsage] and [nodeVersion] are readings of
    the process the methods take when called.  [clientsPerRoom] and
    [channels] are the entries handed to [Object.fromEntries], in the order
    they are handed over. *)
Record Readings : Type := {
  process_uptime : number;         (* process.uptime() *)
  date_now : string;               (* new Date().toISOString() *)
  process_memoryUsage : JSValue;   (* process.memoryUsage() *)
  process_version : string         (* process.version *)
}.

Record Stats : Type := {
  stats_connectedClients : nat;
  stats_rooms : list string;
  stats_uptime : number;
  stats_timestamp : string
}.

Definition getStats (h : Hub) (r : Readings) : Stats :=
  {| stats_connectedClients := length (connectedClients h);
     stats_rooms := map fst (rooms h);
     stats_uptime := process_uptime r;
     stats_timestamp := date_now r |}.

Record Metrics : Type := {
  totalClients : nat;
  totalRooms : nat;
  clientsPerRoom : list (string * nat);
  metrics_uptime : number;
  metrics_memoryUsage : JSValue;
  metrics_nodeVersion : string;
  metrics_timestamp : string
}.

Definition getMetrics (h : Hub) (r : Readings) : Metrics :=
  {| totalClients := length (connectedClients h);
     totalRooms := length (rooms h);
     clientsPerRoom := map (fun kv => (fst kv, length (snd kv))) (rooms h);
     metrics_uptime := process_uptime r;
     metrics_memoryUsage := process_memoryUsage r;
     metrics_nodeVersion := process_version r;
     metrics_timestamp := date_now r |}.

Record ChannelInfo : Type := {
  channel_name : string;          (* name *)
  clientCount : nat;
  channel_clients : list string   (* clients: Array.from(sockets) *)
}.

Record Channels : Type := {
  totalChannels : nat;
  listed_channels : list (string * ChannelInfo);   (* channels *)
  channels_timestamp : string
}.

(** The rooms [getChannels] keeps: those whose name is not one of their own
    members ("Skip individual socket rooms"). *)
Definition listed (rms : list (string * list string)) : list (string * ChannelInfo) :=
  map (fun kv => (fst kv, {| channel_name := fst kv;
                             clientCount := length (snd kv);
                             channel_clients := snd kv |}))
      (filter (fun kv => negb (Set_has (fst kv) (snd kv))) rms).

Definition getChannels (h : Hub) (r : Readings) : Channels :=
  {| totalChannels := length (listed (rooms h));
     listed_channels := listed (rooms h);
     channels_timestamp := date_now r |}.

(** What the socket handlers and the adapter keep true. *)
Definition rooms_ok (rms : list (string * list string)) : Prop :=
  NoDup (map fst rms) /\
  forall r ids, In (r, ids) rms -> ids <> [] /\ NoDup ids.

Definition hub_ok (h : Hub) : Prop :=
  NoDup (sockets h) /\
  map fst (connectedClients h) = sockets h /\
  rooms_ok (rooms h) /\
  (forall r x, In x (members r (rooms h)) -> In x (sockets h)) /\
  (forall id r, In id (sockets h) -> r <> id ->
     (In id (members r (rooms h)) <-> In r (subscribed id h))).

End Hub.

(** ** The HTTP endpoints

    [requestListener] is the callback given to [createServer]: its answer to
    a request it is called with, given the hub and the readings of the
    process at that moment.  The body is the object handed to
    [JSON.stringify].  The callback does not see every request of the HTTP
    server: Socket.IO, attached to the same server, answers those under its
    own path, see [httpServer_request] below. *)

Record Request : Type := {
  method : string;   (* req.method *)
  url : string       (* req.url *)
}.

Section Http.
Context `{NUM : JSNumber}.

Record Health : Type := {
  health_status : string;
  health_timestamp : string;
  health_connectedClients : nat;
  health_uptime : number;
  health_version : string;
  health_service : string
}.

Record Info : Type := {
  info_name : string;
  info_version : string;
  info_description : string;
  info_endpoints : list (string * string);
  websocket_transports : list string;
  websocket_cors : string
}.

Inductive Body : Type :=
| NoBody                                   (* res.end() *)
| HealthBody (b : Health)
| StatsBody (b : Stats)
| MetricsBody (b : Metrics)
| ChannelsBody (b : Channels)
| InfoBody (b : Info)
| NotFoundBody (error path : string).      (* { error, path } *)

Record Response : Type := {
  statusCode : nat;
  headers : list (string * string);
  res_body : Body
}.

(** Set CORS headers for all requests *)
Definition cors_headers : list (string * string) :=
  Map_set "Access-Control-Allow-Headers" "Content-Type"
    (Map_set "Access-Control-Allow-Methods" "GET, POST, OPTIONS"
       (Map_set "Access-Control-Allow-Origin" "*" [])).

(** [res.writeHead(status, { "Content-Type": "application/json" });
     res.end(JSON.stringify(b))] *)
Definition respond_json (status : nat) (b : Body) : Response :=
  {| statusCode := status;
     headers := Map_set "Content-Type" "application/json" cors_headers;
     res_body := b |}.

Definition requestListener (h : Hub) (rd : Readings) (req : Request) : Response :=
  if String.eqb (method req) "OPTIONS" then
    {| statusCode := 200; headers := cors_headers; res_body := NoBody |}
  else if String.eqb (url req) "/health" then
    respond_json 200
      (HealthBody {| health_status := "healthy";
                     health_timestamp := date_now rd;
                     health_connectedClients := length (connectedClients h);
                     health_uptime := process_uptime rd;
                     health_version := "1.0.0";
                     health_service := "realtime-server" |})
  else if String.eqb (url req) "/stats" then
    respond_json 200 (StatsBody (getStats h rd))
  else if String.eqb (url req) "/metrics" then
    respond_json 200 (MetricsBody (getMetrics h rd))
  else if String.eqb (url req) "/channels" then
    respond_json 200 (ChannelsBody (getChannels h rd))
  else if String.eqb (url req) "/" || String.eqb (url req) "/info" then
    respond_json 200
      (InfoBody {| info_name := "Realtime Server";
                   info_version := "1.0.0";
                   info_description :=
                     "Standalone WebSocket server for real-time communication";
                   info_endpoints := [("health", "/health"); ("stats", "/stats");
                                      ("metrics", "/metrics");
                                      ("channels", "/channels")];
                   websocket_transports := ["websocket"; "polling"];
                   websocket_cors := "enabled" |})
  else
    respond_json 404 (NotFoundBody "Not Found" (url req)).

(** The URLs that have a branch of their own. *)
Definition served_urls : list string :=
  ["/health"; "/stats"; "/metrics"; "/channels"; "/"; "/info"].

(** [new SocketIOServer(this.httpServer, { ... })], with no [path] option:
    Socket.IO takes the [request] listeners off the HTTP server and puts its
    own in their place, which answers itself every request whose URL starts
    with "/socket.io/" (the handshake and the polling transport, the client
    bundle) and hands the others on to the callback. *)
Definition socket_io_path : string := "/socket.io/".

Definition intercepted (req : Request) : bool :=
  String.prefix socket_io_path (url req).

(** What the HTTP server answers to a request; [None] when the answer is
    Socket.IO's, which is not modelled. *)
Definition httpServer_request (h : Hub) (rd : Readings) (req : Request)
    : option Response :=
  if intercepted req then None else Some (requestListener h rd req).

End Http.

(** ** The process (server.ts)

    [startRealtimeServer] constructs the server, starts it and installs the
    handlers of the process: SIGINT and SIGTERM, [uncaughtException] and
    [unhandledRejection], all of which run [gracefulShutdown], and the
    [error] listener that [start] puts on the HTTP server.  When the start
    throws, its catch ends the process, and so would the [catch] on its
    promise.  The banner lines that [startRealtimeServer] and the [listen]
    callback log are left out. *)

Inductive Signal : Type := SIGINT | SIGTERM.

Definition signal_name (sig : Signal) : string :=
  match sig with
  | SIGINT => "SIGINT"
  | SIGTERM => "SIGTERM"
  end.

Section Process.
Context `{NUM : JSNumber}.
Variable JSON_parse : string -> option JSValue.

Record Process : Type := {
  server : Server;
  exit_code : option Z      (* [Some c] once [process.exit(c)] was called *)
}.

Definition running (s : Server) : Process :=
  {| server := s; exit_code := None |}.

(** [gracefulShutdown], up to [await server.close()]: [close] runs up to its
    own await. *)
Definition gracefulShutdown (signal : string) : SM unit :=
  sm_bind
    (lift (console_log ("Received " ++ signal ++ ", shutting down gracefully...") []))
    (fun _ => close).

(** [gracefulShutdown], after the promise of [server.close()] has settled
    with [closed]. *)
Definition gracefulShutdown_after_close (closed : Completion unit) (s : Server)
    : Process :=
  match closed with
  | Normal _ =>
      {| server := turn (lift (console_log "Graceful shutdown complete" [])) s;
         exit_code := Some 0%Z |}
  | Throw error =>
      {| server := turn (lift (console_error "Error during shutdown:" error)) s;
         exit_code := Some 1%Z |}
  end.

(** [process.on("uncaughtException", (error) => { ...;
     gracefulShutdown("uncaughtException"); })].  The handler of
    [unhandledRejection] differs in its two texts only; the exceptions the
    event loop records are all thrown by an event emitter. *)
Definition on_uncaughtException (error : Exn) : SM unit :=
  sm_bind (lift (console_error "Uncaught Exception:" error))
          (fun _ => detached (gracefulShutdown "uncaughtException")).

(** The exceptions a turn of the event loop has added are handed to the
    handler of the process. *)
Definition handled (before after : Server) : Process :=
  running
    (fold_left (fun s error => turn (on_uncaughtException error) s)
               (skipn (length (uncaught before)) (uncaught after)) after).

(** [this.httpServer.on("error", (error) => { ... process.exit(1) })].
    The first branch prints its text only, and the text is without the port
    number here. *)
Definition on_httpServer_error (code : string) (s : Server) : Process :=
  {| server :=
       turn (lift (console_error (if String.eqb code "EADDRINUSE"
                                  then "Port is already in use"
                                  else "Server error:") HostError)) s;
     exit_code := Some 1%Z |}.

Inductive ProcessEvent : Type :=
| Received (sig : Signal)              (* the process receives SIGINT or SIGTERM *)
| HttpServerError (code : string)      (* the HTTP server emits [error] *)
| Loop (ev : Event).                   (* an event of the server's event loop *)

(** [None]: the event cannot happen.  Nothing happens after [process.exit];
    [close] is called by [gracefulShutdown] only; the promise of a [close]
    settles when its [end()] has settled and the rest of [close] has run,
    and [gracefulShutdown] goes on from there. *)
Definition process_step (p : Process) (ev : ProcessEvent) : option Process :=
  match exit_code p with
  | Some _ => None
  | None =>
      match ev with
      | Received sig =>
          Some (running (turn (detached (gracefulShutdown (signal_name sig)))
                              (server p)))
      | HttpServerError code => Some (on_httpServer_error code (server p))
      | Loop CloseCalled => None
      | Loop (Settle i result) =>
          match nth_error (pending (server p)) i with
          | Some (CloseEnd c) =>
              let (s, closed) :=
                sm_bind (settled (CloseEnd c) result)
                        (fun _ => close_after_end result)
                        (set_pending (remove_nth i (pending (server p))) (server p)) in
              Some (gracefulShutdown_after_close closed s)
          | _ => option_map (handled (server p))
                            (step JSON_parse (server p) (Settle i result))
          end
      | Loop ev => option_map (handled (server p)) (step JSON_parse (server p) ev)
      end
  end.

Fixpoint process_run (p : Process) (evs : list ProcessEvent) : option Process :=
  match evs with
  | [] => Some p
  | ev :: rest =>
      match process_step p ev with
      | Some p' => process_run p' rest
      | None => None
      end
  end.

(** [start(port)]: [this.httpServer.listen(port, host, ...)] and then
    [this.httpServer.on("error", ...)].  What the call of [listen] does is
    the environment's move: it returns, or it throws, as it does for a
    [port] that is not a valid port number. *)
Definition start (listen : Completion unit) : SM unit :=
  match listen with
  | Normal _ => sm_ret tt
  | Throw e => sm_throw e
  end.

(** [startRealtimeServer]: [getRealtimeServer()] constructs the server,
    [server.start(port)] starts it, and the handlers of the process are
    installed, all in one turn; an exception on the way is caught, logged
    and followed by [process.exit(1)].  The second component is how the
    promise of the async function settles. *)
Definition startRealtimeServer (listen : Completion unit)
    : Process * Completion unit :=
  match start listen constructed with
  | (s, Normal _) => (running s, Normal tt)
  | (s, Throw error) =>
      ({| server :=
            turn (lift (console_error "Failed to start realtime server:" error)) s;
          exit_code := Some 1%Z |},
       Normal tt)
  end.

(** [startRealtimeServer().catch((error) => { ...; process.exit(1); })] *)
Definition main (listen : Completion unit) : Process :=
  match startRealtimeServer listen with
  | (p, Normal _) => p
  | (p, Throw error) =>
      {| server := turn (lift (console_error "Fatal error:" error)) (server p);
         exit_code := Some 1%Z |}
  end.

(** The process once [startRealtimeServer] has returned, the server
    started. *)
Definition started : Process := main (Normal tt).

End Process.

(** ** Examples for the Socket.IO side, the endpoints and the process *)

(** Two sockets connect; [a] subscribes to two rooms and leaves one of them
    again, [b] subscribes to one. *)
Definition sample_session : list HubEvent :=
  [Connects "a" "t0" "t0"; Connects "b" "t1" "t1";
   Subscribes "a" ["conversions"; "conversion-c1"] "t2";
   Subscribes "b" ["conversion-steps"] "t3";
   Pings "a" "t4";
   Unsubscribes "a" ["conversion-c1"] "t5"].

Definition sample_hub : Hub :=
  {| connectedClients :=
       [("a", {| connectedAt := "t0"; subscriptions := ["conversions"] |});
        ("b", {| connectedAt := "t1"; subscriptions := ["conversion-steps"] |})];
     rooms := [("a", ["a"]); ("b", ["b"]); ("conversions", ["a"]);
               ("conversion-steps", ["b"])];
     sockets := ["a"; "b"];
     wire :=
       [HubLog "Client connected: a" [];
        SocketEmit "a" "connected"
          (JObject [("id", JString "a"); ("timestamp", JString "t0");
                    ("server", JString "realtime-server-v1.0.0")]);
        HubLog "Client connected: b" [];
        SocketEmit "b" "connected"
          (JObject [("id", JString "b"); ("timestamp", JString "t1");
                    ("server", JString "realtime-server-v1.0.0")]);
        HubLog "Client a subscribing to:"
          [JArray [JString "conversions"; JString "conversion-c1"]];
        SocketEmit "a" "subscription_success"
          (JObject [("channels",
                     JArray [JString "conversions"; JString "conversion-c1"]);
                    ("timestamp", JString "t2")]);
        HubLog "Client b subscribing to:" [JArray [JString "conversion-steps"]];
        SocketEmit "b" "subscription_success"
          (JObject [("channels", JArray [JString "conversion-steps"]);
                    ("timestamp", JString "t3")]);
        SocketEmit "a" "pong" (JObject [("timestamp", JString "t4")]);
        HubLog "Client a unsubscribing from:" [JArray [JString "conversion-c1"]];
        SocketEmit "a" "unsubscription_success"
          (JObject [("channels", JArray [JString "conversion-c1"]);
                    ("timestamp", JString "t5")])] |}.

Definition sample_readings : Readings :=
  {| process_uptime := 12%Z; date_now := "t9";
     process_memoryUsage := JObject []; process_version := "v20.0.0" |}.

(** A request with a query string. *)
Definition health_with_query : Request :=
  {| method := "GET"; url := "/health?verbose=1" |}.
(** A CORS preflight for one of the endpoints, and a request of the polling
    transport, which is Socket.IO's to answer. *)
Definition preflight : Request :=
  {| method := "OPTIONS"; url := "/channels" |}.
Definition polling : Request :=
  {| method := "GET"; url := "/socket.io/?EIO=4&transport=polling" |}.

(** SIGTERM arrives while the first [connect()] is still pending, and the
    [end()] of the shutdown rejects. *)
Definition sigterm_then_failed_end : list ProcessEvent :=
  [Received SIGTERM; Loop (Settle 1 rejected)].


(** * Properties *)

(** ** The notification handlers *)

Section HandlerProperties.
Context `{NUM : JSNumber}.
Variable JSON_parse : string -> option JSValue.

Lemma get_property_field (v : JSValue) (key : string) :
  get_property v key = if nullish v then throw TypeError else ret (field v key).
Proof.
  destruct v; simpl; try reflexivity.
  destruct (own_property key props); reflexivity.
Qed.

Lemma bind_ret {A B : Type} (a : A) (f : A -> Eff B) : bind (ret a) f = f a.
Proof. unfold bind, ret. destruct (f a). reflexivity. Qed.

Lemma targets_app (t1 t2 : list Effect) :
  targets (t1 ++ t2) = (targets t1 ++ targets t2)%list.
Proof.
  induction t1 as [|e t1 IH]; simpl; [reflexivity|].
  destruct e; simpl; rewrite IH; reflexivity.
Qed.

Lemma emissions_app (t1 t2 : list Effect) :
  emissions (t1 ++ t2) = (emissions t1 ++ emissions t2)%list.
Proof. unfold emissions. apply filter_app. Qed.

(** Destructuring an undefined or null payload throws before anything is
    emitted. *)
Lemma handlePgNotification_nullish (ch : string) (p : JSValue) :
  nullish p = true -> handlePgNotification ch p = throw TypeError.
Proof.
  intros Hp. unfold handlePgNotification.
  rewrite get_property_field, Hp. reflexivity.
Qed.

(** Otherwise the three reads succeed and the channel picks the case. *)
Lemma handlePgNotification_fields (ch : string) (p : JSValue) :
  nullish p = false ->
  handlePgNotification ch p =
  let operation := field p "operation" in
  let table := field p "table" in
  let data := field p "data" in
  if String.eqb ch "conversion_message_changes" then
    handleConversionMessageChange operation data
  else if String.eqb ch "conversion_changes" then
    handleConversionChange operation data
  else if String.eqb ch "conversion_step_changes" then
    handleConversionStepChange operation data
  else if String.eqb ch "test_channel" then
    io_emit "test_notification" (JObject [("message", p)])
  else
    console_log ("Unknown notification channel: " ++ ch) [] ;;
    io_to_emit ch "postgres_changes"
      (JObject [("event", js_or operation (JString "UNKNOWN"));
                ("schema", JString "public");
                ("table", js_or table (JString "unknown"));
                ("new", data);
                ("old", JNull);
                ("channel", JString ch)]).
Proof.
  intros Hp. unfold handlePgNotification.
  rewrite !get_property_field, Hp. rewrite !bind_ret. reflexivity.
Qed.

(** The listener catches whatever the decoding or the handlers throw. *)
Lemma on_notification_normal (msg : Notification) :
  snd (on_notification JSON_parse msg) = Normal tt.
Proof.
  unfold on_notification, try_catch.
  match goal with |- snd (match ?m with _ => _ end) = _ => destruct m as [t [[]|e]] end;
    reflexivity.
Qed.

Lemma on_notification_unparsable (msg : Notification) :
  JSON_parse (payload_text msg) = None ->
  on_notification JSON_parse msg =
  ([ConsoleError "Error processing notification:" SyntaxError], Normal tt).
Proof.
  intros H. unfold on_notification, JSON_parse_or_throw. rewrite H. reflexivity.
Qed.

Lemma on_notification_nullish (msg : Notification) (p : JSValue) :
  JSON_parse (payload_text msg) = Some p -> nullish p = true ->
  on_notification JSON_parse msg =
  ([ConsoleLog ("Received notification on channel " ++ channel msg ++ ":") [p];
    ConsoleError "Error processing notification:" TypeError], Normal tt).
Proof.
  intros H Hp. unfold on_notification, JSON_parse_or_throw. rewrite H.
  cbv beta iota zeta. rewrite bind_ret.
  rewrite (handlePgNotification_nullish _ _ Hp). reflexivity.
Qed.

(** The console output aside, a decoded notification does what
    [handlePgNotification] does. *)
Lemma on_notification_emissions (msg : Notification) (p : JSValue) :
  JSON_parse (payload_text msg) = Some p ->
  emissions (fst (on_notification JSON_parse msg)) =
  emissions (fst (handlePgNotification (channel msg) p)).
Proof.
  intros H. unfold on_notification, JSON_parse_or_throw. rewrite H.
  cbv beta iota zeta. rewrite bind_ret.
  destruct (handlePgNotification (channel msg) p) as [t [[]|e]]; simpl.
  - reflexivity.
  - rewrite emissions_app. simpl. rewrite app_nil_r. reflexivity.
Qed.

Lemma on_notification_targets (msg : Notification) (p : JSValue) :
  JSON_parse (payload_text msg) = Some p ->
  targets (fst (on_notification JSON_parse msg)) =
  targets (fst (handlePgNotification (channel msg) p)).
Proof.
  intros H. unfold on_notification, JSON_parse_or_throw. rewrite H.
  cbv beta iota zeta. rewrite bind_ret.
  destruct (handlePgNotification (channel msg) p) as [t [[]|e]]; simpl.
  - reflexivity.
  - rewrite targets_app. simpl. rewrite app_nil_r. reflexivity.
Qed.

Lemma field_nullish (v : JSValue) (key : string) :
  nullish v = true -> field v key = JUndefined.
Proof. destruct v; simpl; intros H; try reflexivity; discriminate. Qed.

End HandlerProperties.

(** The ways through the second half of a handler with a scoped fanout:
    [data] is undefined or null and the read throws, or [conversionId] is
    truthy and renders, is truthy and does not render, or is falsy. *)
Ltac handler_cases data :=
  unfold io_to_emit, io_emit, console_log, perform, conversion_room;
  rewrite ?get_property_field;
  destruct (nullish data) eqn:Hnullish;
  [ rewrite ?(field_nullish _ _ Hnullish)
  | rewrite ?bind_ret; unfold bind, ret, throw;
    destruct (truthy (field data "conversionId"));
    [ destruct (ToString (field data "conversionId")) | ] ];
  cbn.

(** ** The connection life cycle *)

Section MachineProperties.
Context `{NUM : JSNumber}.
Variable JSON_parse : string -> option JSValue.

(** A listener that returns normally, called [n] times, leaves [n] copies of
    its output and nothing else. *)
Lemma each_listener_lift (n : nat) (m : Eff unit) (s : Server) :
  snd m = Normal tt ->
  each_listener n (lift m) s =
  (set_out (out s ++ concat (repeat (fst m) n)) s, Normal tt).
Proof.
  intros Hm. revert s. induction n as [|n IH]; intros s; simpl.
  - unfold sm_ret. rewrite app_nil_r. destruct s; reflexivity.
  - unfold sm_bind, lift at 1. rewrite Hm. rewrite IH.
    unfold set_out; simpl. rewrite <- app_assoc. reflexivity.
Qed.

Lemma step_PgNotification (s : Server) (c : nat) (cl : Client) (msg : Notification) :
  nth_error (clients s) c = Some cl ->
  step JSON_parse s (PgNotification c msg) =
  Some (set_out (out s ++ concat (repeat (fst (on_notification JSON_parse msg))
                                         (notification_listeners cl))) s).
Proof.
  intros Hc. unfold step. rewrite Hc. unfold turn.
  rewrite each_listener_lift by apply on_notification_normal. reflexivity.
Qed.


(** *** Lists *)

Lemma update_nth_length {A} (i : nat) (f : A -> A) (l : list A) :
  length (update_nth i f l) = length l.
Proof.
  revert i. induction l as [|x l IH]; intros [|i]; simpl; auto.
Qed.

Lemma nth_error_update_nth {A} (c : nat) (f : A -> A) (l : list A) (i : nat) (y : A) :
  nth_error (update_nth c f l) i = Some y ->
  exists x, nth_error l i = Some x /\ ((i <> c /\ y = x) \/ (i = c /\ y = f x)).
Proof.
  revert c i. induction l as [|x l IH]; intros [|c] [|i]; simpl; intros H;
    try discriminate.
  - inversion H; subst. exists x. split; [reflexivity|]. right. split; reflexivity.
  - exists y. split; [assumption|]. left. split; [discriminate | reflexivity].
  - inversion H; subst. exists y. split; [reflexivity|]. left.
    split; [discriminate | reflexivity].
  - destruct (IH _ _ H) as [x' [Hx [[Hne ->]|[-> ->]]]]; exists x';
      (split; [assumption|]); [left | right]; (split; [congruence | reflexivity]).
Qed.

Lemma nth_error_snoc {A} (l : list A) (x : A) (i : nat) (y : A) :
  nth_error (l ++ [x]) i = Some y ->
  nth_error l i = Some y \/ (i = length l /\ y = x).
Proof.
  intros H. destruct (Nat.lt_ge_cases i (length l)) as [Hlt|Hge].
  - left. rewrite nth_error_app1 in H; assumption.
  - right. rewrite nth_error_app2 in H by assumption.
    destruct (i - length l) as [|k] eqn:Hk; simpl in H.
    + inversion H. split; [lia | reflexivity].
    + destruct k; discriminate.
Qed.

Lemma remove_nth_filter_length {A} (P : A -> bool) (l : list A) (i : nat) (a : A) :
  nth_error l i = Some a ->
  length (filter P (remove_nth i l)) + (if P a then 1 else 0) =
  length (filter P l).
Proof.
  revert i. induction l as [|x l IH]; intros [|i]; simpl; intros H;
    try discriminate.
  - inversion H; subst. destruct (P a); simpl; lia.
  - specialize (IH _ H). destruct (P x); simpl; lia.
Qed.

Lemma remove_nth_length {A} (l : list A) (i : nat) (a : A) :
  nth_error l i = Some a -> S (length (remove_nth i l)) = length l.
Proof.
  revert i. induction l as [|x l IH]; intros [|i]; simpl; intros H;
    try discriminate; auto.
Qed.

Lemma remove_nth_Forall {A} (Q : A -> Prop) (l : list A) (i : nat) :
  Forall Q l -> Forall Q (remove_nth i l).
Proof.
  intros H. revert i. induction H as [|x l Hx Hl IH]; intros [|i]; simpl; auto.
Qed.

Lemma filter_length_0 {A} (P : A -> bool) (l : list A) :
  length (filter P l) = 0 -> Forall (fun a => P a = false) l.
Proof.
  induction l as [|x l IH]; simpl; intros H; [constructor|].
  destruct (P x) eqn:Hx; simpl in H; [discriminate|].
  constructor; auto.
Qed.

(** *** The listeners *)

(** The [error] listener starts a reconnect attempt there and then: called
    [n] times it leaves [n] calls suspended at [end()] on the current client,
    and sets no timer. *)
Lemma each_listener_on_error (n : nat) (e : Exn) (s : Server) :
  each_listener n (on_error e) s =
  (set_out (out s ++ concat (repeat
              [ConsoleError "PostgreSQL notification client error:" e;
               ConsoleLog "Attempting to reconnect to PostgreSQL..." []] n))
     (set_pending (pending s ++ repeat (ReconnectEnd (pgClient s)) n) s),
   Normal tt).
Proof.
  revert s. induction n as [|n IH]; intros s.
  - simpl. unfold sm_ret. rewrite !app_nil_r. destruct s; reflexivity.
  - simpl. unfold sm_bind at 1.
    destruct s as [cs pg pd tm nw ou hc un]. cbn. rewrite IH. cbn.
    unfold set_out, set_pending; cbn.
    rewrite <- !app_assoc. reflexivity.
Qed.

(** *** What reaches the event loop

    Every segment of the three async methods ends inside its try block or
    in its catch block, which does not throw: the promises of
    [setupPgNotifications], [reconnectPg] and [close] never reject.  (So it
    makes no difference that [reconnectPg] awaits the promise of
    [setupPgNotifications].) *)
Lemma segments_normal (s : Server) (result : Completion unit) (rest : list string) :
  snd (setupPgNotifications s) = Normal tt /\
  snd (setup_after_connect result s) = Normal tt /\
  snd (setup_after_listen rest result s) = Normal tt /\
  snd (reconnectPg s) = Normal tt /\
  snd (reconnect_after_end result s) = Normal tt /\
  snd (close s) = Normal tt /\
  snd (close_after_end result s) = Normal tt.
Proof.
  destruct s, result as [[]|e], rest; repeat split; reflexivity.
Qed.

(** The one exception the event loop ever sees is an [error] event of a
    client that has no listener for it. *)
Lemma step_uncaught (s s' : Server) (ev : Event) :
  step JSON_parse s ev = Some s' ->
  uncaught s' = uncaught s \/
  exists c cl, ev = PgError c /\ nth_error (clients s) c = Some cl /\
               error_listeners cl = 0 /\
               uncaught s' = (uncaught s ++ [HostError])%list.
Proof.
  intros Hstep. destruct ev as [i result|c|c msg|i|ms|]; unfold step in Hstep.
  - destruct (nth_error (pending s) i) as [a|]; [|discriminate].
    inversion Hstep; subst s'; clear Hstep. left.
    destruct s, a as [c|c ch [|ch' rest]|c|c], result as [[]|e]; reflexivity.
  - destruct (nth_error (clients s) c) as [cl|] eqn:Hc; [|discriminate].
    destruct (error_listeners cl) as [|n] eqn:Hn.
    + right. exists c, cl. inversion Hstep; subst s'.
      destruct s; repeat split; assumption.
    + left. unfold turn in Hstep. rewrite each_listener_on_error in Hstep.
      inversion Hstep; subst s'. destruct s; reflexivity.
  - destruct (nth_error (clients s) c) as [cl|]; [|discriminate].
    unfold turn in Hstep.
    rewrite each_listener_lift in Hstep by apply on_notification_normal.
    inversion Hstep; subst s'. left. destruct s; reflexivity.
  - destruct (nth_error (timers s) i) as [t|]; [|discriminate].
    destruct (due t <=? now s)%Z; [|discriminate].
    inversion Hstep; subst s'. left. destruct s, (callback t); reflexivity.
  - destruct (0 <=? ms)%Z; [|discriminate].
    inversion Hstep; subst s'. left. destruct s; reflexivity.
  - inversion Hstep; subst s'. left. destruct s; reflexivity.
Qed.

(** *** Attempts that do not overlap keep a single connection *)

Lemma no_live_filter (l : list Client) :
  (forall i cl, nth_error l i = Some cl -> live cl = false) -> filter live l = [].
Proof.
  induction l as [|x l IH]; intros H; simpl; [reflexivity|].
  rewrite (H 0 x eq_refl). apply IH. intros i cl Hi. exact (H (S i) cl Hi).
Qed.

Lemma only_live_at_most_one (pg : nat) (cs : list Client) :
  only_live pg cs -> length (filter live cs) <= 1.
Proof.
  unfold only_live. revert pg. induction cs as [|x l IH]; intros p H; simpl; [lia|].
  destruct p as [|p].
  - rewrite (no_live_filter l).
    + destruct (live x); simpl; lia.
    + intros i cl Hi. apply (H (S i) cl Hi). discriminate.
  - rewrite (H 0 x eq_refl) by discriminate.
    apply (IH p). intros i cl Hi Hne. apply (H (S i) cl Hi). congruence.
Qed.

(** Updating the current client, or updating any client in a way that does
    not bring it to life, keeps the others released. *)
Lemma only_live_update (pg c : nat) (f : Client -> Client) (cs : list Client) :
  c = pg \/ (forall x, live x = false -> live (f x) = false) ->
  only_live pg cs -> only_live pg (update_nth c f cs).
Proof.
  intros Hf H i cl Hi Hne.
  apply nth_error_update_nth in Hi as [x [Hx [[Hic ->]|[-> ->]]]].
  - exact (H _ _ Hx Hne).
  - destruct Hf as [->|Hf]; [contradiction|]. apply Hf. exact (H _ _ Hx Hne).
Qed.

(** Once the current client is released, a fresh one can take its place. *)
Lemma only_live_construct (pg : nat) (cs : list Client) :
  pg < length cs -> only_live pg cs ->
  (forall cl, nth_error cs pg = Some cl -> live cl = false) ->
  only_live (length cs) (cs ++ [new_Client]).
Proof.
  intros Hpg H Hcur i cl Hi Hne.
  apply nth_error_snoc in Hi as [Hi|[-> _]]; [|contradiction].
  destruct (Nat.eq_dec i pg) as [->|Hip]; [exact (Hcur _ Hi) | exact (H _ _ Hi Hip)].
Qed.

Ltac keeps_life := right; intros x Hx; exact Hx.
Ltac ends_life := right; intros x _; unfold live; cbn; apply andb_false_r.

Lemma step_single_attempt (s s' : Server) (ev : Event) :
  single_attempt s -> one_at_a_time s ev = true ->
  step JSON_parse s ev = Some s' -> single_attempt s'.
Proof.
  intros (Hpg & Hlive & Hout & Hcur) Hseq Hstep.
  destruct s as [cs pg pd tm nw ou hc un].
  unfold single_attempt, outstanding in *. cbn in Hpg, Hlive, Hout, Hcur.
  destruct ev as [i result|c|c msg|i|ms|].
  - cbn in Hstep. destruct (nth_error pd i) as [a|] eqn:Ha; [|discriminate].
    inversion Hstep; subst s'; clear Hstep.
    pose proof (remove_nth_filter_length attempt pd i a Ha) as Hcount.
    pose proof (remove_nth_Forall _ _ i Hcur) as Hrest.
    assert (Ha' : on_client pg a)
      by (rewrite Forall_forall in Hcur; apply Hcur; eapply nth_error_In; eauto).
    destruct a as [c|c ch rest|c|c]; destruct result as [[]|e]; cbn in *.
    + subst c. repeat split.
      * rewrite update_nth_length. assumption.
      * apply only_live_update; [left; reflexivity | assumption].
      * rewrite filter_app, length_app. cbn. lia.
      * apply Forall_app; split; [assumption | repeat constructor].
    + repeat split; auto. rewrite length_app; cbn; lia.
    + destruct rest as [|ch' rest]; cbn.
      * repeat split.
        -- rewrite !update_nth_length. assumption.
        -- repeat (apply only_live_update; [keeps_life|]). assumption.
        -- lia.
        -- assumption.
      * repeat split.
        -- rewrite !update_nth_length. assumption.
        -- apply only_live_update; [keeps_life | assumption].
        -- rewrite filter_app, length_app. cbn. lia.
        -- apply Forall_app; split; [assumption | repeat constructor].
    + repeat split; auto. rewrite length_app; cbn; lia.
    + subst c. assert (Hnone : length (filter attempt (remove_nth i pd)) = 0) by lia.
      repeat split.
      * rewrite length_app, update_nth_length. cbn. lia.
      * apply (only_live_construct pg).
        -- rewrite update_nth_length. assumption.
        -- apply only_live_update; [ends_life | assumption].
        -- intros cl Hcl. apply nth_error_update_nth in Hcl as [x [Hx [[Hne _]|[_ ->]]]];
             [contradiction | unfold live; cbn; apply andb_false_r].
      * rewrite filter_app, length_app. cbn. lia.
      * apply Forall_app; split; [|repeat constructor].
        apply filter_length_0 in Hnone.
        eapply Forall_impl; [|exact Hnone]. intros [] Hf; try discriminate; exact I.
    + repeat split; auto. rewrite length_app; cbn; lia.
    + repeat split; auto.
      * rewrite update_nth_length; assumption.
      * apply only_live_update; [ends_life | assumption].
      * lia.
    + repeat split; auto. lia.
  - cbn in Hstep, Hseq. unfold outstanding in Hseq. cbn in Hseq.
    destruct (nth_error cs c) as [cl|]; [|discriminate].
    destruct (error_listeners cl) as [|[|n]]; cbn in Hseq; [| |discriminate];
      inversion Hstep; subst s'; clear Hstep; cbn.
    + repeat split; auto.
    + apply Nat.eqb_eq in Hseq. repeat split; auto.
      * rewrite filter_app, length_app. cbn. lia.
      * apply Forall_app; split; [assumption | repeat constructor].
  - unfold step in Hstep. cbn [clients] in Hstep. destruct (nth_error cs c) as [cl|] eqn:Hc; [|discriminate].
    unfold turn in Hstep.
    rewrite each_listener_lift in Hstep by apply on_notification_normal.
    inversion Hstep; subst s'; clear Hstep; cbn. repeat split; auto.
  - cbn in Hstep. destruct (nth_error tm i) as [t|] eqn:Ht; [|discriminate].
    destruct (due t <=? nw)%Z; [|discriminate].
    pose proof (remove_nth_length tm i t Ht) as Hlen.
    inversion Hstep; subst s'; clear Hstep.
    destruct (callback t); cbn; repeat split; auto;
      match goal with
      | |- _ <= _ => rewrite filter_app, length_app; cbn; lia
      | |- Forall _ _ => apply Forall_app; split; [assumption | repeat constructor]
      end.
  - cbn in Hstep. destruct (0 <=? ms)%Z; [|discriminate].
    inversion Hstep; subst s'; clear Hstep; cbn. repeat split; auto.
  - cbn in Hstep. inversion Hstep; subst s'; clear Hstep; cbn. repeat split; auto.
    + rewrite filter_app, length_app. cbn. lia.
    + apply Forall_app; split; [assumption | repeat constructor].
Qed.

Lemma single_attempt_constructed : single_attempt constructed.
Proof.
  unfold single_attempt, outstanding. cbn. repeat split.
  - lia.
  - intros [|[|i]] cl Hi Hne; cbn in Hi; try discriminate; contradiction.
  - lia.
  - repeat constructor.
Qed.

Lemma run_single_attempt (evs : list Event) (s s' : Server) :
  single_attempt s -> attempts_do_not_overlap JSON_parse s evs = true ->
  run JSON_parse s evs = Some s' -> single_attempt s'.
Proof.
  revert s. induction evs as [|ev evs IH]; intros s Hs Hseq Hrun; cbn in *.
  - inversion Hrun; subst; assumption.
  - apply andb_prop in Hseq as [H1 H2].
    destruct (step JSON_parse s ev) as [s1|] eqn:Hstep; [|discriminate].
    eapply IH; [eapply step_single_attempt; eauto | assumption | assumption].
Qed.


(** *** ... and a single listener *)

Lemma listeners_of_update (c : nat) (f : Client -> Client) (cs : list Client) (pg : nat) :
  (forall x, notification_listeners (f x) = notification_listeners x) ->
  listeners_of (update_nth c f cs) pg = listeners_of cs pg.
Proof.
  intros Hf. unfold listeners_of.
  destruct (nth_error (update_nth c f cs) pg) as [y|] eqn:Hy.
  - apply nth_error_update_nth in Hy as [x [Hx [[_ ->]|[_ ->]]]]; rewrite Hx; auto.
  - apply nth_error_None in Hy. rewrite update_nth_length in Hy.
    apply nth_error_None in Hy. rewrite Hy. reflexivity.
Qed.

Lemma at_most_one_update (c : nat) (f : Client -> Client) (cs : list Client) :
  (forall x, notification_listeners (f x) = notification_listeners x) ->
  (forall i cl, nth_error cs i = Some cl -> notification_listeners cl <= 1) ->
  forall i cl, nth_error (update_nth c f cs) i = Some cl -> notification_listeners cl <= 1.
Proof.
  intros Hf H i cl Hi.
  apply nth_error_update_nth in Hi as [x [Hx [[_ ->]|[_ ->]]]];
    [|rewrite Hf]; exact (H _ _ Hx).
Qed.

Lemma existsb_remove_nth {A} (P : A -> bool) (l : list A) (i : nat) :
  existsb P (remove_nth i l) = true -> existsb P l = true.
Proof.
  revert i. induction l as [|x l IH]; intros [|i]; simpl; intros H; auto.
  - rewrite H. apply orb_true_r.
  - apply orb_true_iff in H as [H|H]; [rewrite H; reflexivity|].
    rewrite (IH _ H). apply orb_true_r.
Qed.

Lemma existsb_nth_error {A} (P : A -> bool) (l : list A) (i : nat) (a : A) :
  nth_error l i = Some a -> P a = true -> existsb P l = true.
Proof.
  intros Hi Ha. apply existsb_exists. exists a. split; [eapply nth_error_In; eauto | assumption].
Qed.

Lemma no_attempt_no_setup (l : list Await) :
  length (filter attempt l) = 0 -> existsb setting_up l = false.
Proof.
  induction l as [|a l IH]; simpl; intros H; [reflexivity|].
  destruct a; simpl in *; try discriminate; auto.
Qed.

Lemma at_most_one_register (c : nat) (f : Client -> Client) (cs : list Client) :
  (forall x, notification_listeners (f x) = S (notification_listeners x)) ->
  listeners_of cs c = 0 ->
  (forall i cl, nth_error cs i = Some cl -> notification_listeners cl <= 1) ->
  forall i cl, nth_error (update_nth c f cs) i = Some cl -> notification_listeners cl <= 1.
Proof.
  intros Hf Hc H i cl Hi.
  apply nth_error_update_nth in Hi as [x [Hx [[_ ->]|[-> ->]]]]; [exact (H _ _ Hx)|].
  unfold listeners_of in Hc. rewrite Hx in Hc. rewrite Hf, Hc. lia.
Qed.

Lemma listeners_of_new (cs : list Client) :
  listeners_of (cs ++ [new_Client]) (length cs) = 0.
Proof.
  unfold listeners_of. rewrite nth_error_app2, Nat.sub_diag by lia. reflexivity.
Qed.

(* the items that need a fresh client were there before the step *)
Ltac was_there H Hrest :=
  rewrite ?existsb_app in H; cbn in H; rewrite ?orb_false_r in H;
  apply orb_true_iff in H as [H|H];
  [ apply Hrest in H; rewrite H; reflexivity
  | rewrite H; apply orb_true_r ].

Lemma step_single_listener (s s' : Server) (ev : Event) :
  single_attempt s -> single_listener s -> one_at_a_time s ev = true ->
  step JSON_parse s ev = Some s' -> single_listener s'.
Proof.
  intros (Hpg & _ & Hout & _) (Hone & Hfresh) Hseq Hstep.
  destruct s as [cs pg pd tm nw ou hc un].
  unfold single_listener, outstanding in *. cbn in Hpg, Hout, Hone, Hfresh.
  destruct ev as [i result|c|c msg|i|ms|].
  - cbn in Hstep. destruct (nth_error pd i) as [a|] eqn:Ha; [|discriminate].
    inversion Hstep; subst s'; clear Hstep.
    pose proof (remove_nth_filter_length attempt pd i a Ha) as Hcount.
    pose proof (existsb_remove_nth setting_up pd i) as Hrest.
    pose proof (existsb_nth_error setting_up pd i a Ha) as Hin.
    destruct a as [c|c ch rest|c|c]; destruct result as [[]|e]; cbn in *.
    + split; [apply at_most_one_update; auto|]. intros _.
      rewrite listeners_of_update by reflexivity.
      apply Hfresh. rewrite Hin; reflexivity.
    + split; [exact Hone|]. intros _. apply Hfresh. rewrite Hin; reflexivity.
    + assert (Hz : listeners_of cs pg = 0) by (apply Hfresh; rewrite Hin; reflexivity).
      destruct rest as [|ch' rest]; cbn.
      * split.
        -- apply at_most_one_update; [reflexivity|].
           apply at_most_one_register; [reflexivity | |].
           ++ rewrite listeners_of_update by reflexivity. exact Hz.
           ++ apply at_most_one_update; auto.
        -- intros H. exfalso.
           assert (Hnone : length (filter attempt (remove_nth i pd)) = 0) by lia.
           rewrite (no_attempt_no_setup _ Hnone) in H.
           destruct tm; [discriminate | cbn in Hout; lia].
      * split; [apply at_most_one_update; auto|]. intros _.
        rewrite listeners_of_update by reflexivity. exact Hz.
    + split; [exact Hone|]. intros _. apply Hfresh. rewrite Hin; reflexivity.
    + split.
      * intros j cl Hj. apply nth_error_snoc in Hj as [Hj|[_ ->]]; [|cbn; lia].
        revert j cl Hj. apply at_most_one_update; auto.
      * intros _. apply listeners_of_new.
    + split; [exact Hone|]. intros H. apply Hfresh. was_there H Hrest.
    + split; [apply at_most_one_update; auto|]. intros H.
      rewrite listeners_of_update by reflexivity.
      apply Hfresh. was_there H Hrest.
    + split; [exact Hone|]. intros H. apply Hfresh. was_there H Hrest.
  - cbn in Hstep, Hseq. unfold outstanding in Hseq. cbn in Hseq.
    destruct (nth_error cs c) as [cl|]; [|discriminate].
    destruct (error_listeners cl) as [|[|n]]; cbn in Hseq; [| |discriminate];
      inversion Hstep; subst s'; clear Hstep; cbn.
    + split; assumption.
    + split; [exact Hone|]. intros H. apply Hfresh.
      was_there H (fun x : existsb setting_up pd = true => x).
  - unfold step in Hstep. cbn [clients] in Hstep.
    destruct (nth_error cs c) as [cl|] eqn:Hc; [|discriminate].
    unfold turn in Hstep.
    rewrite each_listener_lift in Hstep by apply on_notification_normal.
    inversion Hstep; subst s'; clear Hstep; cbn. split; assumption.
  - cbn in Hstep. destruct (nth_error tm i) as [t|] eqn:Ht; [|discriminate].
    destruct (due t <=? nw)%Z; [|discriminate].
    pose proof (existsb_remove_nth retries_setup tm i) as Hrest.
    pose proof (existsb_nth_error retries_setup tm i t Ht) as Hin.
    inversion Hstep; subst s'; clear Hstep.
    unfold retries_setup in Hin at 1.
    destruct (callback t); cbn; (split; [exact Hone|]); intros H; apply Hfresh.
    + rewrite Hin by reflexivity. apply orb_true_r.
    + rewrite existsb_app in H. cbn in H. rewrite orb_false_r in H.
      apply orb_true_iff in H as [H|H];
        [rewrite H; reflexivity | rewrite (Hrest H); apply orb_true_r].
  - cbn in Hstep. destruct (0 <=? ms)%Z; [|discriminate].
    inversion Hstep; subst s'; clear Hstep; cbn. split; assumption.
  - cbn in Hstep. inversion Hstep; subst s'; clear Hstep; cbn.
    split; [exact Hone|]. intros H. apply Hfresh.
    was_there H (fun x : existsb setting_up pd = true => x).
Qed.

Lemma single_listener_constructed : single_listener constructed.
Proof.
  split.
  - intros [|[|i]] cl Hi; cbn in Hi; try discriminate.
    inversion Hi; subst. cbn. lia.
  - intros _. reflexivity.
Qed.

Lemma run_single_listener (evs : list Event) (s s' : Server) :
  single_attempt s -> single_listener s ->
  attempts_do_not_overlap JSON_parse s evs = true ->
  run JSON_parse s evs = Some s' -> single_listener s'.
Proof.
  revert s. induction evs as [|ev evs IH]; intros s Hs Hl Hseq Hrun; cbn in *.
  - inversion Hrun; subst; assumption.
  - apply andb_prop in Hseq as [H1 H2].
    destruct (step JSON_parse s ev) as [s1|] eqn:Hstep; [|discriminate].
    eapply IH; [eapply step_single_attempt | eapply step_single_listener | |]; eauto.
Qed.

(** *** Single steps *)

Lemma run_app (s : Server) (evs1 evs2 : list Event) :
  run JSON_parse s (evs1 ++ evs2) =
  match run JSON_parse s evs1 with
  | Some s1 => run JSON_parse s1 evs2
  | None => None
  end.
Proof.
  revert s. induction evs1 as [|ev evs1 IH]; intros s; simpl; [reflexivity|].
  destruct (step JSON_parse s ev); [apply IH | reflexivity].
Qed.

Lemma run_start_succeeds :
  run JSON_parse constructed start_succeeds = Some listening_server.
Proof. vm_compute. reflexivity. Qed.

Lemma step_PgError (s : Server) (c : nat) (cl : Client) (n : nat) :
  nth_error (clients s) c = Some cl -> error_listeners cl = S n ->
  step JSON_parse s (PgError c) =
  Some (set_out (out s ++ concat (repeat
                   [ConsoleError "PostgreSQL notification client error:" HostError;
                    ConsoleLog "Attempting to reconnect to PostgreSQL..." []] (S n)))
          (set_pending (pending s ++ repeat (ReconnectEnd (pgClient s)) (S n)) s)).
Proof.
  intros Hc Hn. unfold step. rewrite Hc, Hn. unfold turn.
  rewrite each_listener_on_error. reflexivity.
Qed.

(** A rejected await of an attempt: the call is over, and its catch block
    has set the one timer that retries it. *)
Lemma step_Settle_rejected (s : Server) (i : nat) (a : Await) (cb : Callback) (e : Exn) :
  nth_error (pending s) i = Some a -> retry_after a = Some cb ->
  exists s', step JSON_parse s (Settle i (Throw e)) = Some s' /\
    pending s' = remove_nth i (pending s) /\
    timers s' = (timers s ++ [{| callback := cb; set_at := now s; delay := 5000 |}])%list /\
    clients s' = clients s /\ pgClient s' = pgClient s /\ now s' = now s /\
    uncaught s' = uncaught s.
Proof.
  intros Ha Hcb. unfold step. rewrite Ha. eexists. split; [reflexivity|].
  destruct s as [cs pg pd tm nw ou hc un].
  destruct a; inversion Hcb; subst cb; cbn; repeat split; reflexivity.
Qed.

(** A timer fires no earlier than [delay] after it was set, and then runs
    its callback up to the first await. *)
Lemma step_TimerFires (s : Server) (i : nat) (t : Timer) :
  nth_error (timers s) i = Some t ->
  ((now s < due t)%Z -> step JSON_parse s (TimerFires i) = None) /\
  ((due t <= now s)%Z ->
   exists s', step JSON_parse s (TimerFires i) = Some s' /\
     timers s' = remove_nth i (timers s) /\
     pending s' = (pending s ++ [first_await (callback t) (pgClient s)])%list /\
     clients s' = clients s /\ pgClient s' = pgClient s /\ now s' = now s).
Proof.
  intros Ht. unfold step. rewrite Ht. split; intros Hdue.
  - apply Z.leb_gt in Hdue. rewrite Hdue. reflexivity.
  - apply Z.leb_le in Hdue. rewrite Hdue. eexists. split; [reflexivity|].
    destruct s as [cs pg pd tm nw ou hc un].
    destruct (callback t); cbn; repeat split; reflexivity.
Qed.

Lemma step_fixed_delay (s s' : Server) (ev : Event) :
  fixed_delay s -> step JSON_parse s ev = Some s' -> fixed_delay s'.
Proof.
  unfold fixed_delay. intros Htm Hstep.
  destruct ev as [i result|c|c msg|i|ms|]; unfold step in Hstep.
  - destruct (nth_error (pending s) i) as [a|]; [|discriminate].
    inversion Hstep; subst s'; clear Hstep.
    destruct s as [cs pg pd tm nw ou hc un]. cbn in Htm.
    destruct a as [c|c ch [|ch' rest]|c|c]; destruct result as [[]|e]; cbn;
      try assumption;
      (apply Forall_app; split; [assumption | repeat constructor]).
  - destruct (nth_error (clients s) c) as [cl|]; [|discriminate].
    destruct (error_listeners cl) as [|n].
    + inversion Hstep; subst s'. destruct s; exact Htm.
    + unfold turn in Hstep. rewrite each_listener_on_error in Hstep.
      inversion Hstep; subst s'. destruct s; exact Htm.
  - destruct (nth_error (clients s) c) as [cl|]; [|discriminate].
    unfold turn in Hstep.
    rewrite each_listener_lift in Hstep by apply on_notification_normal.
    inversion Hstep; subst s'. destruct s; exact Htm.
  - destruct (nth_error (timers s) i) as [t|]; [|discriminate].
    destruct (due t <=? now s)%Z; [|discriminate].
    inversion Hstep; subst s'; clear Hstep.
    pose proof (remove_nth_Forall _ _ i Htm) as Hrest.
    destruct s as [cs pg pd tm nw ou hc un].
    destruct (callback t); cbn; exact Hrest.
  - destruct (0 <=? ms)%Z; [|discriminate].
    inversion Hstep; subst s'. destruct s; exact Htm.
  - inversion Hstep; subst s'. destruct s; exact Htm.
Qed.

Lemma run_fixed_delay (evs : list Event) (s s' : Server) :
  fixed_delay s -> run JSON_parse s evs = Some s' -> fixed_delay s'.
Proof.
  revert s. induction evs as [|ev evs IH]; intros s Hs Hrun; simpl in Hrun.
  - inversion Hrun; subst; assumption.
  - destruct (step JSON_parse s ev) as [s1|] eqn:Hstep; [|discriminate].
    eapply IH; [eapply step_fixed_delay; eauto | assumption].
Qed.

(** One more failed attempt: five seconds later the server is where it was,
    at the first await of the same method. *)
Lemma failed_round_again (cb : Callback) (s : Server) :
  pending s = [first_await cb (pgClient s)] -> timers s = [] ->
  exists s', run JSON_parse s failed_round = Some s' /\
    pending s' = pending s /\ timers s' = [] /\
    now s' = (now s + 5000)%Z /\ clients s' = clients s /\
    pgClient s' = pgClient s.
Proof.
  intros Hpd Htm. destruct s as [cs pg pd tm nw ou hc un]. cbn in Hpd, Htm.
  subst pd tm. unfold failed_round, run, step.
  destruct cb; cbn -[Z.add Z.leb];
    change (0 <=? 5000)%Z with true; cbn -[Z.add Z.leb];
    rewrite Z.leb_refl;
    (eexists; split; [reflexivity|]); cbn -[Z.add]; repeat split; reflexivity.
Qed.

Lemma rounds_again (n : nat) (cb : Callback) (s : Server) :
  pending s = [first_await cb (pgClient s)] -> timers s = [] ->
  exists s', run JSON_parse s (rounds n) = Some s' /\
    pending s' = pending s /\ timers s' = [] /\
    now s' = (now s + 5000 * Z.of_nat n)%Z /\ clients s' = clients s /\
    pgClient s' = pgClient s.
Proof.
  revert s. induction n as [|n IH]; intros s Hpd Htm.
  - exists s. cbn [rounds run]. repeat split; auto. lia.
  - destruct (failed_round_again cb s Hpd Htm)
      as (s1 & Hrun & Hpd1 & Htm1 & Hnow1 & Hcs1 & Hpg1).
    assert (Hpd1' : pending s1 = [first_await cb (pgClient s1)])
      by (rewrite Hpd1, Hpg1; exact Hpd).
    destruct (IH s1 Hpd1' Htm1) as (s2 & Hrun2 & Hpd2 & Htm2 & Hnow2 & Hcs2 & Hpg2).
    exists s2. cbn [rounds]. rewrite run_app, Hrun.
    repeat split; try congruence. lia.
Qed.

End MachineProperties.

(** ** Routing and delivery of a decoded notification *)

Section Routing.
Context `{NUM : JSNumber}.
Variable JSON_parse : string -> option JSValue.

Lemma handleConversionMessageChange_targets (operation data : JSValue) :
  targets (fst (handleConversionMessageChange operation data)) =
  Room "conversion-messages" :: scoped data.
Proof.
  unfold handleConversionMessageChange, scoped. handler_cases data; reflexivity.
Qed.

Lemma handleConversionStepChange_targets (operation data : JSValue) :
  targets (fst (handleConversionStepChange operation data)) =
  Room "conversion-steps" :: scoped data.
Proof.
  unfold handleConversionStepChange, scoped. handler_cases data; reflexivity.
Qed.


(** The emissions of a listener that ran [n] times. *)
Lemma emissions_repeat (t : list Effect) (n : nat) :
  emissions (concat (repeat t n)) = concat (repeat (emissions t) n).
Proof.
  induction n as [|n IH]; simpl; [reflexivity|].
  rewrite emissions_app, IH. reflexivity.
Qed.

(** C1 (amended).  On the channels conversion_message_changes and
    conversion_step_changes, a notification whose payload decodes to a
    non-null value is broadcast to the static room of its kind and, when
    [data.conversionId] is truthy and renders as the string [s], to the room
    ["conversion-" ++ s] as well, in that order and to no other room; when
    [conversionId] is absent or falsy (null, false, 0, the empty string), or
    [data] itself is missing, it is broadcast to the static room only. *)
Theorem C1_scoped_fanout_for_truthy_id
    (msg : Notification) (p : JSValue) (static : string) :
  (channel msg = "conversion_message_changes" /\ static = "conversion-messages") \/
  (channel msg = "conversion_step_changes" /\ static = "conversion-steps") ->
  JSON_parse (payload_text msg) = Some p ->
  nullish p = false ->
  let k := field (field p "data") "conversionId" in
  (forall s, truthy k = true -> ToString k = Some s ->
     targets (fst (on_notification JSON_parse msg)) =
     [Room static; Room ("conversion-" ++ s)]) /\
  (truthy k = false ->
     targets (fst (on_notification JSON_parse msg)) = [Room static]).
Proof.
  intros Hch Hparse Hp k.
  rewrite (on_notification_targets _ _ _ Hparse).
  rewrite (handlePgNotification_fields _ _ Hp). cbv zeta.
  destruct Hch as [[Hc ->]|[Hc ->]]; rewrite Hc; cbn [String.eqb Ascii.eqb Bool.eqb];
    rewrite ?handleConversionMessageChange_targets,
            ?handleConversionStepChange_targets;
    unfold scoped; fold k; split.
  - intros s Hk Hs. rewrite Hk, Hs. reflexivity.
  - intros Hk. rewrite Hk. reflexivity.
  - intros s Hk Hs. rewrite Hk, Hs. reflexivity.
  - intros Hk. rewrite Hk. reflexivity.
Qed.

(** C2.  On the channel conversion_changes a decoded notification is
    emitted once, to the room "conversions", whatever the payload holds
    (a conversionId included); and no notification on this channel, decoded
    or dropped, ever reaches another room. *)
Theorem C2_conversion_changes_only_conversions (msg : Notification) :
  channel msg = "conversion_changes" ->
  (forall p, JSON_parse (payload_text msg) = Some p -> nullish p = false ->
     emissions (fst (on_notification JSON_parse msg)) =
     [Emit (Room "conversions") "postgres_changes"
        (JObject
           [("event", field p "operation");
            ("schema", JString "public");
            ("table", JString "Conversion");
            ("new", if strict_eq_string (field p "operation") "DELETE"
                    then JNull else field p "data");
            ("old", if strict_eq_string (field p "operation") "INSERT"
                    then JNull else field p "data")])] /\
     targets (fst (on_notification JSON_parse msg)) = [Room "conversions"]) /\
  (targets (fst (on_notification JSON_parse msg)) = [] \/
   targets (fst (on_notification JSON_parse msg)) = [Room "conversions"]).
Proof.
  intros Hc.
  assert (Hdecoded : forall p, nullish p = false ->
            handlePgNotification (channel msg) p =
            handleConversionChange (field p "operation") (field p "data")).
  { intros p Hp. rewrite (handlePgNotification_fields _ _ Hp), Hc.
    reflexivity. }
  split.
  - intros p Hparse Hp.
    rewrite (on_notification_emissions _ _ _ Hparse),
            (on_notification_targets _ _ _ Hparse), (Hdecoded p Hp).
    split; reflexivity.
  - destruct (JSON_parse (payload_text msg)) as [p|] eqn:Hparse.
    + destruct (nullish p) eqn:Hp.
      * left. rewrite (on_notification_nullish _ _ _ Hparse Hp). reflexivity.
      * right. rewrite (on_notification_targets _ _ _ Hparse),
                       (Hdecoded p Hp). reflexivity.
    + left. rewrite (on_notification_unparsable _ _ Hparse). reflexivity.
Qed.

(** C3 (amended).  In the change-delivery events of the three channels with
    a handler of their own, [new] is null when the operation is DELETE and
    the decoded data otherwise, and [old] is null when the operation is
    INSERT and the decoded data otherwise, so an UPDATE carries the data in
    both; the event forwarded for any other channel always carries the
    decoded data as [new] and null as [old]. *)
Theorem C3_new_and_old_by_path (msg : Notification) (p : JSValue) :
  JSON_parse (payload_text msg) = Some p ->
  nullish p = false ->
  let operation := field p "operation" in
  let data := field p "data" in
  Forall
    (fun e =>
       event_name e = Some "postgres_changes" ->
       if existsb (String.eqb (channel msg)) change_channels then
         carried "new" e =
           Some (if strict_eq_string operation "DELETE" then JNull else data) /\
         carried "old" e =
           Some (if strict_eq_string operation "INSERT" then JNull else data)
       else
         carried "new" e = Some data /\ carried "old" e = Some JNull)
    (emissions (fst (on_notification JSON_parse msg))).
Proof.
  intros Hparse Hp operation data.
  rewrite (on_notification_emissions _ _ _ Hparse).
  rewrite (handlePgNotification_fields _ _ Hp). cbv zeta. fold operation data.
  unfold change_channels. cbn [existsb].
  destruct (String.eqb (channel msg) "conversion_message_changes");
    [|destruct (String.eqb (channel msg) "conversion_changes");
      [|destruct (String.eqb (channel msg) "conversion_step_changes");
        [|destruct (String.eqb (channel msg) "test_channel")]]];
    cbn [orb].
  - unfold handleConversionMessageChange. handler_cases data;
      repeat constructor.
  - cbn. repeat constructor.
  - unfold handleConversionStepChange. handler_cases data;
      repeat constructor.
  - cbn. constructor; [intros H; discriminate | constructor].
  - cbn. repeat constructor.
Qed.

(** C5 (amended).  A notification whose payload decodes to a non-null value
    is broadcast on every channel, whatever its [operation] field holds; on
    a channel without a case of its own, the one event emitted carries
    "UNKNOWN" when [operation] is missing or otherwise falsy, and carries a
    truthy [operation] as it is. *)
Theorem C5_broadcast_whatever_the_operation (msg : Notification) (p : JSValue) :
  JSON_parse (payload_text msg) = Some p ->
  nullish p = false ->
  let operation := field p "operation" in
  emissions (fst (on_notification JSON_parse msg)) <> [] /\
  (~ In (channel msg) ("test_channel" :: change_channels) ->
   exists props,
     emissions (fst (on_notification JSON_parse msg)) =
     [Emit (Room (channel msg)) "postgres_changes" (JObject props)] /\
     (truthy operation = false ->
      own_property "event" props = Some (JString "UNKNOWN")) /\
     (truthy operation = true ->
      own_property "event" props = Some operation)).
Proof.
  intros Hparse Hp operation.
  rewrite (on_notification_emissions _ _ _ Hparse).
  rewrite (handlePgNotification_fields _ _ Hp). cbv zeta. fold operation.
  split.
  - destruct (String.eqb (channel msg) "conversion_message_changes");
      [|destruct (String.eqb (channel msg) "conversion_changes");
        [|destruct (String.eqb (channel msg) "conversion_step_changes");
          [|destruct (String.eqb (channel msg) "test_channel")]]].
    + unfold handleConversionMessageChange.
      handler_cases (field p "data"); discriminate.
    + cbn. discriminate.
    + unfold handleConversionStepChange.
      handler_cases (field p "data"); discriminate.
    + cbn. discriminate.
    + cbn. discriminate.
  - intros Hother. unfold change_channels in Hother. cbn [In] in Hother.
    assert (Hneq : forall l, In l ["test_channel"; "conversion_message_changes";
                                    "conversion_changes"; "conversion_step_changes"] ->
                             String.eqb (channel msg) l = false).
    { intros l Hl. apply String.eqb_neq. intros Heq. apply Hother.
      rewrite Heq. cbn [In] in Hl. intuition. }
    rewrite !Hneq by (cbn [In]; auto). cbn.
    eexists. split; [reflexivity|]. cbn. unfold js_or.
    split; intros Hop; rewrite Hop; reflexivity.
Qed.

(** C10.  On the channel test_channel, which the start registers with the
    other three, a decoded notification is emitted once, to every connected
    client rather than to a room, as the event "test_notification" carrying
    [{message: payload}]; nothing else is ever emitted for this channel: no
    room, and no "postgres_changes" event. *)
Theorem C10_test_channel_to_everyone (msg : Notification) :
  channel msg = "test_channel" ->
  (forall p, JSON_parse (payload_text msg) = Some p -> nullish p = false ->
     emissions (fst (on_notification JSON_parse msg)) =
     [Emit Everyone "test_notification" (JObject [("message", p)])]) /\
  (emissions (fst (on_notification JSON_parse msg)) = [] \/
   exists p, emissions (fst (on_notification JSON_parse msg)) =
             [Emit Everyone "test_notification" (JObject [("message", p)])]) /\
  (exists s cl, run JSON_parse constructed start_succeeds = Some s /\
                nth_error (clients s) 0 = Some cl /\
                In "test_channel" (listening cl)).
Proof.
  intros Hc.
  assert (Hdecoded : forall p, nullish p = false ->
            handlePgNotification (channel msg) p =
            io_emit "test_notification" (JObject [("message", p)])).
  { intros p Hp. rewrite (handlePgNotification_fields _ _ Hp), Hc.
    reflexivity. }
  split; [|split].
  - intros p Hparse Hp.
    rewrite (on_notification_emissions _ _ _ Hparse), (Hdecoded p Hp).
    reflexivity.
  - destruct (JSON_parse (payload_text msg)) as [p|] eqn:Hparse.
    + destruct (nullish p) eqn:Hp.
      * left. rewrite (on_notification_nullish _ _ _ Hparse Hp). reflexivity.
      * right. exists p.
        rewrite (on_notification_emissions _ _ _ Hparse), (Hdecoded p Hp).
        reflexivity.
    + left. rewrite (on_notification_unparsable _ _ Hparse). reflexivity.
  - eexists. eexists. split; [apply run_start_succeeds|].
    split; [reflexivity|]. cbn. auto.
Qed.

End Routing.

(** ** Dropped notifications, start, reconnection and shutdown *)

Section LifeCycle.
Context `{NUM : JSNumber}.
Variable JSON_parse : string -> option JSValue.


(** C6 (amended).  A start that runs alone, the constructor's, whose
    [connect()] and four LISTEN statements resolve, leaves one connected
    client with each of the four channels registered once and a single
    notification listener, so that a source event is handled exactly once.
    As long as attempts do not overlap, no client ever has more than one
    notification listener, and a source event is never handled twice.
    Nothing guards [setupPgNotifications] itself: every call, whatever the
    state of the connection, goes on to call [connect()] on the current
    client. *)
Theorem C6_a_single_start_registers_once :
  (exists s,
     run JSON_parse constructed start_succeeds = Some s /\
     clients s =
       [{| connected := true; ended := false;
           listening := ["conversion_message_changes"; "conversion_changes";
                         "conversion_step_changes"; "test_channel"];
           notification_listeners := 1; error_listeners := 1 |}] /\
     pending s = [] /\ timers s = [] /\
     forall msg, exists s',
       step JSON_parse s (PgNotification 0 msg) = Some s' /\
       out s' = (out s ++ fst (on_notification JSON_parse msg))%list) /\
  (forall evs s c cl msg,
     attempts_do_not_overlap JSON_parse constructed evs = true ->
     run JSON_parse constructed evs = Some s ->
     nth_error (clients s) c = Some cl ->
     notification_listeners cl <= 1 /\
     exists s',
       step JSON_parse s (PgNotification c msg) = Some s' /\
       (out s' = out s \/
        out s' = (out s ++ fst (on_notification JSON_parse msg))%list)) /\
  (forall s,
     pending (turn (detached setupPgNotifications) s) =
     (pending s ++ [SetupConnect (pgClient s)])%list).
Proof.
  split; [|split].
  - exists listening_server. split; [apply run_start_succeeds|].
    repeat (split; [reflexivity|]).
    intros msg. eexists. split.
    + apply (step_PgNotification _ listening_server 0 _ msg eq_refl).
    + cbn. rewrite app_nil_r. reflexivity.
  - intros evs s c cl msg Hseq Hrun Hc.
    destruct (run_single_listener JSON_parse evs constructed s
                single_attempt_constructed single_listener_constructed
                Hseq Hrun) as [Hone _].
    pose proof (Hone c cl Hc) as Hcl. split; [exact Hcl|].
    eexists. split; [apply (step_PgNotification _ _ _ _ _ Hc)|].
    destruct (notification_listeners cl) as [|[|n]]; [| |lia]; cbn.
    + left. rewrite app_nil_r. reflexivity.
    + right. rewrite app_nil_r. reflexivity.
  - intros s. destruct s; reflexivity.
Qed.

(** C7 (amended).  On a connection-level error every error listener of the
    client starts a reconnect attempt at once: [end()] is called on the
    current client, the clock has not moved and no timer is set.  When an
    await of an attempt rejects (the [end()] of reconnectPg, the [connect()]
    or a LISTEN of setupPgNotifications), its catch block sets exactly one
    timer, 5000 ms from then, and the attempt is over; the timer cannot fire
    before it is due and, when it fires, starts the next attempt.  No timer
    is ever set with another delay; as long as attempts do not overlap, at
    most one timer is pending; and the loop does not end: after any
    number of failed attempts in a row, five seconds apart, the server is
    at the first await of the same method again, with no timer left. *)
Theorem C7_immediate_attempt_then_fixed_retry :
  (forall s c cl n,
     nth_error (clients s) c = Some cl -> error_listeners cl = S n ->
     exists s', step JSON_parse s (PgError c) = Some s' /\
       pending s' = (pending s ++ repeat (ReconnectEnd (pgClient s)) (S n))%list /\
       timers s' = timers s /\ now s' = now s) /\
  (forall s i a cb e,
     nth_error (pending s) i = Some a -> retry_after a = Some cb ->
     exists s', step JSON_parse s (Settle i (Throw e)) = Some s' /\
       pending s' = remove_nth i (pending s) /\
       timers s' =
         (timers s ++ [{| callback := cb; set_at := now s; delay := 5000 |}])%list) /\
  (forall s i t,
     nth_error (timers s) i = Some t ->
     ((now s < set_at t + delay t)%Z -> step JSON_parse s (TimerFires i) = None) /\
     ((set_at t + delay t <= now s)%Z ->
      exists s', step JSON_parse s (TimerFires i) = Some s' /\
        timers s' = remove_nth i (timers s) /\
        pending s' = (pending s ++ [first_await (callback t) (pgClient s)])%list)) /\
  (forall evs s, run JSON_parse constructed evs = Some s -> fixed_delay s) /\
  (forall evs s,
     attempts_do_not_overlap JSON_parse constructed evs = true ->
     run JSON_parse constructed evs = Some s ->
     length (timers s) <= 1) /\
  (forall n cb s,
     pending s = [first_await cb (pgClient s)] -> timers s = [] ->
     exists s',
       run JSON_parse s (rounds n) = Some s' /\
       pending s' = pending s /\ timers s' = [] /\
       now s' = (now s + 5000 * Z.of_nat n)%Z).
Proof.
  split; [|split; [|split; [|split; [|split]]]].
  - intros s c cl n Hc Hn. eexists.
    split; [apply (step_PgError _ _ _ _ _ Hc Hn)|].
    destruct s; repeat split; reflexivity.
  - intros s i a cb e Ha Hcb.
    destruct (step_Settle_rejected JSON_parse s i a cb e Ha Hcb)
      as (s' & Hstep & Hpd & Htm & _).
    exists s'. auto.
  - intros s i t Ht.
    destruct (step_TimerFires JSON_parse s i t Ht) as [Hearly Hdue].
    split; [exact Hearly|]. intros H.
    destruct (Hdue H) as (s' & Hstep & Htm & Hpd & _). exists s'. auto.
  - intros evs s Hrun.
    apply (run_fixed_delay JSON_parse evs constructed s); [constructor | exact Hrun].
  - intros evs s Hseq Hrun.
    destruct (run_single_attempt JSON_parse evs constructed s
                single_attempt_constructed Hseq Hrun) as (_ & _ & Hout & _).
    unfold outstanding in Hout. lia.
  - intros n cb s Hpd Htm.
    destruct (rounds_again JSON_parse n cb s Hpd Htm)
      as (s' & Hrun & Hpd' & Htm' & Hnow & _).
    exists s'. repeat split; assumption.
Qed.

(** C8 (amended).  An explicit shutdown request never throws, from any
    state: [close] calls [end()] on the client that is current at that
    moment and, once that has resolved, the connection of that client is
    released and the HTTP server is closed; a rejected [end()] is logged and
    goes no further.  It cancels nothing: the timers and the suspended
    attempts are the same after [close] as before it. *)
Theorem C8_close_releases_the_current_client_and_cancels_nothing :
  (forall s result,
     snd (close s) = Normal tt /\ snd (close_after_end result s) = Normal tt) /\
  (forall s, exists s',
     step JSON_parse s CloseCalled = Some s' /\
     pending s' = (pending s ++ [CloseEnd (pgClient s)])%list /\
     timers s' = timers s /\ clients s' = clients s /\
     pgClient s' = pgClient s /\ uncaught s' = uncaught s) /\
  (forall s i c result,
     nth_error (pending s) i = Some (CloseEnd c) ->
     exists s',
       step JSON_parse s (Settle i result) = Some s' /\
       pending s' = remove_nth i (pending s) /\
       timers s' = timers s /\ pgClient s' = pgClient s /\
       uncaught s' = uncaught s /\
       match result with
       | Normal _ =>
           clients s' = update_nth c has_ended (clients s) /\
           httpClosed s' = true
       | Throw e =>
           clients s' = clients s /\ httpClosed s' = httpClosed s /\
           out s' = (out s ++ [ConsoleError "Error during shutdown:" e])%list
       end).
Proof.
  split; [|split].
  - intros s result.
    destruct (segments_normal s result []) as (_ & _ & _ & _ & _ & H1 & H2).
    split; assumption.
  - intros s. eexists. split; [reflexivity|].
    destruct s; repeat split; reflexivity.
  - intros s i c result Ha. unfold step. rewrite Ha.
    eexists. split; [reflexivity|].
    destruct s, result as [[]|e]; cbn; repeat split; reflexivity.
Qed.

(** C9 (amended).  A reconnect attempt calls [end()] on the client that is
    current when it starts and constructs the new client only once that
    [end()] has resolved; when it rejects, no client is constructed.  As long
    as attempts do not overlap (an [error] event is handled only while no
    attempt is in flight and no retry is scheduled, by a single listener),
    there is at most one live connection in every reachable state. *)
Theorem C9_one_connection_while_attempts_do_not_overlap :
  (forall evs s,
     attempts_do_not_overlap JSON_parse constructed evs = true ->
     run JSON_parse constructed evs = Some s ->
     live_connections s <= 1) /\
  (forall s i c,
     nth_error (pending s) i = Some (ReconnectEnd c) ->
     (exists s',
        step JSON_parse s (Settle i (Normal tt)) = Some s' /\
        clients s' = (update_nth c has_ended (clients s) ++ [new_Client])%list /\
        pgClient s' = length (clients s)) /\
     (forall e, exists s',
        step JSON_parse s (Settle i (Throw e)) = Some s' /\
        clients s' = clients s /\ pgClient s' = pgClient s)).
Proof.
  split.
  - intros evs s Hseq Hrun.
    destruct (run_single_attempt JSON_parse evs constructed s
                single_attempt_constructed Hseq Hrun) as (_ & Hlive & _).
    exact (only_live_at_most_one _ _ Hlive).
  - intros s i c Ha. split.
    + unfold step. rewrite Ha. eexists. split; [reflexivity|].
      destruct s; cbn. rewrite update_nth_length. split; reflexivity.
    + intros e. unfold step. rewrite Ha. eexists. split; [reflexivity|].
      destruct s; cbn. split; reflexivity.
Qed.

End LifeCycle.

(** ** The claims on concrete runs

    Integer numbers and the sample decoder; the messages and event
    sequences are those defined with the examples above. *)

Lemma C1_witness_step_update :
  targets (fst (on_notification sample_JSON_parse step_update_msg)) =
  [Room "conversion-steps"; Room ("conversion-" ++ "c1")].
Proof.
  refine (proj1 (C1_scoped_fanout_for_truthy_id sample_JSON_parse
                   step_update_msg step_update_value "conversion-steps" _ _ _)
                "c1" _ _).
  - right. split; reflexivity.
  - reflexivity.
  - reflexivity.
  - reflexivity.
  - reflexivity.
Defined.

(** The payload [{"operation":"INSERT","data":{"conversionId":""}}] holds the
    field conversionId, with the empty string as its value; the message is
    broadcast to "conversion-messages" only, and not to the room
    "conversion-" derived from that value.  Likewise with the value 0 on the
    other channel: "conversion-steps" only, and not "conversion-0". *)
Lemma C1_counterexample_empty_id :
  (sample_JSON_parse (payload_text empty_id_msg) = Some empty_id_value /\
   field (field empty_id_value "data") "conversionId" = JString "" /\
   ToString (JString "") = Some "" /\
   targets (fst (on_notification sample_JSON_parse empty_id_msg)) =
     [Room "conversion-messages"] /\
   ~ In (Room ("conversion-" ++ ""))
        (targets (fst (on_notification sample_JSON_parse empty_id_msg)))) /\
  (sample_JSON_parse (payload_text zero_id_msg) = Some zero_id_value /\
   field (field zero_id_value "data") "conversionId" = JNumber 0%Z /\
   ToString (JNumber 0%Z) = Some "0" /\
   targets (fst (on_notification sample_JSON_parse zero_id_msg)) =
     [Room "conversion-steps"] /\
   ~ In (Room ("conversion-" ++ "0"))
        (targets (fst (on_notification sample_JSON_parse zero_id_msg)))).
Proof.
  split; repeat split; try reflexivity;
    vm_compute; intros [H|[]]; discriminate.
Qed.

Lemma C2_witness_conversion_with_id :
  targets (fst (on_notification sample_JSON_parse conversion_msg)) =
  [Room "conversions"].
Proof.
  refine (proj2 (proj1 (C2_conversion_changes_only_conversions
                          sample_JSON_parse conversion_msg _)
                       step_update_value _ _)); reflexivity.
Defined.

Lemma C3_witness_step_update :
  Forall
    (fun e =>
       event_name e = Some "postgres_changes" ->
       carried "new" e = Some step_update_data /\
       carried "old" e = Some step_update_data)
    (emissions (fst (on_notification sample_JSON_parse step_update_msg))).
Proof.
  exact (C3_new_and_old_by_path sample_JSON_parse step_update_msg
           step_update_value eq_refl eq_refl).
Defined.

(** An UPDATE on a channel without a case of its own: the event forwarded
    carries null as [old], although the operation is not INSERT and the
    decoded data is not null. *)
Lemma C3_counterexample_unknown_channel_update :
  sample_JSON_parse (payload_text custom_update_msg) = Some step_update_value /\
  field step_update_value "operation" = JString "UPDATE" /\
  field step_update_value "data" = step_update_data /\
  emissions (fst (on_notification sample_JSON_parse custom_update_msg)) =
    [Emit (Room "custom_channel") "postgres_changes"
       (JObject [("event", JString "UPDATE");
                 ("schema", JString "public");
                 ("table", JString "unknown");
                 ("new", step_update_data);
                 ("old", JNull);
                 ("channel", JString "custom_channel")])] /\
  JNull <> (if strict_eq_string (JString "UPDATE") "INSERT"
            then JNull else step_update_data).
Proof.
  repeat split; try reflexivity. vm_compute. discriminate.
Qed.


Lemma C5_witness_custom_channel :
  exists props,
    emissions (fst (on_notification sample_JSON_parse custom_no_operation_msg)) =
    [Emit (Room "custom_channel") "postgres_changes" (JObject props)] /\
    own_property "event" props = Some (JString "UNKNOWN").
Proof.
  destruct (C5_broadcast_whatever_the_operation sample_JSON_parse
              custom_no_operation_msg no_operation_value eq_refl eq_refl)
    as [_ H].
  destruct H as (props & Hprops & Hfalsy & _).
  - cbn. intros [H|[H|[H|[H|[]]]]]; discriminate.
  - exists props. split; [exact Hprops | apply Hfalsy; reflexivity].
Defined.

(** The payload [{"data":{}}] on conversion_changes has no operation: the
    event is broadcast, but what it carries as [event] is undefined, not
    "UNKNOWN". *)
Lemma C5_counterexample_known_channel :
  sample_JSON_parse (payload_text no_operation_msg) = Some no_operation_value /\
  field no_operation_value "operation" = JUndefined /\
  emissions (fst (on_notification sample_JSON_parse no_operation_msg)) =
    [Emit (Room "conversions") "postgres_changes"
       (JObject [("event", JUndefined);
                 ("schema", JString "public");
                 ("table", JString "Conversion");
                 ("new", JObject []);
                 ("old", JObject [])])] /\
  (@JUndefined ZNumber) <> JString "UNKNOWN".
Proof.
  repeat split; try reflexivity. discriminate.
Qed.

Lemma C10_witness_test_message :
  emissions (fst (on_notification sample_JSON_parse test_msg)) =
  [Emit Everyone "test_notification" (JObject [("message", step_update_value)])].
Proof.
  refine (proj1 (C10_test_channel_to_everyone sample_JSON_parse test_msg _)
                step_update_value _ _); reflexivity.
Defined.

Lemma C6_witness_one_listener_after_reconnect :
  exists s cl,
    run sample_JSON_parse constructed (start_succeeds ++ one_error_then_reconnect)
      = Some s /\
    nth_error (clients s) 0 = Some cl /\
    notification_listeners cl <= 1.
Proof.
  destruct (C6_a_single_start_registers_once sample_JSON_parse) as (_ & Hone & _).
  eexists. eexists. split; [vm_compute; reflexivity|]. split; [reflexivity|].
  refine (proj1 (Hone (start_succeeds ++ one_error_then_reconnect)%list _ 0 _
                      step_update_msg _ _ _)); vm_compute; reflexivity.
Defined.

(** A second call of [setupPgNotifications] is not a no-op.  On the
    listening server it leaves a [connect()] pending; if the pg client lets
    that and the LISTEN statements through, the channels are registered
    twice and there are two listeners, and if it rejects, a retry is
    scheduled.  The same happens without any direct call: after two [error]
    events in a row the second reconnect starts while the first is still
    connecting, both run on the last client, and a single source event is
    then emitted twice. *)
Lemma C6_counterexample_second_start :
  run sample_JSON_parse constructed start_succeeds = Some listening_server /\
  turn (detached setupPgNotifications) listening_server <> listening_server /\
  pending (turn (detached setupPgNotifications) listening_server) =
    [SetupConnect 0] /\
  (exists s,
     run sample_JSON_parse (turn (detached setupPgNotifications) listening_server)
         start_succeeds = Some s /\
     clients s =
       [{| connected := true; ended := false;
           listening := ["conversion_message_changes"; "conversion_changes";
                         "conversion_step_changes"; "test_channel";
                         "conversion_message_changes"; "conversion_changes";
                         "conversion_step_changes"; "test_channel"];
           notification_listeners := 2; error_listeners := 2 |}]) /\
  (exists s,
     run sample_JSON_parse (turn (detached setupPgNotifications) listening_server)
         [Settle 0 rejected] = Some s /\
     timers s = [{| callback := RetrySetup; set_at := 0; delay := 5000 |}]) /\
  (exists s s',
     run sample_JSON_parse constructed
         (start_succeeds ++ two_errors_then_reconnects ++ eight_listens) = Some s /\
     nth_error (clients s) 2 =
       Some {| connected := true; ended := false;
               listening := ["conversion_message_changes"; "conversion_message_changes";
                             "conversion_changes"; "conversion_changes";
                             "conversion_step_changes"; "conversion_step_changes";
                             "test_channel"; "test_channel"];
               notification_listeners := 2; error_listeners := 2 |} /\
     step sample_JSON_parse s (PgNotification 2 step_update_msg) = Some s' /\
     targets (skipn (length (out s)) (out s')) =
       [Room "conversion-steps"; Room "conversion-c1";
        Room "conversion-steps"; Room "conversion-c1"]).
Proof.
  split; [vm_compute; reflexivity|].
  split; [intros H; apply (f_equal pending) in H; discriminate|].
  split; [reflexivity|].
  split; [eexists; split; vm_compute; reflexivity|].
  split; [eexists; split; vm_compute; reflexivity|].
  eexists. eexists.
  split; [vm_compute; reflexivity|].
  split; [reflexivity|].
  split; [vm_compute; reflexivity|].
  vm_compute. reflexivity.
Qed.

Lemma C7_witness_error_failure_timer :
  (exists s', step sample_JSON_parse listening_server (PgError 0) = Some s' /\
     pending s' = [ReconnectEnd 0] /\ timers s' = [] /\ now s' = 0%Z) /\
  (exists s', step sample_JSON_parse constructed (Settle 0 rejected) = Some s' /\
     pending s' = [] /\
     timers s' = [{| callback := RetrySetup; set_at := 0; delay := 5000 |}]) /\
  step sample_JSON_parse retrying_server (TimerFires 0) = None /\
  fixed_delay listening_server /\
  length (timers retrying_server) <= 1 /\
  (exists s',
     run sample_JSON_parse constructed (rounds 3) = Some s' /\
     pending s' = [SetupConnect 0] /\ timers s' = [] /\ now s' = 15000%Z).
Proof.
  destruct (C7_immediate_attempt_then_fixed_retry sample_JSON_parse)
    as (Herror & Hfail & Htimer & Hdelay & Hsingle & Hloop).
  split; [|split; [|split; [|split; [|split]]]]; cycle 4.
  - refine (Hsingle [Settle 0 rejected] retrying_server _ _); vm_compute; reflexivity.
  - exact (Hloop 3 RetrySetup constructed eq_refl eq_refl).
  - exact (Herror listening_server 0 _ 0 eq_refl eq_refl).
  - exact (Hfail constructed 0 (SetupConnect 0) RetrySetup HostError eq_refl eq_refl).
  - refine (proj1 (Htimer retrying_server 0 _ eq_refl) _). reflexivity.
  - refine (Hdelay start_succeeds listening_server _). vm_compute. reflexivity.
Defined.

(** The error event itself sets no timer: the attempt starts at once, at the
    same clock value.  And two [error] events in a row, with the database
    down, leave two retries scheduled at the same time. *)
Lemma C7_counterexample_no_delay_two_timers :
  (exists s,
     step sample_JSON_parse listening_server (PgError 0) = Some s /\
     timers s = [] /\ pending s = [ReconnectEnd 0] /\
     now s = now listening_server) /\
  (exists s,
     run sample_JSON_parse constructed (start_succeeds ++ two_errors_then_failures)
       = Some s /\
     timers s = [{| callback := RetrySetup; set_at := 0; delay := 5000 |};
                 {| callback := RetrySetup; set_at := 0; delay := 5000 |}] /\
     length (timers s) > 1).
Proof.
  split; eexists; (split; [vm_compute; reflexivity|]);
    repeat split; try reflexivity.
  cbn. lia.
Qed.

Lemma C8_witness_close_on_listening :
  exists s',
    step sample_JSON_parse (turn close listening_server) (Settle 0 resolved)
      = Some s' /\
    pending s' = [] /\ timers s' = [] /\ uncaught s' = [] /\
    clients s' = update_nth 0 has_ended (clients listening_server) /\
    httpClosed s' = true.
Proof.
  destruct (C8_close_releases_the_current_client_and_cancels_nothing
              sample_JSON_parse) as (_ & _ & Hend).
  destruct (Hend (turn close listening_server) 0 0 (Normal tt) eq_refl)
    as (s' & Hstep & Hpd & Htm & _ & Hun & Hcs & Hhttp).
  exists s'. repeat split; assumption.
Defined.

(** The retry scheduled by a failed start is still there when the shutdown
    has completed, and five seconds later it fires and calls [connect()]
    again.  And a reconnect attempt that is suspended when [close] is called
    goes on afterwards: it constructs a new client and connects it, and that
    connection is never released. *)
Lemma C8_counterexample_retry_survives_close :
  (exists s s',
     run sample_JSON_parse constructed failed_start_then_close = Some s /\
     httpClosed s = true /\ pending s = [] /\
     timers s = [{| callback := RetrySetup; set_at := 0; delay := 5000 |}] /\
     run sample_JSON_parse s [Advance 5000; TimerFires 0] = Some s' /\
     pending s' = [SetupConnect 0]) /\
  (exists s,
     run sample_JSON_parse listening_server close_during_reconnect = Some s /\
     httpClosed s = true /\ pgClient s = 1 /\
     nth_error (clients s) 1 =
       Some {| connected := true; ended := false; listening := [];
               notification_listeners := 0; error_listeners := 0 |} /\
     live_connections s = 1).
Proof.
  split.
  - eexists. eexists. split; [vm_compute; reflexivity|].
    repeat (split; [vm_compute; reflexivity|]). reflexivity.
  - eexists. split; [vm_compute; reflexivity|]. repeat split; reflexivity.
Qed.

Lemma C9_witness_one_error :
  (exists s,
     run sample_JSON_parse constructed (start_succeeds ++ one_error_then_reconnect)
       = Some s /\
     live_connections s <= 1) /\
  (exists s',
     step sample_JSON_parse
          (set_pending [ReconnectEnd 0] listening_server) (Settle 0 (Normal tt))
       = Some s' /\
     clients s' =
       (update_nth 0 has_ended (clients listening_server) ++ [new_Client])%list /\
     pgClient s' = 1).
Proof.
  destruct (C9_one_connection_while_attempts_do_not_overlap sample_JSON_parse)
    as (Hone & Hend).
  split.
  - eexists. split; [vm_compute; reflexivity|].
    refine (Hone (start_succeeds ++ one_error_then_reconnect)%list _ _ _);
      vm_compute; reflexivity.
  - exact (proj1 (Hend (set_pending [ReconnectEnd 0] listening_server) 0 0 eq_refl)).
Defined.

(** Two [error] events in a row: both reconnect attempts end the old client,
    each constructs a client of its own, and both connect. *)
Lemma C9_counterexample_two_live_connections :
  exists s,
    run sample_JSON_parse constructed (start_succeeds ++ two_errors_then_reconnects)
      = Some s /\
    map live (clients s) = [false; true; true] /\
    pgClient s = 2 /\
    live_connections s = 2.
Proof.
  eexists. split; [vm_compute; reflexivity|]. repeat split; reflexivity.
Qed.

(** * Further properties *)

(** ** The events the bridge emits *)

Section EmissionProperties.
Context `{NUM : JSNumber}.
Variable JSON_parse : string -> option JSValue.

Ltac room_changes :=
  repeat (apply Forall_cons; [left; eexists; eexists; split; reflexivity|]);
  apply Forall_nil.

(** One run of the notification listener. *)
Lemma on_notification_shape (msg : Notification) :
  length (emissions (fst (on_notification JSON_parse msg))) <= 2 /\
  Forall (fun e => room_change e \/ test_broadcast (channel msg) e)
         (emissions (fst (on_notification JSON_parse msg))).
Proof.
  destruct (JSON_parse (payload_text msg)) as [p|] eqn:Hparse.
  2:{ rewrite (on_notification_unparsable _ _ Hparse). cbn. split; [lia|constructor]. }
  destruct (nullish p) eqn:Hp.
  { rewrite (on_notification_nullish _ _ _ Hparse Hp). cbn. split; [lia|constructor]. }
  rewrite (on_notification_emissions _ _ _ Hparse).
  rewrite (handlePgNotification_fields _ _ Hp). cbv zeta.
  destruct (String.eqb (channel msg) "conversion_message_changes");
    [|destruct (String.eqb (channel msg) "conversion_changes");
      [|destruct (String.eqb (channel msg) "conversion_step_changes");
        [|destruct (String.eqb (channel msg) "test_channel") eqn:Htest]]].
  - unfold handleConversionMessageChange. handler_cases (field p "data");
      (split; [lia | room_changes]).
  - cbn. split; [lia | room_changes].
  - unfold handleConversionStepChange. handler_cases (field p "data");
      (split; [lia | room_changes]).
  - cbn. split; [lia|]. apply Forall_cons; [|apply Forall_nil].
    right. eexists. split; [reflexivity|]. apply String.eqb_eq. exact Htest.
  - cbn. split; [lia | room_changes].
Qed.

Lemma conversion_prefix (s t : string) :
  "conversion-" ++ s = "conversion-" ++ t <-> s = t.
Proof. split; [intros H; cbn in H; inversion H; reflexivity | intros ->; reflexivity]. Qed.

Lemma Forall_concat_repeat {A} (P : A -> Prop) (l : list A) (n : nat) :
  Forall P l -> Forall P (concat (repeat l n)).
Proof.
  intros Hl. induction n as [|n IH]; simpl; [constructor|].
  apply Forall_app. split; assumption.
Qed.

Lemma length_concat_repeat {A} (l : list A) (n : nat) :
  length (concat (repeat l n)) = n * length l.
Proof.
  induction n as [|n IH]; simpl; [reflexivity|].
  rewrite length_app, IH. reflexivity.
Qed.

(** X1.  A message that arrives at a source client runs each notification
    listener of that client once, and what the bridge emits for it is what
    one run emits, once for each listener: at most two Socket.IO events for
    each listener, each of them either a [postgres_changes] event sent to a
    room, whose body has the schema "public", or, on the channel
    test_channel only, the [test_notification] broadcast.  A client without
    a notification listener emits nothing. *)
Theorem emissions_shape (s : Server) (c : nat) (cl : Client) (msg : Notification) :
  nth_error (clients s) c = Some cl ->
  exists s' t,
    step JSON_parse s (PgNotification c msg) = Some s' /\
    out s' = (out s ++ t)%list /\
    emissions t = concat (repeat (emissions (fst (on_notification JSON_parse msg)))
                                 (notification_listeners cl)) /\
    length (emissions (fst (on_notification JSON_parse msg))) <= 2 /\
    length (emissions t) <= 2 * notification_listeners cl /\
    Forall (fun e => room_change e \/ test_broadcast (channel msg) e) (emissions t) /\
    (notification_listeners cl = 0 -> t = []).
Proof.
  intros Hc. destruct (on_notification_shape msg) as [Hlen Hall].
  eexists. eexists. split; [apply (step_PgNotification _ _ _ _ _ Hc)|].
  split; [destruct s; reflexivity|].
  split; [apply emissions_repeat|].
  split; [exact Hlen|].
  rewrite emissions_repeat. split; [|split].
  - rewrite length_concat_repeat. nia.
  - apply Forall_concat_repeat. exact Hall.
  - intros ->. reflexivity.
Qed.

(** X2.  The derived room of a message or step change is "conversion-"
    followed by the rendered id.  It is never the room "conversions", but it
    is one of the static rooms "conversion-messages" and "conversion-steps"
    exactly when the id renders as "messages" or as "steps". *)
Theorem derived_room_overlap (msg : Notification) (p : JSValue) (static s : string) :
  (channel msg = "conversion_message_changes" /\ static = "conversion-messages") \/
  (channel msg = "conversion_step_changes" /\ static = "conversion-steps") ->
  JSON_parse (payload_text msg) = Some p ->
  nullish p = false ->
  truthy (field (field p "data") "conversionId") = true ->
  ToString (field (field p "data") "conversionId") = Some s ->
  exists derived,
    targets (fst (on_notification JSON_parse msg)) = [Room static; Room derived] /\
    derived <> "conversions" /\
    (derived = "conversion-messages" <-> s = "messages") /\
    (derived = "conversion-steps" <-> s = "steps").
Proof.
  intros Hch Hparse Hp Hk Hs. exists ("conversion-" ++ s).
  split; [|split; [|split]].
  - rewrite (on_notification_targets _ _ _ Hparse).
    rewrite (handlePgNotification_fields _ _ Hp). cbv zeta.
    destruct Hch as [[Hc ->]|[Hc ->]]; rewrite Hc; cbn [String.eqb Ascii.eqb Bool.eqb].
    + unfold handleConversionMessageChange. handler_cases (field p "data").
      all: try discriminate. all: try (rewrite (field_nullish _ _ Hnullish) in Hk; discriminate).
      inversion Hs; reflexivity.
    + unfold handleConversionStepChange. handler_cases (field p "data").
      all: try discriminate. all: try (rewrite (field_nullish _ _ Hnullish) in Hk; discriminate).
      inversion Hs; reflexivity.
  - cbn. intros H. inversion H.
  - apply (conversion_prefix s "messages").
  - apply (conversion_prefix s "steps").
Qed.
End EmissionProperties.

(** ** Listeners and registered channels *)

Section RegistrationProperties.
Context `{NUM : JSNumber}.
Variable JSON_parse : string -> option JSValue.

(** X3.  The event loop sees no exception as long as every [error] event
    comes from a client that has an [error] listener: no notification,
    settled promise, timer or shutdown request makes the server throw. *)
Theorem nothing_uncaught (evs : list Event) (s s' : Server) :
  errors_are_heard JSON_parse s evs = true ->
  run JSON_parse s evs = Some s' ->
  uncaught s' = uncaught s.
Proof.
  revert s. induction evs as [|ev evs IH]; intros s Hheard Hrun; cbn in *.
  - inversion Hrun; reflexivity.
  - apply andb_prop in Hheard as [H1 H2].
    destruct (step JSON_parse s ev) as [s1|] eqn:Hstep; [|discriminate].
    rewrite (IH s1 H2 Hrun).
    destruct (step_uncaught JSON_parse s s1 ev Hstep) as [H|(c & cl & -> & Hc & Hn & _)];
      [exact H|].
    rewrite Hc, Hn in H1. discriminate.
Qed.

Lemma listening_of_update_incl (c : nat) (f : Client -> Client) (cs : list Client) (pg : nat) :
  (forall x, incl (listening x) (listening (f x))) ->
  incl (listening_of cs pg) (listening_of (update_nth c f cs) pg).
Proof.
  intros Hf. unfold listening_of.
  destruct (nth_error cs pg) as [x|] eqn:Hx; [|intros y []].
  destruct (nth_error (update_nth c f cs) pg) as [y|] eqn:Hy.
  - apply nth_error_update_nth in Hy as [x' [Hx' [[_ ->]|[_ ->]]]];
      rewrite Hx in Hx'; inversion Hx'; subst; [apply incl_refl | apply Hf].
  - apply nth_error_None in Hy. rewrite update_nth_length in Hy.
    apply nth_error_None in Hy. congruence.
Qed.

Lemma registered_update (c : nat) (f : Client -> Client) (cs : list Client) :
  (forall x, incl (listening x) (listening (f x))) ->
  (forall x, notification_listeners (f x) = notification_listeners x) ->
  (forall i cl, nth_error cs i = Some cl -> 1 <= notification_listeners cl ->
                incl listen_channels (listening cl)) ->
  forall i cl, nth_error (update_nth c f cs) i = Some cl ->
               1 <= notification_listeners cl ->
               incl listen_channels (listening cl).
Proof.
  intros Hl Hn H i cl Hi Hcl.
  apply nth_error_update_nth in Hi as [x [Hx [[_ ->]|[_ ->]]]].
  - exact (H _ _ Hx Hcl).
  - rewrite Hn in Hcl. eapply incl_tran; [exact (H _ _ Hx Hcl) | apply Hl].
Qed.

Lemma in_order_weaken (cs cs' : list Client) (pg : nat) (l : list Await) :
  incl (listening_of cs pg) (listening_of cs' pg) ->
  Forall (listens_in_order cs pg) l -> Forall (listens_in_order cs' pg) l.
Proof.
  intros Hincl. apply Forall_impl. intros [c|c ch rest|c|c]; cbn; auto.
  intros [-> (done & Heq & Hdone)]. split; [reflexivity|].
  exists done. split; [exact Heq|]. eapply incl_tran; eauto.
Qed.

Lemma in_order_no_attempt (cs : list Client) (pg : nat) (l : list Await) :
  length (filter attempt l) = 0 -> Forall (listens_in_order cs pg) l.
Proof.
  intros H. apply filter_length_0 in H. eapply Forall_impl; [|exact H].
  intros [] Hf; try discriminate; exact I.
Qed.

Lemma registered_current (cs : list Client) (pg : nat) (ch : string) (done : list string)
    (f g : Client -> Client) :
  (forall x, listening (f x) = listening x) ->
  (forall x, listening (g x) = listening x) ->
  listen_channels = (done ++ [ch])%list ->
  incl done (listening_of cs pg) ->
  (forall i cl, nth_error cs i = Some cl -> 1 <= notification_listeners cl ->
                incl listen_channels (listening cl)) ->
  forall i cl,
    nth_error (update_nth pg f (update_nth pg g (update_nth pg (has_listened ch) cs))) i
      = Some cl ->
    1 <= notification_listeners cl ->
    incl listen_channels (listening cl).
Proof.
  intros Hf Hg Heq Hdone H i cl Hi Hcl.
  apply nth_error_update_nth in Hi as [x1 [Hx1 [[Hne1 E1]|[E0 E1]]]].
  - subst cl.
    apply nth_error_update_nth in Hx1 as [x2 [Hx2 [[_ E2]|[E0 _]]]]; [|contradiction].
    subst x1.
    apply nth_error_update_nth in Hx2 as [x3 [Hx3 [[_ E3]|[E0 _]]]]; [|contradiction].
    subst x2. exact (H _ _ Hx3 Hcl).
  - subst i cl.
    apply nth_error_update_nth in Hx1 as [x2 [Hx2 [[Hne _]|[_ E2]]]]; [contradiction|].
    subst x1.
    apply nth_error_update_nth in Hx2 as [x3 [Hx3 [[Hne _]|[_ E3]]]]; [contradiction|].
    subst x2. rewrite Hf, Hg. cbn. rewrite Heq.
    unfold listening_of in Hdone. rewrite Hx3 in Hdone.
    intros y Hy. apply in_app_iff in Hy as [Hy|Hy]; apply in_app_iff; auto.
Qed.

Lemma step_fully_registered (s s' : Server) (ev : Event) :
  single_attempt s -> fully_registered s -> one_at_a_time s ev = true ->
  step JSON_parse s ev = Some s' -> fully_registered s'.
Proof.
  intros (Hpg & _ & Hout & Hcur) (Hreg & Hord) Hseq Hstep.
  destruct s as [cs pg pd tm nw ou hc un].
  unfold fully_registered, outstanding in *. cbn in Hpg, Hout, Hcur, Hreg, Hord.
  destruct ev as [i result|c|c msg|i|ms|].
  - cbn in Hstep. destruct (nth_error pd i) as [a|] eqn:Ha; [|discriminate].
    inversion Hstep; subst s'; clear Hstep.
    pose proof (remove_nth_filter_length attempt pd i a Ha) as Hcount.
    pose proof (remove_nth_Forall _ _ i Hord) as Hrest.
    assert (Ha1 : on_client pg a)
      by (rewrite Forall_forall in Hcur; apply Hcur; eapply nth_error_In; eauto).
    assert (Ha2 : listens_in_order cs pg a)
      by (rewrite Forall_forall in Hord; apply Hord; eapply nth_error_In; eauto).
    destruct a as [c|c ch rest|c|c]; destruct result as [[]|e]; cbn in *.
    + split.
      * apply registered_update; auto. intros x; apply incl_refl.
      * apply Forall_app. split.
        -- eapply in_order_weaken; [|exact Hrest].
           apply listening_of_update_incl. intros x; apply incl_refl.
        -- constructor; [|constructor]. split; [reflexivity|].
           exists []. split; [reflexivity | intros y []].
    + split; assumption.
    + destruct Ha2 as [-> (done & Heq & Hdone)].
      destruct rest as [|ch' rest]; cbn.
      * split.
        -- eapply registered_current; eauto.
        -- apply in_order_no_attempt. lia.
      * split.
        -- apply registered_update; auto. intros x; cbn; apply incl_appl, incl_refl.
        -- apply Forall_app. split.
           ++ eapply in_order_weaken; [|exact Hrest].
              apply listening_of_update_incl. intros x; cbn; apply incl_appl, incl_refl.
           ++ constructor; [|constructor]. split; [reflexivity|].
              exists (done ++ [ch])%list. split; [rewrite <- app_assoc; exact Heq|].
              unfold listening_of in *. 
              destruct (nth_error cs pg) as [x|] eqn:Hx.
              ** destruct (nth_error (update_nth pg (has_listened ch) cs) pg) as [y|] eqn:Hy.
                 --- apply nth_error_update_nth in Hy as [x' [Hx' [[Hne _]|[_ E]]]];
                       [contradiction|].
                     rewrite Hx in Hx'. inversion Hx'; subst. cbn.
                     intros z Hz. apply in_app_iff in Hz as [Hz|Hz]; apply in_app_iff; auto.
                 --- apply nth_error_None in Hy. rewrite update_nth_length in Hy. lia.
              ** apply nth_error_None in Hx. lia.
    + split; assumption.
    + split.
      * intros j cl Hj Hcl. apply nth_error_snoc in Hj as [Hj|[_ ->]]; [|cbn in Hcl; lia].
        revert j cl Hj Hcl. apply registered_update; auto. intros x; apply incl_refl.
      * apply Forall_app. split; [|repeat constructor].
        apply in_order_no_attempt. lia.
    + split; assumption.
    + split.
      * apply registered_update; auto. intros x; apply incl_refl.
      * eapply in_order_weaken; [|exact Hrest].
        apply listening_of_update_incl. intros x; apply incl_refl.
    + split; assumption.
  - cbn in Hstep, Hseq. unfold outstanding in Hseq. cbn in Hseq.
    destruct (nth_error cs c) as [cl|]; [|discriminate].
    destruct (error_listeners cl) as [|[|n]]; cbn in Hseq; [| |discriminate];
      inversion Hstep; subst s'; clear Hstep; cbn.
    + split; assumption.
    + split; [assumption|]. apply Forall_app; split; [assumption | repeat constructor].
  - unfold step in Hstep. cbn [clients] in Hstep.
    destruct (nth_error cs c) as [cl|] eqn:Hc; [|discriminate].
    unfold turn in Hstep.
    rewrite each_listener_lift in Hstep by apply on_notification_normal.
    inversion Hstep; subst s'; clear Hstep; cbn. split; assumption.
  - cbn in Hstep. destruct (nth_error tm i) as [t|] eqn:Ht; [|discriminate].
    destruct (due t <=? nw)%Z; [|discriminate].
    inversion Hstep; subst s'; clear Hstep.
    destruct (callback t); cbn; (split; [assumption|]);
      (apply Forall_app; split; [assumption | repeat constructor]).
  - cbn in Hstep. destruct (0 <=? ms)%Z; [|discriminate].
    inversion Hstep; subst s'; clear Hstep; cbn. split; assumption.
  - cbn in Hstep. inversion Hstep; subst s'; clear Hstep; cbn.
    split; [assumption|]. apply Forall_app; split; [assumption | repeat constructor].
Qed.

Lemma fully_registered_constructed : fully_registered constructed.
Proof.
  split.
  - intros [|[|i]] cl Hi Hcl; cbn in Hi; try discriminate.
    inversion Hi; subst. cbn in Hcl. lia.
  - repeat constructor.
Qed.

(** X4.  The notification listener is installed last: as long as attempts
    do not overlap, a client that has a notification listener has all four
    channels registered. *)
Theorem a_listener_means_all_four_channels (evs : list Event) (s : Server) :
  attempts_do_not_overlap JSON_parse constructed evs = true ->
  run JSON_parse constructed evs = Some s ->
  forall c cl, nth_error (clients s) c = Some cl ->
               1 <= notification_listeners cl ->
               incl listen_channels (listening cl).
Proof.
  intros Hseq Hrun.
  assert (H : single_attempt s /\ fully_registered s).
  { revert Hseq Hrun.
    generalize single_attempt_constructed fully_registered_constructed.
    generalize constructed as s0. revert s.
    induction evs as [|ev evs IH]; intros s s0 H1 H2 Hseq Hrun; cbn in *.
    - inversion Hrun; subst; auto.
    - apply andb_prop in Hseq as [Ha Hb].
      destruct (step JSON_parse s0 ev) as [s1|] eqn:Hstep; [|discriminate].
      eapply (IH s s1); eauto.
      + eapply step_single_attempt; eauto.
      + eapply step_fully_registered; eauto. }
  destruct H as [_ [Hreg _]]. exact Hreg.
Qed.
End RegistrationProperties.

(** ** The Socket.IO side *)

Section HubProperties.
Context `{NUM : JSNumber}.

(** *** Sets and maps *)

Lemma Set_has_In (x : string) (s : list string) : Set_has x s = true <-> In x s.
Proof.
  unfold Set_has. rewrite existsb_exists. split.
  - intros [y [Hy Heq]]. apply String.eqb_eq in Heq. subst. exact Hy.
  - intros H. exists x. split; [exact H | apply String.eqb_refl].
Qed.

Lemma Set_has_not_In (x : string) (s : list string) : Set_has x s = false <-> ~ In x s.
Proof.
  rewrite <- Set_has_In. destruct (Set_has x s); split; intros H; congruence.
Qed.

Lemma In_Set_add (x y : string) (s : list string) :
  In y (Set_add x s) <-> In y s \/ y = x.
Proof.
  unfold Set_add. destruct (Set_has x s) eqn:Hx.
  - apply Set_has_In in Hx. split; [auto | intros [H| ->]; assumption].
  - rewrite in_app_iff. cbn. intuition.
Qed.

Lemma In_Set_delete (x y : string) (s : list string) :
  In y (Set_delete x s) <-> In y s /\ y <> x.
Proof.
  unfold Set_delete. rewrite filter_In, negb_true_iff, String.eqb_neq. reflexivity.
Qed.

Lemma NoDup_Set_delete (x : string) (s : list string) : NoDup s -> NoDup (Set_delete x s).
Proof. apply NoDup_filter. Qed.

Lemma Map_get_set {V} (k k' : string) (v : V) (m : list (string * V)) :
  Map_get k (Map_set k' v m) = if String.eqb k' k then Some v else Map_get k m.
Proof.
  induction m as [|[k0 v0] m IH]; cbn.
  - reflexivity.
  - destruct (String.eqb k0 k') eqn:E0; cbn.
    + apply String.eqb_eq in E0. subst k0. destruct (String.eqb k' k); reflexivity.
    + destruct (String.eqb k0 k) eqn:E1; [|exact IH].
      apply String.eqb_eq in E1. subst k0.
      rewrite String.eqb_sym in E0. rewrite E0. reflexivity.
Qed.

Lemma Map_get_delete {V} (k k' : string) (m : list (string * V)) :
  Map_get k (Map_delete k' m) = if String.eqb k' k then None else Map_get k m.
Proof.
  unfold Map_delete. induction m as [|[k0 v0] m IH]; cbn.
  - destruct (String.eqb k' k); reflexivity.
  - destruct (String.eqb k0 k') eqn:E0; cbn.
    + apply String.eqb_eq in E0. subst k0. rewrite IH.
      destruct (String.eqb k' k); reflexivity.
    + rewrite IH. destruct (String.eqb k0 k) eqn:E1; [|reflexivity].
      apply String.eqb_eq in E1. subst k0.
      rewrite String.eqb_sym in E0. rewrite E0. reflexivity.
Qed.

Lemma Map_get_keys {V} (k : string) (m : list (string * V)) :
  (exists v, Map_get k m = Some v) <-> In k (map fst m).
Proof.
  induction m as [|[k0 v0] m IH]; cbn.
  - split; [intros [v H]; discriminate | intros []].
  - destruct (String.eqb k0 k) eqn:E.
    + apply String.eqb_eq in E. split; eauto.
    + apply String.eqb_neq in E. rewrite IH. intuition.
Qed.

Lemma Map_get_In {V} (k : string) (v : V) (m : list (string * V)) :
  Map_get k m = Some v -> In (k, v) m.
Proof.
  induction m as [|[k0 v0] m IH]; cbn; [discriminate|].
  destruct (String.eqb k0 k) eqn:E; intros H.
  - apply String.eqb_eq in E. inversion H; subst. auto.
  - auto.
Qed.

Lemma In_Map_get {V} (k : string) (v : V) (m : list (string * V)) :
  NoDup (map fst m) -> In (k, v) m -> Map_get k m = Some v.
Proof.
  induction m as [|[k0 v0] m IH]; cbn; intros Hnd Hin; [contradiction|].
  inversion Hnd as [|? ? Hnot Hnd']; subst.
  destruct Hin as [Heq|Hin].
  - inversion Heq; subst. rewrite String.eqb_refl. reflexivity.
  - destruct (String.eqb k0 k) eqn:E; [|auto].
    apply String.eqb_eq in E. subst k0. exfalso. apply Hnot.
    apply (in_map fst) in Hin. exact Hin.
Qed.

Lemma keys_Map_set {V} (k : string) (v : V) (m : list (string * V)) :
  map fst (Map_set k v m) =
  if Set_has k (map fst m) then map fst m else (map fst m ++ [k])%list.
Proof.
  unfold Set_has. induction m as [|[k0 v0] m IH]; cbn; [reflexivity|].
  rewrite (String.eqb_sym k k0).
  destruct (String.eqb k0 k) eqn:E; cbn.
  - apply String.eqb_eq in E. subst. reflexivity.
  - rewrite IH. destruct (existsb (String.eqb k) (map fst m)); reflexivity.
Qed.

Lemma keys_Map_delete {V} (k : string) (m : list (string * V)) :
  map fst (Map_delete k m) = Set_delete k (map fst m).
Proof.
  unfold Map_delete, Set_delete.
  induction m as [|[k0 v0] m IH]; cbn; [reflexivity|].
  destruct (String.eqb k0 k); cbn; rewrite IH; reflexivity.
Qed.

Lemma In_Map_set {V} (k r : string) (v x : V) (m : list (string * V)) :
  In (r, x) (Map_set k v m) -> (r = k /\ x = v) \/ In (r, x) m.
Proof.
  induction m as [|[k0 v0] m IH]; cbn.
  - intros [H|[]]. inversion H; auto.
  - destruct (String.eqb k0 k); cbn; intros [H|H]; auto.
    + inversion H; auto.
    + destruct (IH H); auto.
Qed.

Lemma In_Map_delete {V} (k : string) (kv : string * V) (m : list (string * V)) :
  In kv (Map_delete k m) -> In kv m.
Proof. unfold Map_delete. rewrite filter_In. tauto. Qed.

(** *** Rooms *)

Lemma members_join (id r r' x : string) (rms : list (string * list string)) :
  In x (members r (adapter_join id r' rms)) <->
  In x (members r rms) \/ (r = r' /\ x = id).
Proof.
  unfold adapter_join, members at 1. rewrite Map_get_set.
  destruct (String.eqb r' r) eqn:E.
  - apply String.eqb_eq in E. subst r'. rewrite In_Set_add. intuition.
  - apply String.eqb_neq in E. fold (members r rms). intuition congruence.
Qed.

Lemma members_leave (id r r' x : string) (rms : list (string * list string)) :
  In x (members r (adapter_leave id r' rms)) <->
  In x (members r rms) /\ ~ (r = r' /\ x = id).
Proof.
  unfold adapter_leave.
  destruct (Map_get r' rms) as [ids|] eqn:Hr'.
  - assert (Hd : forall y, In y (Set_delete id ids) <-> In y ids /\ y <> id)
      by (intros y; apply In_Set_delete).
    destruct (Set_delete id ids) as [|y l]; unfold members at 1.
    + rewrite Map_get_delete. destruct (String.eqb r' r) eqn:E.
      * apply String.eqb_eq in E. subst r'. unfold members. rewrite Hr'.
        split; [intros [] | intros [Hin Hne]].
        apply (Hd x). split; [exact Hin | intros ->; apply Hne; auto].
      * apply String.eqb_neq in E. fold (members r rms). intuition congruence.
    + rewrite Map_get_set. destruct (String.eqb r' r) eqn:E.
      * apply String.eqb_eq in E. subst r'. unfold members. rewrite Hr'.
        rewrite (Hd x). intuition congruence.
      * apply String.eqb_neq in E. fold (members r rms). intuition congruence.
  - split; [|tauto]. intros H. split; [exact H|].
    intros [-> ->]. unfold members in H. rewrite Hr' in H. exact H.
Qed.

Lemma members_leave_each (id r x : string) (l : list string)
    (rms : list (string * list string)) :
  In x (members r (fold_left (fun rs room => adapter_leave id room rs) l rms)) <->
  In x (members r rms) /\ ~ (In r l /\ x = id).
Proof.
  revert rms. induction l as [|r' l IH]; intros rms; cbn.
  - tauto.
  - rewrite IH, members_leave. intuition.
Qed.

Lemma members_leave_all (id r x : string) (rms : list (string * list string)) :
  In x (members r (adapter_leave_all id rms)) <-> In x (members r rms) /\ x <> id.
Proof.
  unfold adapter_leave_all. rewrite members_leave_each.
  split; intros [Hin Hne]; split; auto.
  - intros ->. apply Hne. split; [|reflexivity].
    unfold members in Hin. destruct (Map_get r rms) as [ids|] eqn:Hr; [|contradiction].
    apply in_map_iff. exists (r, ids). split; [reflexivity|].
    apply filter_In. split; [apply Map_get_In; exact Hr|].
    apply Set_has_In. exact Hin.
  - intros [_ ->]. apply Hne. reflexivity.
Qed.

Lemma NoDup_Set_add (x : string) (s : list string) : NoDup s -> NoDup (Set_add x s).
Proof.
  intros H. unfold Set_add. destruct (Set_has x s) eqn:Hx; [exact H|].
  apply Set_has_not_In in Hx. apply NoDup_app; repeat split; auto.
  - constructor; [intros [] | constructor].
  - intros y Hy [<-|[]]. exact (Hx Hy).
Qed.

Lemma members_NoDup (r : string) (rms : list (string * list string)) :
  rooms_ok rms -> NoDup (members r rms).
Proof.
  intros [_ H]. unfold members. destruct (Map_get r rms) as [ids|] eqn:Hr.
  - apply Map_get_In in Hr. apply (H _ _ Hr).
  - constructor.
Qed.

Lemma rooms_ok_join (id r : string) (rms : list (string * list string)) :
  rooms_ok rms -> rooms_ok (adapter_join id r rms).
Proof.
  intros Hok. pose proof (members_NoDup r rms Hok) as Hnd.
  destruct Hok as [Hkeys Hentries]. unfold adapter_join. split.
  - rewrite keys_Map_set. destruct (Set_has r (map fst rms)) eqn:Hr; [exact Hkeys|].
    apply Set_has_not_In in Hr. apply NoDup_app; repeat split; auto.
    + constructor; [intros [] | constructor].
    + intros y Hy [<-|[]]. exact (Hr Hy).
  - intros r' ids Hin. apply In_Map_set in Hin as [[-> ->]|Hin]; [|eauto].
    split; [|apply NoDup_Set_add; exact Hnd].
    intros Hempty. assert (Hid : In id (Set_add id (members r rms)))
      by (apply In_Set_add; auto).
    rewrite Hempty in Hid. exact Hid.
Qed.

Lemma rooms_ok_leave (id r : string) (rms : list (string * list string)) :
  rooms_ok rms -> rooms_ok (adapter_leave id r rms).
Proof.
  intros Hok. unfold adapter_leave.
  destruct (Map_get r rms) as [ids|] eqn:Hr; [|exact Hok].
  destruct Hok as [Hkeys Hentries].
  pose proof (NoDup_Set_delete id ids (proj2 (Hentries _ _ (Map_get_In _ _ _ Hr)))) as Hnd.
  destruct (Set_delete id ids) as [|y l]; split.
  - rewrite keys_Map_delete. apply NoDup_Set_delete. exact Hkeys.
  - intros r' ids' Hin. apply In_Map_delete in Hin. eauto.
  - rewrite keys_Map_set.
    assert (Hhas : Set_has r (map fst rms) = true).
    { apply Set_has_In. apply Map_get_keys. eauto. }
    rewrite Hhas. exact Hkeys.
  - intros r' ids' Hin. apply In_Map_set in Hin as [[-> ->]|Hin]; [|eauto].
    split; [discriminate | exact Hnd].
Qed.

Lemma rooms_ok_leave_all (id : string) (rms : list (string * list string)) :
  rooms_ok rms -> rooms_ok (adapter_leave_all id rms).
Proof.
  unfold adapter_leave_all.
  generalize (map fst (filter (fun kv => Set_has id (snd kv)) rms)) as l.
  intros l. revert rms. induction l as [|r l IH]; intros rms Hok; cbn; [exact Hok|].
  apply IH. apply rooms_ok_leave. exact Hok.
Qed.

(** *** The registry *)

Lemma keys_update_subscriptions (id : string) (f : list string -> list string)
    (cc : list (string * ClientData)) :
  map fst (update_subscriptions id f cc) = map fst cc.
Proof.
  unfold update_subscriptions. destruct (Map_get id cc) as [cd|] eqn:Hid; [|reflexivity].
  rewrite keys_Map_set.
  assert (Hhas : Set_has id (map fst cc) = true)
    by (apply Set_has_In; apply Map_get_keys; eauto).
  rewrite Hhas. reflexivity.
Qed.

Lemma subs_update (id id' : string) (f : list string -> list string)
    (cc : list (string * ClientData)) :
  In id (map fst cc) ->
  subs id' (update_subscriptions id f cc) =
  if String.eqb id id' then f (subs id cc) else subs id' cc.
Proof.
  intros Hin. apply Map_get_keys in Hin as [cd Hcd].
  unfold update_subscriptions, subs. rewrite Hcd, Map_get_set.
  destruct (String.eqb id id'); reflexivity.
Qed.

(** *** The two loops *)

Lemma subscribe_each_frame (id : string) (b : bool) (chs : list string) (h : Hub) :
  sockets (subscribe_each id b chs h) = sockets h /\
  wire (subscribe_each id b chs h) = wire h /\
  map fst (connectedClients (subscribe_each id b chs h)) = map fst (connectedClients h) /\
  (rooms_ok (rooms h) -> rooms_ok (rooms (subscribe_each id b chs h))).
Proof.
  revert h. induction chs as [|ch chs IH]; intros h; cbn.
  - repeat (split; [reflexivity|]). tauto.
  - destruct (IH {| connectedClients :=
                     if b then update_subscriptions id (Set_add ch) (connectedClients h)
                     else connectedClients h;
                    rooms := adapter_join id ch (rooms h);
                    sockets := sockets h; wire := wire h |})
      as (H1 & H2 & H3 & H4).
    cbn in *. split; [exact H1|]. split; [exact H2|]. split.
    + rewrite H3. destruct b; [apply keys_update_subscriptions | reflexivity].
    + intros Hok. apply H4. apply rooms_ok_join. exact Hok.
Qed.

Lemma subscribe_each_members (id : string) (b : bool) (chs : list string) (h : Hub)
    (r x : string) :
  In x (members r (rooms (subscribe_each id b chs h))) <->
  In x (members r (rooms h)) \/ (In r chs /\ x = id).
Proof.
  revert h. induction chs as [|ch chs IH]; intros h; cbn.
  - tauto.
  - rewrite IH. cbn. rewrite members_join. intuition.
Qed.

Lemma subscribe_each_subs (id id' : string) (chs : list string) (h : Hub) (r : string) :
  In id (map fst (connectedClients h)) ->
  In r (subs id' (connectedClients (subscribe_each id true chs h))) <->
  In r (subs id' (connectedClients h)) \/ (In r chs /\ id' = id).
Proof.
  revert h. induction chs as [|ch chs IH]; intros h Hin; cbn.
  - tauto.
  - rewrite IH by (cbn; rewrite keys_update_subscriptions; exact Hin).
    cbn. rewrite (subs_update _ _ _ _ Hin).
    destruct (String.eqb id id') eqn:E.
    + apply String.eqb_eq in E. subst id'. rewrite In_Set_add. intuition.
    + apply String.eqb_neq in E. intuition congruence.
Qed.

Lemma unsubscribe_each_frame (id : string) (b : bool) (chs : list string) (h : Hub) :
  sockets (unsubscribe_each id b chs h) = sockets h /\
  wire (unsubscribe_each id b chs h) = wire h /\
  map fst (connectedClients (unsubscribe_each id b chs h)) = map fst (connectedClients h) /\
  (rooms_ok (rooms h) -> rooms_ok (rooms (unsubscribe_each id b chs h))).
Proof.
  revert h. induction chs as [|ch chs IH]; intros h; cbn.
  - repeat (split; [reflexivity|]). tauto.
  - destruct (IH {| connectedClients :=
                     if b then update_subscriptions id (Set_delete ch) (connectedClients h)
                     else connectedClients h;
                    rooms := adapter_leave id ch (rooms h);
                    sockets := sockets h; wire := wire h |})
      as (H1 & H2 & H3 & H4).
    cbn in *. split; [exact H1|]. split; [exact H2|]. split.
    + rewrite H3. destruct b; [apply keys_update_subscriptions | reflexivity].
    + intros Hok. apply H4. apply rooms_ok_leave. exact Hok.
Qed.

Lemma unsubscribe_each_members (id : string) (b : bool) (chs : list string) (h : Hub)
    (r x : string) :
  In x (members r (rooms (unsubscribe_each id b chs h))) <->
  In x (members r (rooms h)) /\ ~ (In r chs /\ x = id).
Proof.
  revert h. induction chs as [|ch chs IH]; intros h; cbn.
  - tauto.
  - rewrite IH. cbn. rewrite members_leave. intuition.
Qed.

Lemma unsubscribe_each_subs (id id' : string) (chs : list string) (h : Hub) (r : string) :
  In id (map fst (connectedClients h)) ->
  In r (subs id' (connectedClients (unsubscribe_each id true chs h))) <->
  In r (subs id' (connectedClients h)) /\ ~ (In r chs /\ id' = id).
Proof.
  revert h. induction chs as [|ch chs IH]; intros h Hin; cbn.
  - tauto.
  - rewrite IH by (cbn; rewrite keys_update_subscriptions; exact Hin).
    cbn. rewrite (subs_update _ _ _ _ Hin).
    destruct (String.eqb id id') eqn:E.
    + apply String.eqb_eq in E. subst id'. rewrite In_Set_delete. intuition.
    + apply String.eqb_neq in E. intuition congruence.
Qed.

Lemma has_clientData_connected (id : string) (h : Hub) :
  map fst (connectedClients h) = sockets h -> In id (sockets h) ->
  has_clientData id h = true.
Proof.
  intros Hkeys Hin. rewrite <- Hkeys in Hin. apply Map_get_keys in Hin as [cd Hcd].
  unfold has_clientData. rewrite Hcd. reflexivity.
Qed.

(** *** The invariant *)

Lemma hub_ok_empty : hub_ok empty_hub.
Proof.
  unfold hub_ok, rooms_ok. cbn. repeat split; try constructor; try contradiction.
Qed.

Lemma hub_ok_send (e : list HubEffect) (h : Hub) : hub_ok h -> hub_ok (send e h).
Proof. intros H. exact H. Qed.

Lemma hub_ok_connection (id connectedAt timestamp : string) (h : Hub) :
  hub_ok h -> ~ In id (sockets h) -> hub_ok (on_connection id connectedAt timestamp h).
Proof.
  intros (Hnd & Hkeys & Hrooms & Hmem & Hmirror) Hnew.
  unfold on_connection. apply hub_ok_send. unfold hub_ok, subscribed. cbn.
  split; [|split; [|split; [|split]]].
  - apply NoDup_app; repeat split; auto.
    + constructor; [intros [] | constructor].
    + intros y Hy [<-|[]]. exact (Hnew Hy).
  - rewrite keys_Map_set, Hkeys.
    apply Set_has_not_In in Hnew. rewrite Hnew. reflexivity.
  - apply rooms_ok_join. exact Hrooms.
  - intros r x Hx. apply members_join in Hx as [Hx|[_ ->]]; apply in_app_iff.
    + left. eauto.
    + right. cbn. auto.
  - intros id' r Hin Hne. rewrite members_join.
    unfold subs. rewrite Map_get_set.
    destruct (String.eqb id id') eqn:E.
    + apply String.eqb_eq in E. subst id'. cbn. split; [|intros []].
      intros [Hx|[Hr _]]; [|congruence]. apply Hnew. eauto.
    + apply String.eqb_neq in E. apply in_app_iff in Hin as [Hin|[Hin|[]]]; [|congruence].
      fold (subs id' (connectedClients h)). fold (subscribed id' h).
      rewrite <- (Hmirror id' r Hin Hne). intuition congruence.
Qed.

Lemma hub_ok_subscribe (id : string) (chs : list string) (timestamp : string) (h : Hub) :
  hub_ok h -> In id (sockets h) -> hub_ok (on_subscribe id chs timestamp h).
Proof.
  intros (Hnd & Hkeys & Hrooms & Hmem & Hmirror) Hin.
  unfold on_subscribe. apply hub_ok_send.
  set (h0 := send _ h).
  assert (Hb : has_clientData id h = true) by (apply has_clientData_connected; auto).
  change (has_clientData id h) with (has_clientData id h) in *. rewrite Hb.
  destruct (subscribe_each_frame id true chs h0) as (Hs & _ & Hk & Hr).
  unfold hub_ok. rewrite Hs, Hk. cbn.
  split; [exact Hnd|]. split; [exact Hkeys|]. split; [apply Hr; exact Hrooms|]. split.
  - intros r x Hx. apply subscribe_each_members in Hx as [Hx|[_ ->]]; [eauto | exact Hin].
  - intros id' r Hin' Hne. unfold subscribed.
    rewrite subscribe_each_members, subscribe_each_subs
      by (cbn; rewrite Hkeys; exact Hin).
    cbn. fold (subscribed id' h). rewrite <- (Hmirror id' r Hin' Hne). tauto.
Qed.

Lemma hub_ok_unsubscribe (id : string) (chs : list string) (timestamp : string) (h : Hub) :
  hub_ok h -> In id (sockets h) -> hub_ok (on_unsubscribe id chs timestamp h).
Proof.
  intros (Hnd & Hkeys & Hrooms & Hmem & Hmirror) Hin.
  unfold on_unsubscribe. apply hub_ok_send.
  set (h0 := send _ h).
  assert (Hb : has_clientData id h = true) by (apply has_clientData_connected; auto).
  rewrite Hb.
  destruct (unsubscribe_each_frame id true chs h0) as (Hs & _ & Hk & Hr).
  unfold hub_ok. rewrite Hs, Hk. cbn.
  split; [exact Hnd|]. split; [exact Hkeys|]. split; [apply Hr; exact Hrooms|]. split.
  - intros r x Hx. apply unsubscribe_each_members in Hx as [Hx _]. eauto.
  - intros id' r Hin' Hne. unfold subscribed.
    rewrite unsubscribe_each_members, unsubscribe_each_subs
      by (cbn; rewrite Hkeys; exact Hin).
    cbn. fold (subscribed id' h). rewrite <- (Hmirror id' r Hin' Hne). tauto.
Qed.

Lemma hub_ok_disconnect (id reason : string) (h : Hub) :
  hub_ok h -> hub_ok (on_disconnect id reason h).
Proof.
  intros (Hnd & Hkeys & Hrooms & Hmem & Hmirror).
  unfold on_disconnect. apply hub_ok_send. unfold hub_ok, subscribed. cbn.
  split; [|split; [|split; [|split]]].
  - apply NoDup_Set_delete. exact Hnd.
  - rewrite keys_Map_delete, Hkeys. reflexivity.
  - apply rooms_ok_leave_all. exact Hrooms.
  - intros r x Hx. apply members_leave_all in Hx as [Hx Hne].
    apply In_Set_delete. split; eauto.
  - intros id' r Hin Hne. apply In_Set_delete in Hin as [Hin Hid].
    rewrite members_leave_all. unfold subs. rewrite Map_get_delete.
    assert (E : String.eqb id id' = false) by (apply String.eqb_neq; congruence).
    rewrite E. fold (subs id' (connectedClients h)). fold (subscribed id' h).
    rewrite <- (Hmirror id' r Hin Hne). tauto.
Qed.

Lemma hub_step_ok (h h' : Hub) (ev : HubEvent) :
  hub_ok h -> hub_step h ev = Some h' -> hub_ok h'.
Proof.
  intros Hok Hstep. destruct ev; cbn in Hstep;
    destruct (Set_has id (sockets h)) eqn:Hid; try discriminate;
    inversion Hstep; subst h'.
  - apply hub_ok_connection; [exact Hok | apply Set_has_not_In; exact Hid].
  - apply hub_ok_subscribe; [exact Hok | apply Set_has_In; exact Hid].
  - apply hub_ok_unsubscribe; [exact Hok | apply Set_has_In; exact Hid].
  - apply hub_ok_send. exact Hok.
  - apply hub_ok_disconnect. exact Hok.
Qed.

Lemma hub_run_ok (evs : list HubEvent) (h h' : Hub) :
  hub_ok h -> hub_run h evs = Some h' -> hub_ok h'.
Proof.
  revert h. induction evs as [|ev evs IH]; intros h Hok Hrun; cbn in Hrun.
  - inversion Hrun; subst; exact Hok.
  - destruct (hub_step h ev) as [h1|] eqn:Hstep; [|discriminate].
    eapply IH; [eapply hub_step_ok; eauto | exact Hrun].
Qed.

(** *** What the clients and the operators can rely on *)

(** X5.  After any sequence of connections, subscriptions, pings and
    disconnections, the keys of [connectedClients] are the connected
    sockets, each once and in the order they connected, so that
    [connectedClients] of [getStats] and [totalClients] of [getMetrics] are
    the number of connected sockets. *)
Theorem registry_counts_the_connected_sockets (evs : list HubEvent) (h : Hub) (r : Readings) :
  hub_run empty_hub evs = Some h ->
  map fst (connectedClients h) = sockets h /\
  NoDup (sockets h) /\
  stats_connectedClients (getStats h r) = length (sockets h) /\
  totalClients (getMetrics h r) = length (sockets h).
Proof.
  intros Hrun.
  destruct (hub_run_ok evs empty_hub h hub_ok_empty Hrun) as (Hnd & Hkeys & _).
  repeat split; auto; cbn; rewrite <- Hkeys; symmetry; apply length_map.
Qed.

(** X6.  The subscriptions the server has on record for a connected socket
    are the rooms the socket is in, the rooms named after socket ids
    apart. *)
Theorem subscriptions_mirror_rooms (evs : list HubEvent) (h : Hub) (id r : string) :
  hub_run empty_hub evs = Some h ->
  In id (sockets h) -> r <> id ->
  (In id (members r (rooms h)) <-> In r (subscribed id h)).
Proof.
  intros Hrun.
  destruct (hub_run_ok evs empty_hub h hub_ok_empty Hrun) as (_ & _ & _ & _ & Hmirror).
  apply Hmirror.
Qed.

Lemma delivered_to_iff (h : Hub) (id : string) (t : list Effect) :
  delivered_to h id t = true <->
  exists to, In to (targets t) /\ In id (recipients h to).
Proof.
  unfold delivered_to. rewrite existsb_exists.
  split; intros [to [H1 H2]]; exists to; split; auto; apply Set_has_In; exact H2.
Qed.

Lemma delivered_to_ok (h : Hub) (id : string) (t : list Effect) :
  hub_ok h ->
  (~ In id (sockets h) -> delivered_to h id t = false) /\
  (In id (sockets h) ->
   (forall r, In (Room r) (targets t) -> r <> id) ->
   (delivered_to h id t = true <->
    In Everyone (targets t) \/
    exists r, In (Room r) (targets t) /\ In r (subscribed id h))).
Proof.
  intros (_ & _ & _ & Hmem & Hmirror).
  split.
  - intros Hout. destruct (delivered_to h id t) eqn:Hd; [|reflexivity].
    apply delivered_to_iff in Hd as [[|r] [_ Hin]]; cbn in Hin; exfalso; eauto.
  - intros Hin Hrooms. rewrite delivered_to_iff. split.
    + intros [[|r] [Hto Hrec]]; [left; exact Hto|]. right. exists r. split; [exact Hto|].
      apply Hmirror; auto.
    + intros [Hall|[r [Hto Hsub]]].
      * exists Everyone. split; [exact Hall | exact Hin].
      * exists (Room r). split; [exact Hto|]. cbn. apply Hmirror; auto.
Qed.

(** X7.  A broadcast of the bridge reaches a socket that is not connected
    never; it reaches a connected socket exactly when it is sent to
    everyone or to a room the server has on record as one of the socket's
    subscriptions (the rooms named after socket ids apart). *)
Theorem delivery_follows_subscriptions (evs : list HubEvent) (h : Hub) (id : string)
    (t : list Effect) :
  hub_run empty_hub evs = Some h ->
  (~ In id (sockets h) -> delivered_to h id t = false) /\
  (In id (sockets h) ->
   (forall r, In (Room r) (targets t) -> r <> id) ->
   (delivered_to h id t = true <->
    In Everyone (targets t) \/
    exists r, In (Room r) (targets t) /\ In r (subscribed id h))).
Proof.
  intros Hrun. apply delivered_to_ok.
  exact (hub_run_ok evs empty_hub h hub_ok_empty Hrun).
Qed.

(** What [n] runs of a listener send is delivered when there is a run and
    one run is delivered. *)
Lemma delivered_to_repeat (h : Hub) (id : string) (t : list Effect) (n : nat) :
  delivered_to h id (concat (repeat t n)) = true <->
  1 <= n /\ delivered_to h id t = true.
Proof.
  unfold delivered_to. induction n as [|n IH]; simpl.
  - split; [discriminate | intros [H _]; lia].
  - rewrite targets_app, existsb_app, orb_true_iff, IH.
    split; [intros [H|[_ H]]; split; auto; lia | intros [_ H]; left; exact H].
Qed.

(** X8.  From the source client to the sockets: when a notification on
    conversion_changes whose payload decodes to a non-null value arrives at
    a source client, what the server emits for it is delivered to a
    connected socket, whose id is not itself "conversions", exactly when
    that client has a notification listener and the socket is subscribed to
    "conversions".  A notification that arrives before the listener is
    installed reaches no socket. *)
Theorem conversion_changes_reach_the_subscribers
    (JSON_parse : string -> option JSValue) (evs : list HubEvent) (h : Hub)
    (id : string) (s : Server) (c : nat) (cl : Client) (msg : Notification)
    (p : JSValue) :
  hub_run empty_hub evs = Some h ->
  In id (sockets h) -> id <> "conversions" ->
  nth_error (clients s) c = Some cl ->
  channel msg = "conversion_changes" ->
  JSON_parse (payload_text msg) = Some p -> nullish p = false ->
  exists s' t,
    step JSON_parse s (PgNotification c msg) = Some s' /\
    out s' = (out s ++ t)%list /\
    (delivered_to h id t = true <->
     1 <= notification_listeners cl /\ In "conversions" (subscribed id h)) /\
    (notification_listeners cl = 0 -> forall x, delivered_to h x t = false).
Proof.
  intros Hrun Hin Hne Hcl Hc Hparse Hp.
  assert (Ht : targets (fst (on_notification JSON_parse msg)) = [Room "conversions"]).
  { rewrite (on_notification_targets _ _ _ Hparse).
    rewrite (handlePgNotification_fields _ _ Hp), Hc. reflexivity. }
  assert (Hone : delivered_to h id (fst (on_notification JSON_parse msg)) = true <->
                 In "conversions" (subscribed id h)).
  { destruct (delivered_to_ok h id (fst (on_notification JSON_parse msg))
                (hub_run_ok evs empty_hub h hub_ok_empty Hrun)) as [_ H].
    rewrite (H Hin); rewrite Ht.
    - cbn. split.
      + intros [[H1|[]]|[r [[H1|[]] H2]]]; [discriminate|]. inversion H1; subst; exact H2.
      + intros Hsub. right. exists "conversions". auto.
    - intros r [H1|[]]. inversion H1; subst. congruence. }
  eexists. eexists. split; [apply (step_PgNotification _ _ _ _ _ Hcl)|].
  split; [destruct s; reflexivity|]. split.
  - rewrite delivered_to_repeat, Hone. reflexivity.
  - intros Hnone x. rewrite Hnone. reflexivity.
Qed.

Lemma Map_set_same {V} (k : string) (v : V) (m : list (string * V)) :
  Map_get k m = Some v -> Map_set k v m = m.
Proof.
  induction m as [|[k0 v0] m IH]; cbn; [discriminate|].
  destruct (String.eqb k0 k) eqn:E; intros H.
  - apply String.eqb_eq in E. inversion H; subst. reflexivity.
  - rewrite (IH H). reflexivity.
Qed.

Lemma adapter_join_again (id r : string) (rms : list (string * list string)) :
  In id (members r rms) -> adapter_join id r rms = rms.
Proof.
  intros Hin. unfold adapter_join. unfold members in *.
  destruct (Map_get r rms) as [ids|] eqn:Hr; [|contradiction].
  unfold Set_add. apply Set_has_In in Hin. rewrite Hin.
  apply Map_set_same. exact Hr.
Qed.

Lemma add_subscription_again (id ch : string) (cc : list (string * ClientData)) :
  In ch (subs id cc) -> update_subscriptions id (Set_add ch) cc = cc.
Proof.
  intros Hin. unfold update_subscriptions, subs in *.
  destruct (Map_get id cc) as [cd|] eqn:Hid; [|reflexivity].
  unfold Set_add. apply Set_has_In in Hin. rewrite Hin.
  apply Map_set_same. rewrite Hid. destruct cd; reflexivity.
Qed.

Lemma subscribe_each_again (id : string) (b : bool) (chs : list string) (h : Hub) :
  (forall ch, In ch chs ->
     In id (members ch (rooms h)) /\ In ch (subs id (connectedClients h))) ->
  rooms (subscribe_each id b chs h) = rooms h /\
  connectedClients (subscribe_each id b chs h) = connectedClients h.
Proof.
  revert h. induction chs as [|ch chs IH]; intros h Hall; cbn; [auto|].
  destruct (Hall ch (or_introl eq_refl)) as [Hm Hs].
  rewrite (adapter_join_again _ _ _ Hm), (add_subscription_again _ _ _ Hs).
  assert (Hcc : (if b then connectedClients h else connectedClients h) = connectedClients h)
    by (destruct b; reflexivity).
  rewrite Hcc.
  destruct (IH {| connectedClients := connectedClients h; rooms := rooms h;
                  sockets := sockets h; wire := wire h |}) as [H1 H2]; auto.
  intros ch' Hch'. apply Hall. right. exact Hch'.
Qed.

(** X9.  Subscribing a second time to the same channels changes neither
    the rooms nor the recorded subscriptions; the server only logs and
    confirms again. *)
Theorem subscribing_again_changes_nothing (evs : list HubEvent) (h : Hub)
    (id : string) (chs : list string) (t1 t2 : string) :
  hub_run empty_hub evs = Some h ->
  In id (sockets h) ->
  let h1 := on_subscribe id chs t1 h in
  let h2 := on_subscribe id chs t2 h1 in
  rooms h2 = rooms h1 /\ connectedClients h2 = connectedClients h1 /\
  sockets h2 = sockets h1 /\
  wire h2 =
    (wire h1 ++
     [HubLog ("Client " ++ id ++ " subscribing to:") [channel_array chs];
      SocketEmit id "subscription_success"
        (JObject [("channels", channel_array chs); ("timestamp", JString t2)])])%list.
Proof.
  intros Hrun Hin h1 h2.
  destruct (hub_run_ok evs empty_hub h hub_ok_empty Hrun) as (_ & Hkeys & _).
  assert (Hb : has_clientData id h = true) by (apply has_clientData_connected; auto).
  assert (Hall : forall ch, In ch chs ->
            In id (members ch (rooms h1)) /\ In ch (subs id (connectedClients h1))).
  { intros ch Hch. unfold h1, on_subscribe. rewrite Hb. cbn. split.
    - apply subscribe_each_members. right. auto.
    - apply subscribe_each_subs; [cbn; rewrite Hkeys; exact Hin | right; auto]. }
  unfold h2, on_subscribe at 1 2 3 4.
  set (h0 := send _ h1).
  destruct (subscribe_each_again id (has_clientData id h1) chs h0 Hall) as [Hr Hc].
  destruct (subscribe_each_frame id (has_clientData id h1) chs h0) as (Hs & Hw & _).
  cbn. rewrite Hr, Hc, Hs, Hw. cbn. rewrite <- app_assoc. auto.
Qed.

(** X10.  After [subscribe] the socket is in every room it named, has it
    on record, and receives what is sent there; after [unsubscribe] it is in
    none of the rooms it named and no longer receives what is sent to those
    rooms only. *)
Theorem subscribe_joins_and_unsubscribe_leaves (evs : list HubEvent) (h : Hub)
    (id r : string) (chs : list string) (ts : string) (t : list Effect) :
  hub_run empty_hub evs = Some h ->
  In id (sockets h) -> In r chs -> In (Room r) (targets t) ->
  (In id (members r (rooms (on_subscribe id chs ts h))) /\
   In r (subscribed id (on_subscribe id chs ts h)) /\
   delivered_to (on_subscribe id chs ts h) id t = true) /\
  (~ In id (members r (rooms (on_unsubscribe id chs ts h))) /\
   ~ In r (subscribed id (on_unsubscribe id chs ts h)) /\
   ((forall to, In to (targets t) -> exists r', to = Room r' /\ In r' chs) ->
    delivered_to (on_unsubscribe id chs ts h) id t = false)).
Proof.
  intros Hrun Hin Hr Ht.
  destruct (hub_run_ok evs empty_hub h hub_ok_empty Hrun) as (_ & Hkeys & _).
  assert (Hb : has_clientData id h = true) by (apply has_clientData_connected; auto).
  split.
  - assert (Hm : In id (members r (rooms (on_subscribe id chs ts h)))).
    { unfold on_subscribe. cbn. apply subscribe_each_members. right. auto. }
    split; [exact Hm|]. split.
    + unfold subscribed, on_subscribe. rewrite Hb. cbn.
      apply subscribe_each_subs; [cbn; rewrite Hkeys; exact Hin | right; auto].
    + apply delivered_to_iff. exists (Room r). split; [exact Ht | exact Hm].
  - assert (Hm : forall r', In r' chs ->
              ~ In id (members r' (rooms (on_unsubscribe id chs ts h)))).
    { intros r' Hr'. unfold on_unsubscribe. cbn. rewrite unsubscribe_each_members.
      intros [_ Hno]. apply Hno. auto. }
    split; [apply Hm; exact Hr|]. split.
    + unfold subscribed, on_unsubscribe. rewrite Hb. cbn.
      rewrite unsubscribe_each_subs by (cbn; rewrite Hkeys; exact Hin).
      intros [_ Hno]. apply Hno. auto.
    + intros Hall. destruct (delivered_to _ id t) eqn:Hd; [|reflexivity].
      apply delivered_to_iff in Hd as [to [Hto Hrec]].
      destruct (Hall to Hto) as [r' [-> Hr']]. exfalso. exact (Hm r' Hr' Hrec).
Qed.

(** X11.  A disconnection removes the socket from the registry and from
    every room, nothing is delivered to it any more, the client count goes
    down by one, and the other sockets keep their rooms and
    subscriptions. *)
Theorem disconnect_forgets_the_socket (evs : list HubEvent) (h : Hub)
    (id reason : string) :
  hub_run empty_hub evs = Some h ->
  In id (sockets h) ->
  let h' := on_disconnect id reason h in
  ~ In id (sockets h') /\
  has_clientData id h' = false /\
  (forall r, ~ In id (members r (rooms h'))) /\
  (forall t, delivered_to h' id t = false) /\
  S (length (connectedClients h')) = length (connectedClients h) /\
  (forall x r, x <> id ->
     (In x (sockets h') <-> In x (sockets h)) /\
     (In x (members r (rooms h')) <-> In x (members r (rooms h))) /\
     subscribed x h' = subscribed x h).
Proof.
  intros Hrun Hin h'.
  pose proof (hub_run_ok evs empty_hub h hub_ok_empty Hrun) as Hok.
  pose proof (hub_ok_disconnect id reason h Hok) as Hok'.
  destruct Hok as (Hnd & Hkeys & _ & _ & _).
  destruct Hok' as (_ & Hkeys' & _ & Hmem' & _).
  assert (Hout : ~ In id (sockets h'))
    by (cbn; rewrite In_Set_delete; tauto).
  split; [exact Hout|]. split; [|split; [|split; [|split]]].
  - unfold has_clientData. cbn. rewrite Map_get_delete, String.eqb_refl. reflexivity.
  - intros r Hr. apply Hout. exact (Hmem' r id Hr).
  - intros t. destruct (delivered_to h' id t) eqn:Hd; [|reflexivity].
    apply delivered_to_iff in Hd as [[|r] [_ Hrec]]; exfalso; [exact (Hout Hrec)|].
    apply Hout. exact (Hmem' r id Hrec).
  - rewrite <- (length_map fst (connectedClients h')), <- (length_map fst (connectedClients h)).
    fold h' in Hkeys'. rewrite Hkeys', Hkeys. cbn.
    clear - Hnd Hin. induction (sockets h) as [|y l IH]; [contradiction|].
    inversion Hnd as [|? ? Hnot Hnd']; subst. cbn.
    destruct (String.eqb y id) eqn:E; cbn.
    + apply String.eqb_eq in E. subst y. f_equal.
      assert (Hsame : Set_delete id l = l).
      { clear - Hnot. induction l as [|z l IH]; [reflexivity|]. cbn.
        destruct (String.eqb z id) eqn:E.
        - apply String.eqb_eq in E. subst. exfalso. apply Hnot. left. reflexivity.
        - cbn. f_equal. apply IH. intros H. apply Hnot. right. exact H. }
      unfold Set_delete in Hsame. rewrite Hsame. reflexivity.
    + f_equal. apply IH; auto. destruct Hin as [->|Hin]; [|exact Hin].
      rewrite String.eqb_refl in E. discriminate.
  - intros x r Hx. split; [|split].
    + cbn. rewrite In_Set_delete. tauto.
    + cbn. rewrite members_leave_all. tauto.
    + unfold subscribed, subs. cbn. rewrite Map_get_delete.
      assert (E : String.eqb id x = false) by (apply String.eqb_neq; congruence).
      rewrite E. reflexivity.
Qed.

Lemma NoDup_keys_filter {V} (f : string * V -> bool) (m : list (string * V)) :
  NoDup (map fst m) -> NoDup (map fst (filter f m)).
Proof.
  induction m as [|kv m IH]; cbn; intros H; [constructor|].
  inversion H as [|? ? Hnot Hnd]; subst.
  destruct (f kv); cbn; [|auto].
  constructor; [|auto]. intros Hin. apply Hnot.
  apply in_map_iff in Hin as [kv' [Heq Hin]]. apply filter_In in Hin as [Hin _].
  apply in_map_iff. exists kv'. auto.
Qed.

(** X12.  [getChannels] lists each room once, and exactly the rooms that
    have a member and are not a member of themselves, with the sockets in
    them: every listed channel has at least one client, its clients are
    distinct connected sockets, and a recorded subscription of a connected
    socket is listed with the socket among its clients unless the room
    contains a socket of its own name. *)
Theorem getChannels_lists_the_shared_rooms (evs : list HubEvent) (h : Hub) (rd : Readings) :
  hub_run empty_hub evs = Some h ->
  totalChannels (getChannels h rd) = length (listed_channels (getChannels h rd)) /\
  NoDup (map fst (listed_channels (getChannels h rd))) /\
  (forall r info,
     In (r, info) (listed_channels (getChannels h rd)) <->
     members r (rooms h) <> [] /\ ~ In r (members r (rooms h)) /\
     info = {| channel_name := r;
               clientCount := length (members r (rooms h));
               channel_clients := members r (rooms h) |}) /\
  (forall r info,
     In (r, info) (listed_channels (getChannels h rd)) ->
     1 <= clientCount info /\ NoDup (channel_clients info) /\
     incl (channel_clients info) (sockets h)) /\
  (forall id r,
     In id (sockets h) -> r <> id -> In r (subscribed id h) ->
     ~ In r (members r (rooms h)) ->
     exists info, In (r, info) (listed_channels (getChannels h rd)) /\
                  In id (channel_clients info)).
Proof.
  intros Hrun.
  destruct (hub_run_ok evs empty_hub h hub_ok_empty Hrun)
    as (_ & _ & [Hkeys Hentries] & Hmem & Hmirror).
  assert (Hlisted : forall r info,
     In (r, info) (listed (rooms h)) <->
     members r (rooms h) <> [] /\ ~ In r (members r (rooms h)) /\
     info = {| channel_name := r;
               clientCount := length (members r (rooms h));
               channel_clients := members r (rooms h) |}).
  { intros r info. unfold listed. rewrite in_map_iff. split.
    - intros [[r' ids] [Heq Hin]]. cbn in Heq. inversion Heq; subst r' info.
      apply filter_In in Hin as [Hin Hskip]. cbn in Hskip.
      apply negb_true_iff, Set_has_not_In in Hskip.
      pose proof (In_Map_get _ _ _ Hkeys Hin) as Hget.
      unfold members. rewrite Hget.
      split; [apply (Hentries _ _ Hin)|]. split; [exact Hskip | reflexivity].
    - intros (Hne & Hskip & ->). unfold members in *.
      destruct (Map_get r (rooms h)) as [ids|] eqn:Hget; [|contradiction].
      exists (r, ids). split; [reflexivity|].
      apply filter_In. split; [apply Map_get_In; exact Hget|].
      cbn. apply negb_true_iff, Set_has_not_In. exact Hskip. }
  cbn [getChannels totalChannels listed_channels].
  split; [reflexivity|]. split; [|split; [exact Hlisted|split]].
  - unfold listed. rewrite map_map. cbn. apply NoDup_keys_filter. exact Hkeys.
  - intros r info Hin. apply Hlisted in Hin as (Hne & _ & ->). cbn.
    split; [|split].
    + destruct (members r (rooms h)); [contradiction | cbn; lia].
    + apply members_NoDup. split; assumption.
    + intros x Hx. exact (Hmem r x Hx).
  - intros id r Hin Hne Hsub Hskip.
    assert (Hm : In id (members r (rooms h))) by (apply Hmirror; auto).
    eexists. split.
    + apply Hlisted. split; [|split; [exact Hskip | reflexivity]].
      intros Hempty. rewrite Hempty in Hm. exact Hm.
    + exact Hm.
Qed.

(** X13.  [/stats] and [/metrics] describe the same rooms: the names
    [getStats] lists are distinct and are the keys of [clientsPerRoom], each
    once; a name is listed exactly when the room has a member; [totalRooms]
    is their number; and each count is the number of sockets in the room,
    never 0. *)
Theorem stats_and_metrics_agree_on_the_rooms (evs : list HubEvent) (h : Hub) (rd : Readings) :
  hub_run empty_hub evs = Some h ->
  NoDup (stats_rooms (getStats h rd)) /\
  NoDup (map fst (clientsPerRoom (getMetrics h rd))) /\
  (forall r, In r (map fst (clientsPerRoom (getMetrics h rd))) <->
             In r (stats_rooms (getStats h rd))) /\
  (forall r, In r (stats_rooms (getStats h rd)) <-> members r (rooms h) <> []) /\
  totalRooms (getMetrics h rd) = length (stats_rooms (getStats h rd)) /\
  (forall r n, In (r, n) (clientsPerRoom (getMetrics h rd)) ->
               n = length (members r (rooms h)) /\ 1 <= n).
Proof.
  intros Hrun.
  destruct (hub_run_ok evs empty_hub h hub_ok_empty Hrun)
    as (_ & _ & [Hkeys Hentries] & _).
  assert (Hsame : map fst (clientsPerRoom (getMetrics h rd)) = map fst (rooms h))
    by (cbn; rewrite map_map; reflexivity).
  rewrite Hsame. cbn [getStats stats_rooms getMetrics totalRooms clientsPerRoom].
  split; [exact Hkeys|]. split; [exact Hkeys|]. split; [tauto|].
  split; [|split].
  - intros r. rewrite <- Map_get_keys. unfold members. split.
    + intros [ids Hget]. rewrite Hget.
      apply Map_get_In in Hget. apply (Hentries _ _ Hget).
    + destruct (Map_get r (rooms h)) as [ids|]; [eauto|congruence].
  - symmetry. apply length_map.
  - intros r n Hin. apply in_map_iff in Hin as [[r' ids] [Heq Hin]].
    cbn in Heq. inversion Heq; subst r' n.
    unfold members. rewrite (In_Map_get _ _ _ Hkeys Hin). split; [reflexivity|].
    destruct (Hentries _ _ Hin) as [Hne _]. destruct ids; [contradiction | cbn; lia].
Qed.

End HubProperties.

(** ** The HTTP endpoints *)

Section HttpProperties.
Context `{NUM : JSNumber}.

Ltac route req :=
  unfold requestListener;
  destruct (String.eqb (method req) "OPTIONS") eqn:Hoptions;
  [|destruct (String.eqb (url req) "/health") eqn:Hhealth;
    [|destruct (String.eqb (url req) "/stats") eqn:Hstats;
      [|destruct (String.eqb (url req) "/metrics") eqn:Hmetrics;
        [|destruct (String.eqb (url req) "/channels") eqn:Hchannels;
          [|destruct (String.eqb (url req) "/") eqn:Hroot;
            [|destruct (String.eqb (url req) "/info") eqn:Hinfo]]]]]];
  cbn [orb].

(** The answers of the callback. *)
Lemma requestListener_cors (h : Hub) (rd : Readings) (req : Request) :
  let res := requestListener h rd req in
  Map_get "Access-Control-Allow-Origin" (headers res) = Some "*" /\
  Map_get "Access-Control-Allow-Methods" (headers res) = Some "GET, POST, OPTIONS" /\
  Map_get "Access-Control-Allow-Headers" (headers res) = Some "Content-Type" /\
  (method req = "OPTIONS" ->
   statusCode res = 200 /\ res_body res = NoBody /\
   Map_get "Content-Type" (headers res) = None) /\
  (method req <> "OPTIONS" ->
   res_body res <> NoBody /\
   Map_get "Content-Type" (headers res) = Some "application/json").
Proof.
  cbv zeta.
  assert (Hoptions_spec : String.eqb (method req) "OPTIONS" = true <-> method req = "OPTIONS")
    by apply String.eqb_eq.
  route req; cbn [headers statusCode res_body respond_json];
    (split; [reflexivity|split; [reflexivity|split; [reflexivity|split]]]);
    intros Hm;
    try (apply Hoptions_spec in Hm; discriminate);
    try (exfalso; apply Hm, Hoptions_spec; reflexivity);
    (repeat split; try reflexivity; discriminate).
Qed.

Lemma served_not_intercepted (m1 m2 u : string) :
  In u served_urls ->
  intercepted {| method := m1; url := u |} = false /\
  intercepted {| method := m2; url := u |} = false.
Proof.
  unfold served_urls. cbn [In]. intros H.
  decompose [or] H; try contradiction; subst u; split; reflexivity.
Qed.

(** X14.  Every response of the HTTP server that is not Socket.IO's own,
    that is, to a request whose URL does not start with "/socket.io/",
    carries the three CORS headers with the same values, the 404 included.
    Such a request with the method OPTIONS is answered 200 with an empty
    body and no content type, whatever the rest of its URL; every other such
    response has a JSON body and the content type application/json.  The
    requests under "/socket.io/" never reach the callback. *)
Theorem every_response_carries_the_cors_headers (h : Hub) (rd : Readings)
    (req : Request) (res : Response) :
  httpServer_request h rd req = Some res ->
  String.prefix "/socket.io/" (url req) = false /\
  Map_get "Access-Control-Allow-Origin" (headers res) = Some "*" /\
  Map_get "Access-Control-Allow-Methods" (headers res) = Some "GET, POST, OPTIONS" /\
  Map_get "Access-Control-Allow-Headers" (headers res) = Some "Content-Type" /\
  (method req = "OPTIONS" ->
   statusCode res = 200 /\ res_body res = NoBody /\
   Map_get "Content-Type" (headers res) = None) /\
  (method req <> "OPTIONS" ->
   res_body res <> NoBody /\
   Map_get "Content-Type" (headers res) = Some "application/json").
Proof.
  unfold httpServer_request, intercepted, socket_io_path.
  destruct (String.prefix "/socket.io/" (url req)); [discriminate|].
  intros H. inversion H; subst res. split; [reflexivity|].
  apply requestListener_cors.
Qed.

Lemma requestListener_routing (h : Hub) (rd : Readings) (req : Request) :
  method req <> "OPTIONS" ->
  let res := requestListener h rd req in
  (In (url req) served_urls -> statusCode res = 200) /\
  (~ In (url req) served_urls ->
   statusCode res = 404 /\ res_body res = NotFoundBody "Not Found" (url req)) /\
  (forall other, url other = url req -> method other <> "OPTIONS" ->
                 requestListener h rd other = res) /\
  (forall i name path,
     res_body (requestListener h rd {| method := method req; url := "/info" |}) = InfoBody i ->
     In (name, path) (info_endpoints i) ->
     statusCode (requestListener h rd {| method := method req; url := path |}) = 200).
Proof.
  intros Hm. apply String.eqb_neq in Hm. cbv zeta.
  split; [|split; [|split]].
  - intros Hin. route req; try reflexivity; try discriminate.
    exfalso. unfold served_urls in Hin. cbn [In] in Hin.
    repeat match goal with
           | H : String.eqb _ _ = false |- _ => apply String.eqb_neq in H
           end.
    intuition congruence.
  - intros Hout. assert (Hneq : forall u, In u served_urls -> String.eqb (url req) u = false).
    { intros u Hu. apply String.eqb_neq. intros Heq. apply Hout. rewrite Heq. exact Hu. }
    unfold requestListener. rewrite Hm.
    rewrite !Hneq by (unfold served_urls; cbn [In]; auto 10). cbn. auto.
  - intros other Hu Ho. apply String.eqb_neq in Ho.
    unfold requestListener. rewrite Hm, Ho, Hu. reflexivity.
  - intros i name path Hbody Hin. unfold requestListener in *. cbn [method url] in *.
    rewrite Hm in *. cbn in Hbody. inversion Hbody; subst i. cbn in Hin.
    decompose [or] Hin; try contradiction;
      match goal with H : (_, _) = (_, _) |- _ => inversion H; subst end;
      reflexivity.
Qed.

(** X15.  Requests other than OPTIONS whose URL does not start with
    "/socket.io/" are routed by the exact URL and by nothing else: the six
    URLs with a branch are answered 200 by the callback, every other such
    URL (one of the six followed by a query string, say) is answered 404
    with the body [{error: "Not Found", path}], the method plays no part,
    and each endpoint the info document advertises is answered 200.  A URL
    that starts with "/socket.io/" is answered by Socket.IO and not by the
    callback. *)
Theorem routing_is_by_exact_url (h : Hub) (rd : Readings) (req : Request) :
  method req <> "OPTIONS" ->
  (In (url req) served_urls ->
   exists res, httpServer_request h rd req = Some res /\ statusCode res = 200) /\
  (~ In (url req) served_urls ->
   String.prefix "/socket.io/" (url req) = false ->
   exists res, httpServer_request h rd req = Some res /\
               statusCode res = 404 /\
               res_body res = NotFoundBody "Not Found" (url req)) /\
  (String.prefix "/socket.io/" (url req) = true ->
   httpServer_request h rd req = None) /\
  (forall other, url other = url req -> method other <> "OPTIONS" ->
                 httpServer_request h rd other = httpServer_request h rd req) /\
  (forall i name path,
     httpServer_request h rd {| method := method req; url := "/info" |}
       = Some (respond_json 200 (InfoBody i)) ->
     In (name, path) (info_endpoints i) ->
     exists res,
       httpServer_request h rd {| method := method req; url := path |} = Some res /\
       statusCode res = 200).
Proof.
  intros Hm.
  destruct (requestListener_routing h rd req Hm) as (Hserved & Hother & Hmethod & Hinfo).
  split; [|split; [|split; [|split]]].
  - intros Hin. exists (requestListener h rd req). split; [|exact (Hserved Hin)].
    unfold httpServer_request.
    destruct (served_not_intercepted (method req) (method req) (url req) Hin) as [H _].
    destruct req; cbn in *. unfold intercepted in *. cbn in *. rewrite H. reflexivity.
  - intros Hout Hpath. exists (requestListener h rd req).
    split; [|exact (Hother Hout)].
    unfold httpServer_request, intercepted, socket_io_path. rewrite Hpath. reflexivity.
  - intros Hpath. unfold httpServer_request, intercepted, socket_io_path.
    rewrite Hpath. reflexivity.
  - intros other Hu Ho. unfold httpServer_request, intercepted. rewrite Hu.
    rewrite (Hmethod other Hu Ho). reflexivity.
  - intros i name path Hbody Hin.
    assert (Hi : res_body (requestListener h rd {| method := method req; url := "/info" |})
                 = InfoBody i).
    { unfold httpServer_request in Hbody. cbn in Hbody.
      inversion Hbody as [Hres]. rewrite Hres. reflexivity. }
    assert (Hpath : In path served_urls).
    { unfold requestListener in Hi. cbn [method url] in Hi.
      apply String.eqb_neq in Hm. rewrite Hm in Hi. cbn in Hi.
      inversion Hi; subst i. cbn in Hin. unfold served_urls.
      decompose [or] Hin; try contradiction;
        match goal with H : (_, _) = (_, _) |- _ => inversion H; subst end;
        cbn; auto 10. }
    exists (requestListener h rd {| method := method req; url := path |}).
    split; [|exact (Hinfo i name path Hi Hin)].
    unfold httpServer_request.
    destruct (served_not_intercepted (method req) (method req) path Hpath) as [H _].
    rewrite H. reflexivity.
Qed.

(** X16.  After any sequence of socket events, [/health], [/stats] and
    [/metrics] all report the number of sockets that are connected, and
    [/metrics] the number of rooms of the adapter. *)
Theorem the_endpoints_report_the_connected_sockets (evs : list HubEvent) (h : Hub)
    (rd : Readings) (m : string) :
  hub_run empty_hub evs = Some h ->
  m <> "OPTIONS" ->
  (exists b, res_body (requestListener h rd {| method := m; url := "/health" |}) = HealthBody b /\
             health_connectedClients b = length (sockets h)) /\
  (exists b, res_body (requestListener h rd {| method := m; url := "/stats" |}) = StatsBody b /\
             stats_connectedClients b = length (sockets h)) /\
  (exists b, res_body (requestListener h rd {| method := m; url := "/metrics" |}) = MetricsBody b /\
             totalClients b = length (sockets h) /\
             totalRooms b = length (rooms h)).
Proof.
  intros Hrun Hm. apply String.eqb_neq in Hm.
  destruct (hub_run_ok evs empty_hub h hub_ok_empty Hrun) as (_ & Hkeys & _).
  assert (Hlen : length (connectedClients h) = length (sockets h))
    by (rewrite <- Hkeys; symmetry; apply length_map).
  unfold requestListener. cbn [method url]. rewrite Hm. cbn.
  repeat split; eexists; (split; [reflexivity|]); cbn; auto.
Qed.

End HttpProperties.

(** ** The process *)

Section ProcessProperties.
Context `{NUM : JSNumber}.
Variable JSON_parse : string -> option JSValue.

Lemma remove_nth_snoc {A} (l : list A) (a : A) :
  remove_nth (length l) (l ++ [a])%list = l.
Proof. induction l as [|x l IH]; cbn; [reflexivity|]. rewrite IH. reflexivity. Qed.

Lemma gracefulShutdown_suspends (signal : string) (s : Server) :
  let s' := turn (detached (gracefulShutdown signal)) s in
  pending s' = (pending s ++ [CloseEnd (pgClient s)])%list /\
  timers s' = timers s /\ clients s' = clients s /\ pgClient s' = pgClient s /\
  uncaught s' = uncaught s /\ httpClosed s' = httpClosed s.
Proof. destruct s; repeat split; reflexivity. Qed.

Lemma close_settles (c : nat) (result : Completion unit) (s : Server) :
  exists s',
    sm_bind (settled (CloseEnd c) result) (fun _ => close_after_end result) s
    = (s', Normal tt) /\
    timers s' = timers s /\ pending s' = pending s /\ uncaught s' = uncaught s /\
    httpClosed s' = match result with
                    | Normal _ => true
                    | Throw _ => httpClosed s
                    end.
Proof.
  destruct s, result as [[]|e]; eexists; (split; [reflexivity|]);
    repeat split; reflexivity.
Qed.

Lemma process_step_running (p p' : Process) (ev : ProcessEvent) :
  process_step JSON_parse p ev = Some p' -> exit_code p = None.
Proof.
  unfold process_step. destruct (exit_code p); [discriminate|reflexivity].
Qed.

Lemma process_run_snoc (evs : list ProcessEvent) (ev : ProcessEvent) (p p' : Process) :
  process_run JSON_parse p (evs ++ [ev]) = Some p' <->
  exists q, process_run JSON_parse p evs = Some q /\
            process_step JSON_parse q ev = Some p'.
Proof.
  revert p. induction evs as [|e evs IH]; intros p; cbn.
  - destruct (process_step JSON_parse p ev) as [q|] eqn:E.
    + split; [intros H; exists p; split; [reflexivity|congruence]|].
      intros (q' & Hq & Hs). inversion Hq; subst q'. congruence.
    + split; [discriminate|].
      intros (q' & Hq & Hs). inversion Hq; subst q'. congruence.
  - destruct (process_step JSON_parse p e) as [q|]; [apply IH|].
    split; [discriminate|intros (q' & Hq & _); discriminate].
Qed.

(** The exit status of the process. *)
Lemma process_step_exit (p p' : Process) (ev : ProcessEvent) (code : Z) :
  process_step JSON_parse p ev = Some p' ->
  exit_code p' = Some code ->
  (code = 0%Z /\ exists i c result,
      ev = Loop (Settle i result) /\
      nth_error (pending (server p)) i = Some (CloseEnd c)) \/
  (code = 1%Z /\ exists text, ev = HttpServerError text).
Proof.
  unfold process_step. destruct (exit_code p); [discriminate|].
  destruct ev as [sig|text|ev].
  - intros H; inversion H; subst p'; discriminate.
  - intros H; inversion H; subst p'. cbn. intros H'; inversion H'.
    right. split; [reflexivity|]. eexists; reflexivity.
  - assert (Hother : forall o, option_map (handled (server p)) o = Some p' ->
                               exit_code p' = Some code -> False).
    { intros [s'|]; cbn; [|discriminate].
      intros H; inversion H; subst p'; discriminate. }
    destruct ev as [i result|c|c msg|i|ms|];
      try (intros H1 H2; exfalso; exact (Hother _ H1 H2));
      [|discriminate].
    destruct (nth_error (pending (server p)) i) as [[c|c ch rest|c|c]|] eqn:Ha;
      try (intros H1 H2; exfalso; exact (Hother _ H1 H2)).
    destruct (close_settles c result
                (set_pending (remove_nth i (pending (server p))) (server p)))
      as (s' & Hs' & _).
    rewrite Hs'. intros H; inversion H; subst p'. cbn.
    intros H'; inversion H'. left. split; [reflexivity|].
    exists i, c, result. split; [reflexivity|exact Ha].
Qed.

Lemma exit_status_running (evs : list ProcessEvent) (p p' : Process) (code : Z) :
  process_run JSON_parse p evs = Some p' ->
  exit_code p = None ->
  exit_code p' = Some code ->
  (code = 0%Z /\
   exists before i c result q,
     evs = (before ++ [Loop (Settle i result)])%list /\
     process_run JSON_parse p before = Some q /\
     nth_error (pending (server q)) i = Some (CloseEnd c)) \/
  (code = 1%Z /\
   exists before text, evs = (before ++ [HttpServerError text])%list).
Proof.
  intros Hrun Hp Hcode.
  destruct (exists_last (l := evs)) as (before & last & Hevs).
  { intros ->. cbn in Hrun. inversion Hrun; subst p'. congruence. }
  subst evs. apply process_run_snoc in Hrun. destruct Hrun as (q & Hq & Hstep).
  destruct (process_step_exit q p' last code Hstep Hcode)
    as [(-> & i & c & result & -> & Ha)|(-> & text & ->)].
  - left. split; [reflexivity|]. exists before, i, c, result, q. auto.
  - right. split; [reflexivity|]. exists before, text. reflexivity.
Qed.

Lemma process_run_exited (evs : list ProcessEvent) (p p' : Process) (code : Z) :
  exit_code p = Some code ->
  process_run JSON_parse p evs = Some p' -> evs = [] /\ p' = p.
Proof.
  intros Hp. destruct evs as [|ev evs]; cbn.
  - intros H; inversion H; auto.
  - unfold process_step. rewrite Hp. discriminate.
Qed.

(** X17.  The exit status of the process.  When the [listen] of the start
    throws, the process exits at once with status 1, from the catch of
    [startRealtimeServer]; otherwise it is running once
    [startRealtimeServer] has returned.  From then on it exits with status 0
    or 1 only: with 0 at the end of a graceful shutdown, at the moment the
    [end()] that [close] awaits has settled, whether it resolved or
    rejected; with 1 only from the [error] listener of the HTTP server.
    [close] never rejects, so the [process.exit(1)] of [gracefulShutdown] is
    never reached, and [startRealtimeServer] never rejects, so neither is
    the one in the [catch] on its promise. *)
Theorem a_shutdown_exits_with_zero :
  (forall error, exists s,
     startRealtimeServer (Throw error) = ({| server := s; exit_code := Some 1%Z |}, Normal tt) /\
     exit_code (main (Throw error)) = Some 1%Z) /\
  (forall listen, snd (startRealtimeServer listen) = Normal tt) /\
  main (Normal tt) = running constructed /\
  (forall listen evs p code,
     process_run JSON_parse (main listen) evs = Some p ->
     exit_code p = Some code ->
     (code = 0%Z /\ listen = Normal tt /\
      exists before i c result q,
        evs = (before ++ [Loop (Settle i result)])%list /\
        process_run JSON_parse (main listen) before = Some q /\
        exit_code q = None /\
        nth_error (pending (server q)) i = Some (CloseEnd c)) \/
     (code = 1%Z /\
      ((evs = [] /\ exists error, listen = Throw error) \/
       (listen = Normal tt /\
        exists before text, evs = (before ++ [HttpServerError text])%list)))).
Proof.
  split; [|split; [|split]].
  - intros error. eexists. split; reflexivity.
  - intros [[]|error]; reflexivity.
  - reflexivity.
  - intros [[]|error] evs p code Hrun Hcode.
    + destruct (exit_status_running evs _ p code Hrun eq_refl Hcode)
        as [(-> & before & i & c & result & q & Hevs & Hq & Ha)
           |(-> & before & text & Hevs)].
      * left. split; [reflexivity|]. split; [reflexivity|].
        exists before, i, c, result, q. repeat split; try assumption.
        subst evs. apply process_run_snoc in Hrun.
        destruct Hrun as (q' & Hq' & Hstep).
        rewrite Hq in Hq'. inversion Hq'; subst q'.
        exact (process_step_running _ _ _ Hstep).
      * right. split; [reflexivity|]. right. split; [reflexivity|].
        exists before, text. exact Hevs.
    + destruct (process_run_exited evs (main (Throw error)) p 1%Z eq_refl Hrun)
        as [-> ->].
      cbn in Hcode. inversion Hcode; subst code.
      right. split; [reflexivity|]. left. split; [reflexivity|].
      exists error. reflexivity.
Qed.

Lemma shutdown_settles (s : Server) (prefix : list Await) (c : nat)
    (result : Completion unit) :
  pending s = (prefix ++ [CloseEnd c])%list ->
  exists p',
    process_step JSON_parse (running s) (Loop (Settle (length prefix) result))
    = Some p' /\
    exit_code p' = Some 0%Z /\
    timers (server p') = timers s /\
    pending (server p') = prefix /\
    httpClosed (server p') = match result with
                             | Normal _ => true
                             | Throw _ => httpClosed s
                             end.
Proof.
  intros Hpending. unfold process_step. cbn [exit_code running server].
  assert (Ha : nth_error (pending s) (length prefix) = Some (CloseEnd c)).
  { rewrite Hpending, nth_error_app2 by lia. rewrite Nat.sub_diag. reflexivity. }
  rewrite Ha.
  destruct (close_settles c result
              (set_pending (remove_nth (length prefix) (pending s)) s))
    as (s' & Hs' & Ht & Hp & _ & Hh).
  rewrite Hs'. eexists. split; [reflexivity|].
  cbn [gracefulShutdown_after_close server exit_code].
  assert (Hlog : forall text,
             timers (turn (lift (console_log text [])) s') = timers s' /\
             pending (turn (lift (console_log text [])) s') = pending s' /\
             httpClosed (turn (lift (console_log text [])) s') = httpClosed s')
    by (intros text; destruct s'; repeat split; reflexivity).
  destruct (Hlog "Graceful shutdown complete") as (H1 & H2 & H3).
  rewrite H1, H2, H3, Ht, Hp, Hh. split; [reflexivity|].
  destruct s as [cs pg pe ti no ou hc un]; cbn in *. subst pe.
  rewrite remove_nth_snoc. repeat split.
Qed.

(** X18.  SIGINT and SIGTERM start the shutdown in any state of the
    server, and the process exits with 0 as soon as the [end()] of [close]
    settles.  The HTTP server has been closed by then if [end()] resolved;
    if it rejected, [httpServer.close()] was not called.  Pending retry
    timers and suspended attempts are left as they are. *)
Theorem a_signal_ends_the_process (p : Process) (sig : Signal)
    (result : Completion unit) :
  exit_code p = None ->
  exists p1 p2,
    process_step JSON_parse p (Received sig) = Some p1 /\
    exit_code p1 = None /\
    process_step JSON_parse p1
      (Loop (Settle (length (pending (server p))) result)) = Some p2 /\
    exit_code p2 = Some 0%Z /\
    timers (server p2) = timers (server p) /\
    pending (server p2) = pending (server p) /\
    httpClosed (server p2) = match result with
                             | Normal _ => true
                             | Throw _ => httpClosed (server p)
                             end.
Proof.
  intros Hp. unfold process_step at 1. rewrite Hp.
  destruct (gracefulShutdown_suspends (signal_name sig) (server p))
    as (Hpe & Hti & _ & _ & _ & Hh).
  destruct (shutdown_settles _ _ _ result Hpe) as (p2 & Hstep & Hcode & Ht & Hq & Hc).
  eexists; exists p2. split; [reflexivity|]. split; [reflexivity|].
  split; [exact Hstep|]. split; [exact Hcode|].
  split; [congruence|]. split; [exact Hq|].
  rewrite Hc. destruct result; [reflexivity|exact Hh].
Qed.

(** X19.  An [error] event of a client without an [error] listener (the
    client of a start that has not finished) is thrown to the event loop;
    the [uncaughtException] handler of the process then starts the graceful
    shutdown, and the process exits with status 0. *)
Theorem an_unheard_error_ends_the_process_with_zero (p : Process) (c : nat)
    (cl : Client) (result : Completion unit) :
  exit_code p = None ->
  nth_error (clients (server p)) c = Some cl ->
  error_listeners cl = 0 ->
  exists p1 p2,
    process_step JSON_parse p (Loop (PgError c)) = Some p1 /\
    exit_code p1 = None /\
    uncaught (server p1) = (uncaught (server p) ++ [HostError])%list /\
    pending (server p1) =
      (pending (server p) ++ [CloseEnd (pgClient (server p))])%list /\
    process_step JSON_parse p1
      (Loop (Settle (length (pending (server p))) result)) = Some p2 /\
    exit_code p2 = Some 0%Z.
Proof.
  intros Hp Hc Hn. unfold process_step at 1. rewrite Hp.
  unfold step. rewrite Hc, Hn. cbn [option_map].
  set (s1 := turn (sm_throw HostError) (server p)).
  assert (Hs1 : uncaught s1 = (uncaught (server p) ++ [HostError])%list /\
                pending s1 = pending (server p) /\
                pgClient s1 = pgClient (server p))
    by (subst s1; destruct (server p); repeat split; reflexivity).
  destruct Hs1 as (Hu & Hpe & Hpg).
  unfold handled. rewrite Hu, skipn_app, Nat.sub_diag, skipn_all. cbn [app skipn fold_left].
  set (s2 := turn (on_uncaughtException HostError) s1).
  assert (Hs2 : pending s2 = (pending s1 ++ [CloseEnd (pgClient s1)])%list /\
                uncaught s2 = uncaught s1)
    by (subst s2; destruct s1; split; reflexivity).
  destruct Hs2 as (Hpe2 & Hu2).
  destruct (shutdown_settles s2 (pending (server p)) (pgClient (server p)) result)
    as (p2 & Hstep & Hcode & _).
  { rewrite Hpe2, Hpe, Hpg. reflexivity. }
  exists (running s2), p2. split; [reflexivity|]. split; [reflexivity|].
  split; [cbn; congruence|]. split; [cbn; congruence|].
  split; [exact Hstep|exact Hcode].
Qed.

End ProcessProperties.

(** ** The further properties on concrete runs *)

Lemma emissions_shape_witness :
  exists s' t,
    step sample_JSON_parse listening_server (PgNotification 0 step_update_msg)
      = Some s' /\
    out s' = (out listening_server ++ t)%list /\
    length (emissions t) <= 2 * 1.
Proof.
  destruct (emissions_shape sample_JSON_parse listening_server 0 _ step_update_msg
              eq_refl) as (s' & t & Hstep & Hout & _ & _ & Hlen & _).
  exists s', t. repeat split; assumption.
Defined.

Lemma derived_room_overlap_witness :
  exists derived,
    targets (fst (on_notification sample_JSON_parse step_update_msg)) =
      [Room "conversion-steps"; Room derived] /\
    derived <> "conversions" /\
    (derived = "conversion-messages" <-> "c1" = "messages") /\
    (derived = "conversion-steps" <-> "c1" = "steps").
Proof.
  refine (derived_room_overlap sample_JSON_parse step_update_msg step_update_value
            "conversion-steps" "c1" _ _ _ _ _).
  - right. split; reflexivity.
  - reflexivity.
  - reflexivity.
  - reflexivity.
  - reflexivity.
Defined.

Lemma nothing_uncaught_witness :
  exists s,
    run sample_JSON_parse constructed (start_succeeds ++ one_error_then_reconnect)
      = Some s /\
    uncaught s = uncaught constructed.
Proof.
  eexists. split; [vm_compute; reflexivity|].
  refine (nothing_uncaught sample_JSON_parse
            (start_succeeds ++ one_error_then_reconnect)%list constructed _ _ _);
    vm_compute; reflexivity.
Defined.

Lemma a_listener_means_all_four_channels_witness :
  exists s cl,
    run sample_JSON_parse constructed start_succeeds = Some s /\
    nth_error (clients s) 0 = Some cl /\
    notification_listeners cl = 1 /\
    incl listen_channels (listening cl).
Proof.
  eexists. eexists. split; [vm_compute; reflexivity|].
  split; [reflexivity|]. split; [reflexivity|].
  refine (a_listener_means_all_four_channels sample_JSON_parse start_succeeds
            _ _ _ 0 _ _ _).
  - vm_compute; reflexivity.
  - vm_compute; reflexivity.
  - reflexivity.
  - cbn. lia.
Defined.

Lemma sample_session_runs : hub_run empty_hub sample_session = Some sample_hub.
Proof. vm_compute. reflexivity. Qed.

Lemma registry_counts_the_connected_sockets_witness :
  stats_connectedClients (getStats sample_hub sample_readings) = 2 /\
  totalClients (getMetrics sample_hub sample_readings) = 2.
Proof.
  exact (proj2 (proj2 (registry_counts_the_connected_sockets
                         sample_session sample_hub sample_readings
                         sample_session_runs))).
Defined.

Lemma subscriptions_mirror_rooms_witness :
  In "a" (members "conversions" (rooms sample_hub)) <->
  In "conversions" (subscribed "a" sample_hub).
Proof.
  refine (subscriptions_mirror_rooms sample_session sample_hub "a" "conversions"
            sample_session_runs _ _).
  - cbn. auto.
  - discriminate.
Defined.

Lemma delivery_follows_subscriptions_witness :
  delivered_to sample_hub "b"
    (fst (on_notification sample_JSON_parse step_update_msg)) = true.
Proof.
  refine (proj2 (proj2 (delivery_follows_subscriptions sample_session sample_hub "b"
                          (fst (on_notification sample_JSON_parse step_update_msg))
                          sample_session_runs) _ _) _).
  - cbn. auto.
  - intros r [H|[H|[]]]; inversion H; discriminate.
  - right. exists "conversion-steps". split; [left; reflexivity|cbn; auto].
Defined.

Lemma conversion_changes_reach_the_subscribers_witness :
  exists s' t,
    step sample_JSON_parse listening_server (PgNotification 0 conversion_msg)
      = Some s' /\
    out s' = (out listening_server ++ t)%list /\
    delivered_to sample_hub "a" t = true /\
    delivered_to sample_hub "b" t = false.
Proof.
  destruct (conversion_changes_reach_the_subscribers sample_JSON_parse
              sample_session sample_hub "a" listening_server 0 _ conversion_msg
              step_update_value sample_session_runs
              (or_introl eq_refl) ltac:(discriminate) eq_refl eq_refl eq_refl eq_refl)
    as (s' & t & Hstep & Hout & Ha & _).
  exists s', t. split; [exact Hstep|]. split; [exact Hout|]. split.
  - apply Ha. split; [cbn; lia | cbn; auto].
  - cbn in Hstep. inversion Hstep; subst s'. cbn in Hout.
    injection Hout as Ht. subst t. reflexivity.
Defined.

Lemma subscribing_again_changes_nothing_witness :
  rooms (on_subscribe "a" ["conversion-c1"] "t7"
           (on_subscribe "a" ["conversion-c1"] "t6" sample_hub)) =
  rooms (on_subscribe "a" ["conversion-c1"] "t6" sample_hub).
Proof.
  refine (proj1 (subscribing_again_changes_nothing sample_session sample_hub "a"
                   ["conversion-c1"] "t6" "t7" sample_session_runs _)).
  cbn. auto.
Defined.

Lemma subscribe_joins_and_unsubscribe_leaves_witness :
  delivered_to (on_subscribe "b" ["conversions"] "t6" sample_hub) "b"
    (fst (on_notification sample_JSON_parse conversion_msg)) = true.
Proof.
  refine (proj2 (proj2 (proj1 (subscribe_joins_and_unsubscribe_leaves
                                 sample_session sample_hub "b" "conversions"
                                 ["conversions"] "t6"
                                 (fst (on_notification sample_JSON_parse conversion_msg))
                                 sample_session_runs _ _ _)))).
  - cbn. auto.
  - cbn. auto.
  - cbn. auto.
Defined.

Lemma disconnect_forgets_the_socket_witness :
  ~ In "b" (sockets (on_disconnect "b" "transport close" sample_hub)) /\
  has_clientData "b" (on_disconnect "b" "transport close" sample_hub) = false.
Proof.
  pose proof (disconnect_forgets_the_socket sample_session sample_hub "b"
                "transport close" sample_session_runs) as H.
  cbv zeta in H.
  refine ((fun H' => conj (proj1 H') (proj1 (proj2 H'))) (H _)).
  cbn. auto.
Defined.

Lemma getChannels_lists_the_shared_rooms_witness :
  totalChannels (getChannels sample_hub sample_readings) = 2 /\
  NoDup (map fst (listed_channels (getChannels sample_hub sample_readings))).
Proof.
  refine ((fun H => conj (proj1 H) (proj1 (proj2 H)))
            (getChannels_lists_the_shared_rooms sample_session sample_hub
               sample_readings sample_session_runs)).
Defined.

Lemma stats_and_metrics_agree_on_the_rooms_witness :
  totalRooms (getMetrics sample_hub sample_readings) = 4 /\
  stats_rooms (getStats sample_hub sample_readings) =
    ["a"; "b"; "conversions"; "conversion-steps"].
Proof.
  split; [|reflexivity].
  exact (proj1 (proj2 (proj2 (proj2 (proj2
           (stats_and_metrics_agree_on_the_rooms sample_session sample_hub
              sample_readings sample_session_runs)))))).
Defined.

Lemma every_response_carries_the_cors_headers_witness :
  httpServer_request sample_hub sample_readings polling = None /\
  exists res,
    httpServer_request sample_hub sample_readings preflight = Some res /\
    statusCode res = 200 /\ res_body res = NoBody /\
    Map_get "Access-Control-Allow-Origin" (headers res) = Some "*" /\
    Map_get "Content-Type" (headers res) = None.
Proof.
  split; [reflexivity|].
  eexists. split; [reflexivity|].
  destruct (every_response_carries_the_cors_headers sample_hub sample_readings
              preflight _ eq_refl) as (_ & Horigin & _ & _ & Hoptions & _).
  destruct (Hoptions eq_refl) as (H1 & H2 & H3).
  repeat split; assumption.
Defined.

Lemma routing_is_by_exact_url_witness :
  exists res,
    httpServer_request sample_hub sample_readings health_with_query = Some res /\
    statusCode res = 404 /\
    res_body res = NotFoundBody "Not Found" "/health?verbose=1".
Proof.
  refine (proj1 (proj2 (routing_is_by_exact_url sample_hub sample_readings
                          health_with_query _)) _ _).
  - discriminate.
  - intros H. cbn in H. decompose [or] H; try discriminate; contradiction.
  - reflexivity.
Defined.

Lemma the_endpoints_report_the_connected_sockets_witness :
  exists b,
    res_body (requestListener sample_hub sample_readings
                {| method := "GET"; url := "/health" |}) = HealthBody b /\
    health_connectedClients b = 2.
Proof.
  refine (proj1 (the_endpoints_report_the_connected_sockets sample_session
                   sample_hub sample_readings "GET" sample_session_runs _)).
  discriminate.
Defined.

Lemma a_shutdown_exits_with_zero_witness :
  exists p,
    process_run sample_JSON_parse (main resolved) sigterm_then_failed_end = Some p /\
    exit_code p = Some 0%Z /\
    exists before i c result q,
      sigterm_then_failed_end = (before ++ [Loop (Settle i result)])%list /\
      process_run sample_JSON_parse (main resolved) before = Some q /\
      exit_code q = None /\
      nth_error (pending (server q)) i = Some (CloseEnd c).
Proof.
  eexists. split; [vm_compute; reflexivity|]. split; [reflexivity|].
  destruct (proj2 (proj2 (proj2 (a_shutdown_exits_with_zero sample_JSON_parse)))
              resolved sigterm_then_failed_end _ 0%Z
              ltac:(vm_compute; reflexivity) eq_refl)
    as [(_ & _ & H)|(H & _)]; [exact H | discriminate H].
Defined.

Lemma a_signal_ends_the_process_witness :
  exists p1 p2,
    process_step sample_JSON_parse started (Received SIGINT) = Some p1 /\
    exit_code p1 = None /\
    process_step sample_JSON_parse p1 (Loop (Settle 1 (Throw HostError))) = Some p2 /\
    exit_code p2 = Some 0%Z /\
    timers (server p2) = [] /\
    pending (server p2) = [SetupConnect 0] /\
    httpClosed (server p2) = false.
Proof.
  exact (a_signal_ends_the_process sample_JSON_parse started SIGINT
           (Throw HostError) eq_refl).
Defined.

Lemma an_unheard_error_ends_the_process_with_zero_witness :
  exists p1 p2,
    process_step sample_JSON_parse started (Loop (PgError 0)) = Some p1 /\
    exit_code p1 = None /\
    uncaught (server p1) = [HostError] /\
    pending (server p1) = [SetupConnect 0; CloseEnd 0] /\
    process_step sample_JSON_parse p1 (Loop (Settle 1 (Normal tt))) = Some p2 /\
    exit_code p2 = Some 0%Z.
Proof.
  exact (an_unheard_error_ends_the_process_with_zero sample_JSON_parse started 0
           new_Client (Normal tt) eq_refl eq_refl eq_refl).
Defined.
